(** * The migration runner of the to-do list service (src/migrate.py)

    A shallow embedding of [migrate.py]: the connection provisioner
    [connect_mysql], the loader [load_migrations], the tracker
    [already_applied], the executor [apply_migration] and the operator
    command [main], which also seeds the administrative account.

    The runner talks to the outside through a DB-API driver.  The driver is
    an interface here (class [DBAPI]); the program is written once against
    the interface, in a state-and-exception monad that records every driver
    call and every printed line.  A reference MySQL server ([Ref]) is one
    instance of the interface, used for the properties that depend on what
    the tables contain. *)

From Stdlib Require Import List Bool Arith ZArith NArith Lia String Ascii.
From Stdlib Require Import Sorted Permutation.
Import ListNotations.
Open Scope string_scope.
Open Scope list_scope.

(** ** Python values the runner handles *)

(** A Python [str] is a [string] here, holding its UTF-8 bytes: an ASCII
    character is one [ascii], any other character the two to four bytes
    of its encoding.  Comparison is Python's (UTF-8 keeps the order of
    code points). *)

(** *** Characters *)

(** A continuation byte of UTF-8, [10xxxxxx]. *)
Definition continuation (c : ascii) : bool :=
  let n := N_of_ascii c in ((128 <=? n) && (n <? 192))%N.

Definition starts_continued (s : string) : bool :=
  match s with
  | String c _ => continuation c
  | EmptyString => false
  end.

(** The characters of a [str], each with its bytes: every byte that is
    not a continuation byte starts a character. *)
Fixpoint chars (s : string) : list string :=
  match s with
  | EmptyString => []
  | String c s' =>
      match chars s' with
      | ch :: l =>
          if starts_continued s' then String c ch :: l
          else String c EmptyString :: ch :: l
      | [] => [String c EmptyString]
      end
  end.

(** [len(s)] *)
Definition py_len (s : string) : nat := List.length (chars s).

(** [ord(ch)] of one character; [None] for bytes that encode none. *)
Definition ord (ch : string) : option N :=
  let cont (x : N) : bool := ((128 <=? x) && (x <? 192))%N in
  match map N_of_ascii (list_ascii_of_string ch) with
  | [a] => if (a <? 128)%N then Some a else None
  | [a; b] =>
      if ((194 <=? a) && (a <? 224) && cont b)%N
      then Some ((a - 192) * 64 + (b - 128))%N else None
  | [a; b; c] =>
      let n := (((a - 224) * 64 + (b - 128)) * 64 + (c - 128))%N in
      if ((224 <=? a) && (a <? 240) && cont b && cont c
          && (2048 <=? n) && negb ((55296 <=? n) && (n <? 57344)))%N
      then Some n else None
  | [a; b; c; d] =>
      let n := ((((a - 240) * 64 + (b - 128)) * 64 + (c - 128)) * 64 + (d - 128))%N in
      if ((240 <=? a) && (a <? 248) && cont b && cont c && cont d
          && (65536 <=? n) && (n <? 1114112))%N
      then Some n else None
  | _ => None
  end.

(** The code points [str.isspace] accepts. *)
Definition whitespace : list N :=
  [
   0x9; 0xA; 0xB; 0xC; 0xD; 0x1C; 0x1D; 0x1E; 0x1F; 0x20;
   0x85; 0xA0; 0x1680; 0x2000; 0x2001; 0x2002; 0x2003; 0x2004; 0x2005; 0x2006;
   0x2007; 0x2008; 0x2009; 0x200A; 0x2028; 0x2029; 0x202F; 0x205F; 0x3000
  ]%N.

(** [ch.isspace()] *)
Definition py_isspace (ch : string) : bool :=
  match ord ch with
  | Some n => existsb (N.eqb n) whitespace
  | None => false
  end.

(** The zeros of the decimal digits of Unicode 14.0 (CPython 3.11): each
    starts a run of the ten digits of one script. *)
Definition decimal_zeros : list N :=
  [
   0x30; 0x660; 0x6F0; 0x7C0; 0x966; 0x9E6; 0xA66; 0xAE6;
   0xB66; 0xBE6; 0xC66; 0xCE6; 0xD66; 0xDE6; 0xE50; 0xED0;
   0xF20; 0x1040; 0x1090; 0x17E0; 0x1810; 0x1946; 0x19D0; 0x1A80;
   0x1A90; 0x1B50; 0x1BB0; 0x1C40; 0x1C50; 0xA620; 0xA8D0; 0xA900;
   0xA9D0; 0xA9F0; 0xAA50; 0xABF0; 0xFF10; 0x104A0; 0x10D30; 0x11066;
   0x110F0; 0x11136; 0x111D0; 0x112F0; 0x11450; 0x114D0; 0x11650; 0x116C0;
   0x11730; 0x118E0; 0x11950; 0x11C50; 0x11D50; 0x11DA0; 0x16A60; 0x16AC0;
   0x16B50; 0x1D7CE; 0x1D7D8; 0x1D7E2; 0x1D7EC; 0x1D7F6; 0x1E140; 0x1E2F0;
   0x1E950; 0x1FBF0
  ]%N.

(** [unicodedata.decimal(ch)] *)
Definition decimal (n : N) : option N :=
  option_map (fun z => (n - z)%N)
    (find (fun z => ((z <=? n) && (n <? z + 10))%N) decimal_zeros).

(** The ranges, ends included, of the code points from 0x80 on that
    [str.isprintable] rejects (Unicode 14.0). *)
Definition unprintable : list (N * N) :=
  [
   (0x80, 0xA0); (0xAD, 0xAD); (0x378, 0x379); (0x380, 0x383);
   (0x38B, 0x38B); (0x38D, 0x38D); (0x3A2, 0x3A2); (0x530, 0x530);
   (0x557, 0x558); (0x58B, 0x58C); (0x590, 0x590); (0x5C8, 0x5CF);
   (0x5EB, 0x5EE); (0x5F5, 0x605); (0x61C, 0x61C); (0x6DD, 0x6DD);
   (0x70E, 0x70F); (0x74B, 0x74C); (0x7B2, 0x7BF); (0x7FB, 0x7FC);
   (0x82E, 0x82F); (0x83F, 0x83F); (0x85C, 0x85D); (0x85F, 0x85F);
   (0x86B, 0x86F); (0x88F, 0x897); (0x8E2, 0x8E2); (0x984, 0x984);
   (0x98D, 0x98E); (0x991, 0x992); (0x9A9, 0x9A9); (0x9B1, 0x9B1);
   (0x9B3, 0x9B5); (0x9BA, 0x9BB); (0x9C5, 0x9C6); (0x9C9, 0x9CA);
   (0x9CF, 0x9D6); (0x9D8, 0x9DB); (0x9DE, 0x9DE); (0x9E4, 0x9E5);
   (0x9FF, 0xA00); (0xA04, 0xA04); (0xA0B, 0xA0E); (0xA11, 0xA12);
   (0xA29, 0xA29); (0xA31, 0xA31); (0xA34, 0xA34); (0xA37, 0xA37);
   (0xA3A, 0xA3B); (0xA3D, 0xA3D); (0xA43, 0xA46); (0xA49, 0xA4A);
   (0xA4E, 0xA50); (0xA52, 0xA58); (0xA5D, 0xA5D); (0xA5F, 0xA65);
   (0xA77, 0xA80); (0xA84, 0xA84); (0xA8E, 0xA8E); (0xA92, 0xA92);
   (0xAA9, 0xAA9); (0xAB1, 0xAB1); (0xAB4, 0xAB4); (0xABA, 0xABB);
   (0xAC6, 0xAC6); (0xACA, 0xACA); (0xACE, 0xACF); (0xAD1, 0xADF);
   (0xAE4, 0xAE5); (0xAF2, 0xAF8); (0xB00, 0xB00); (0xB04, 0xB04);
   (0xB0D, 0xB0E); (0xB11, 0xB12); (0xB29, 0xB29); (0xB31, 0xB31);
   (0xB34, 0xB34); (0xB3A, 0xB3B); (0xB45, 0xB46); (0xB49, 0xB4A);
   (0xB4E, 0xB54); (0xB58, 0xB5B); (0xB5E, 0xB5E); (0xB64, 0xB65);
   (0xB78, 0xB81); (0xB84, 0xB84); (0xB8B, 0xB8D); (0xB91, 0xB91);
   (0xB96, 0xB98); (0xB9B, 0xB9B); (0xB9D, 0xB9D); (0xBA0, 0xBA2);
   (0xBA5, 0xBA7); (0xBAB, 0xBAD); (0xBBA, 0xBBD); (0xBC3, 0xBC5);
   (0xBC9, 0xBC9); (0xBCE, 0xBCF); (0xBD1, 0xBD6); (0xBD8, 0xBE5);
   (0xBFB, 0xBFF); (0xC0D, 0xC0D); (0xC11, 0xC11); (0xC29, 0xC29);
   (0xC3A, 0xC3B); (0xC45, 0xC45); (0xC49, 0xC49); (0xC4E, 0xC54);
   (0xC57, 0xC57); (0xC5B, 0xC5C); (0xC5E, 0xC5F); (0xC64, 0xC65);
   (0xC70, 0xC76); (0xC8D, 0xC8D); (0xC91, 0xC91); (0xCA9, 0xCA9);
   (0xCB4, 0xCB4); (0xCBA, 0xCBB); (0xCC5, 0xCC5); (0xCC9, 0xCC9);
   (0xCCE, 0xCD4); (0xCD7, 0xCDC); (0xCDF, 0xCDF); (0xCE4, 0xCE5);
   (0xCF0, 0xCF0); (0xCF3, 0xCFF); (0xD0D, 0xD0D); (0xD11, 0xD11);
   (0xD45, 0xD45); (0xD49, 0xD49); (0xD50, 0xD53); (0xD64, 0xD65);
   (0xD80, 0xD80); (0xD84, 0xD84); (0xD97, 0xD99); (0xDB2, 0xDB2);
   (0xDBC, 0xDBC); (0xDBE, 0xDBF); (0xDC7, 0xDC9); (0xDCB, 0xDCE);
   (0xDD5, 0xDD5); (0xDD7, 0xDD7); (0xDE0, 0xDE5); (0xDF0, 0xDF1);
   (0xDF5, 0xE00); (0xE3B, 0xE3E); (0xE5C, 0xE80); (0xE83, 0xE83);
   (0xE85, 0xE85); (0xE8B, 0xE8B); (0xEA4, 0xEA4); (0xEA6, 0xEA6);
   (0xEBE, 0xEBF); (0xEC5, 0xEC5); (0xEC7, 0xEC7); (0xECE, 0xECF);
   (0xEDA, 0xEDB); (0xEE0, 0xEFF); (0xF48, 0xF48); (0xF6D, 0xF70);
   (0xF98, 0xF98); (0xFBD, 0xFBD); (0xFCD, 0xFCD); (0xFDB, 0xFFF);
   (0x10C6, 0x10C6); (0x10C8, 0x10CC); (0x10CE, 0x10CF); (0x1249, 0x1249);
   (0x124E, 0x124F); (0x1257, 0x1257); (0x1259, 0x1259); (0x125E, 0x125F);
   (0x1289, 0x1289); (0x128E, 0x128F); (0x12B1, 0x12B1); (0x12B6, 0x12B7);
   (0x12BF, 0x12BF); (0x12C1, 0x12C1); (0x12C6, 0x12C7); (0x12D7, 0x12D7);
   (0x1311, 0x1311); (0x1316, 0x1317); (0x135B, 0x135C); (0x137D, 0x137F);
   (0x139A, 0x139F); (0x13F6, 0x13F7); (0x13FE, 0x13FF); (0x1680, 0x1680);
   (0x169D, 0x169F); (0x16F9, 0x16FF); (0x1716, 0x171E); (0x1737, 0x173F);
   (0x1754, 0x175F); (0x176D, 0x176D); (0x1771, 0x1771); (0x1774, 0x177F);
   (0x17DE, 0x17DF); (0x17EA, 0x17EF); (0x17FA, 0x17FF); (0x180E, 0x180E);
   (0x181A, 0x181F); (0x1879, 0x187F); (0x18AB, 0x18AF); (0x18F6, 0x18FF);
   (0x191F, 0x191F); (0x192C, 0x192F); (0x193C, 0x193F); (0x1941, 0x1943);
   (0x196E, 0x196F); (0x1975, 0x197F); (0x19AC, 0x19AF); (0x19CA, 0x19CF);
   (0x19DB, 0x19DD); (0x1A1C, 0x1A1D); (0x1A5F, 0x1A5F); (0x1A7D, 0x1A7E);
   (0x1A8A, 0x1A8F); (0x1A9A, 0x1A9F); (0x1AAE, 0x1AAF); (0x1ACF, 0x1AFF);
   (0x1B4D, 0x1B4F); (0x1B7F, 0x1B7F); (0x1BF4, 0x1BFB); (0x1C38, 0x1C3A);
   (0x1C4A, 0x1C4C); (0x1C89, 0x1C8F); (0x1CBB, 0x1CBC); (0x1CC8, 0x1CCF);
   (0x1CFB, 0x1CFF); (0x1F16, 0x1F17); (0x1F1E, 0x1F1F); (0x1F46, 0x1F47);
   (0x1F4E, 0x1F4F); (0x1F58, 0x1F58); (0x1F5A, 0x1F5A); (0x1F5C, 0x1F5C);
   (0x1F5E, 0x1F5E); (0x1F7E, 0x1F7F); (0x1FB5, 0x1FB5); (0x1FC5, 0x1FC5);
   (0x1FD4, 0x1FD5); (0x1FDC, 0x1FDC); (0x1FF0, 0x1FF1); (0x1FF5, 0x1FF5);
   (0x1FFF, 0x200F); (0x2028, 0x202F); (0x205F, 0x206F); (0x2072, 0x2073);
   (0x208F, 0x208F); (0x209D, 0x209F); (0x20C1, 0x20CF); (0x20F1, 0x20FF);
   (0x218C, 0x218F); (0x2427, 0x243F); (0x244B, 0x245F); (0x2B74, 0x2B75);
   (0x2B96, 0x2B96); (0x2CF4, 0x2CF8); (0x2D26, 0x2D26); (0x2D28, 0x2D2C);
   (0x2D2E, 0x2D2F); (0x2D68, 0x2D6E); (0x2D71, 0x2D7E); (0x2D97, 0x2D9F);
   (0x2DA7, 0x2DA7); (0x2DAF, 0x2DAF); (0x2DB7, 0x2DB7); (0x2DBF, 0x2DBF);
   (0x2DC7, 0x2DC7); (0x2DCF, 0x2DCF); (0x2DD7, 0x2DD7); (0x2DDF, 0x2DDF);
   (0x2E5E, 0x2E7F); (0x2E9A, 0x2E9A); (0x2EF4, 0x2EFF); (0x2FD6, 0x2FEF);
   (0x2FFC, 0x3000); (0x3040, 0x3040); (0x3097, 0x3098); (0x3100, 0x3104);
   (0x3130, 0x3130); (0x318F, 0x318F); (0x31E4, 0x31EF); (0x321F, 0x321F);
   (0xA48D, 0xA48F); (0xA4C7, 0xA4CF); (0xA62C, 0xA63F); (0xA6F8, 0xA6FF);
   (0xA7CB, 0xA7CF); (0xA7D2, 0xA7D2); (0xA7D4, 0xA7D4); (0xA7DA, 0xA7F1);
   (0xA82D, 0xA82F); (0xA83A, 0xA83F); (0xA878, 0xA87F); (0xA8C6, 0xA8CD);
   (0xA8DA, 0xA8DF); (0xA954, 0xA95E); (0xA97D, 0xA97F); (0xA9CE, 0xA9CE);
   (0xA9DA, 0xA9DD); (0xA9FF, 0xA9FF); (0xAA37, 0xAA3F); (0xAA4E, 0xAA4F);
   (0xAA5A, 0xAA5B); (0xAAC3, 0xAADA); (0xAAF7, 0xAB00); (0xAB07, 0xAB08);
   (0xAB0F, 0xAB10); (0xAB17, 0xAB1F); (0xAB27, 0xAB27); (0xAB2F, 0xAB2F);
   (0xAB6C, 0xAB6F); (0xABEE, 0xABEF); (0xABFA, 0xABFF); (0xD7A4, 0xD7AF);
   (0xD7C7, 0xD7CA); (0xD7FC, 0xF8FF); (0xFA6E, 0xFA6F); (0xFADA, 0xFAFF);
   (0xFB07, 0xFB12); (0xFB18, 0xFB1C); (0xFB37, 0xFB37); (0xFB3D, 0xFB3D);
   (0xFB3F, 0xFB3F); (0xFB42, 0xFB42); (0xFB45, 0xFB45); (0xFBC3, 0xFBD2);
   (0xFD90, 0xFD91); (0xFDC8, 0xFDCE); (0xFDD0, 0xFDEF); (0xFE1A, 0xFE1F);
   (0xFE53, 0xFE53); (0xFE67, 0xFE67); (0xFE6C, 0xFE6F); (0xFE75, 0xFE75);
   (0xFEFD, 0xFF00); (0xFFBF, 0xFFC1); (0xFFC8, 0xFFC9); (0xFFD0, 0xFFD1);
   (0xFFD8, 0xFFD9); (0xFFDD, 0xFFDF); (0xFFE7, 0xFFE7); (0xFFEF, 0xFFFB);
   (0xFFFE, 0xFFFF); (0x1000C, 0x1000C); (0x10027, 0x10027); (0x1003B, 0x1003B);
   (0x1003E, 0x1003E); (0x1004E, 0x1004F); (0x1005E, 0x1007F); (0x100FB, 0x100FF);
   (0x10103, 0x10106); (0x10134, 0x10136); (0x1018F, 0x1018F); (0x1019D, 0x1019F);
   (0x101A1, 0x101CF); (0x101FE, 0x1027F); (0x1029D, 0x1029F); (0x102D1, 0x102DF);
   (0x102FC, 0x102FF); (0x10324, 0x1032C); (0x1034B, 0x1034F); (0x1037B, 0x1037F);
   (0x1039E, 0x1039E); (0x103C4, 0x103C7); (0x103D6, 0x103FF); (0x1049E, 0x1049F);
   (0x104AA, 0x104AF); (0x104D4, 0x104D7); (0x104FC, 0x104FF); (0x10528, 0x1052F);
   (0x10564, 0x1056E); (0x1057B, 0x1057B); (0x1058B, 0x1058B); (0x10593, 0x10593);
   (0x10596, 0x10596); (0x105A2, 0x105A2); (0x105B2, 0x105B2); (0x105BA, 0x105BA);
   (0x105BD, 0x105FF); (0x10737, 0x1073F); (0x10756, 0x1075F); (0x10768, 0x1077F);
   (0x10786, 0x10786); (0x107B1, 0x107B1); (0x107BB, 0x107FF); (0x10806, 0x10807);
   (0x10809, 0x10809); (0x10836, 0x10836); (0x10839, 0x1083B); (0x1083D, 0x1083E);
   (0x10856, 0x10856); (0x1089F, 0x108A6); (0x108B0, 0x108DF); (0x108F3, 0x108F3);
   (0x108F6, 0x108FA); (0x1091C, 0x1091E); (0x1093A, 0x1093E); (0x10940, 0x1097F);
   (0x109B8, 0x109BB); (0x109D0, 0x109D1); (0x10A04, 0x10A04); (0x10A07, 0x10A0B);
   (0x10A14, 0x10A14); (0x10A18, 0x10A18); (0x10A36, 0x10A37); (0x10A3B, 0x10A3E);
   (0x10A49, 0x10A4F); (0x10A59, 0x10A5F); (0x10AA0, 0x10ABF); (0x10AE7, 0x10AEA);
   (0x10AF7, 0x10AFF); (0x10B36, 0x10B38); (0x10B56, 0x10B57); (0x10B73, 0x10B77);
   (0x10B92, 0x10B98); (0x10B9D, 0x10BA8); (0x10BB0, 0x10BFF); (0x10C49, 0x10C7F);
   (0x10CB3, 0x10CBF); (0x10CF3, 0x10CF9); (0x10D28, 0x10D2F); (0x10D3A, 0x10E5F);
   (0x10E7F, 0x10E7F); (0x10EAA, 0x10EAA); (0x10EAE, 0x10EAF); (0x10EB2, 0x10EFF);
   (0x10F28, 0x10F2F); (0x10F5A, 0x10F6F); (0x10F8A, 0x10FAF); (0x10FCC, 0x10FDF);
   (0x10FF7, 0x10FFF); (0x1104E, 0x11051); (0x11076, 0x1107E); (0x110BD, 0x110BD);
   (0x110C3, 0x110CF); (0x110E9, 0x110EF); (0x110FA, 0x110FF); (0x11135, 0x11135);
   (0x11148, 0x1114F); (0x11177, 0x1117F); (0x111E0, 0x111E0); (0x111F5, 0x111FF);
   (0x11212, 0x11212); (0x1123F, 0x1127F); (0x11287, 0x11287); (0x11289, 0x11289);
   (0x1128E, 0x1128E); (0x1129E, 0x1129E); (0x112AA, 0x112AF); (0x112EB, 0x112EF);
   (0x112FA, 0x112FF); (0x11304, 0x11304); (0x1130D, 0x1130E); (0x11311, 0x11312);
   (0x11329, 0x11329); (0x11331, 0x11331); (0x11334, 0x11334); (0x1133A, 0x1133A);
   (0x11345, 0x11346); (0x11349, 0x1134A); (0x1134E, 0x1134F); (0x11351, 0x11356);
   (0x11358, 0x1135C); (0x11364, 0x11365); (0x1136D, 0x1136F); (0x11375, 0x113FF);
   (0x1145C, 0x1145C); (0x11462, 0x1147F); (0x114C8, 0x114CF); (0x114DA, 0x1157F);
   (0x115B6, 0x115B7); (0x115DE, 0x115FF); (0x11645, 0x1164F); (0x1165A, 0x1165F);
   (0x1166D, 0x1167F); (0x116BA, 0x116BF); (0x116CA, 0x116FF); (0x1171B, 0x1171C);
   (0x1172C, 0x1172F); (0x11747, 0x117FF); (0x1183C, 0x1189F); (0x118F3, 0x118FE);
   (0x11907, 0x11908); (0x1190A, 0x1190B); (0x11914, 0x11914); (0x11917, 0x11917);
   (0x11936, 0x11936); (0x11939, 0x1193A); (0x11947, 0x1194F); (0x1195A, 0x1199F);
   (0x119A8, 0x119A9); (0x119D8, 0x119D9); (0x119E5, 0x119FF); (0x11A48, 0x11A4F);
   (0x11AA3, 0x11AAF); (0x11AF9, 0x11BFF); (0x11C09, 0x11C09); (0x11C37, 0x11C37);
   (0x11C46, 0x11C4F); (0x11C6D, 0x11C6F); (0x11C90, 0x11C91); (0x11CA8, 0x11CA8);
   (0x11CB7, 0x11CFF); (0x11D07, 0x11D07); (0x11D0A, 0x11D0A); (0x11D37, 0x11D39);
   (0x11D3B, 0x11D3B); (0x11D3E, 0x11D3E); (0x11D48, 0x11D4F); (0x11D5A, 0x11D5F);
   (0x11D66, 0x11D66); (0x11D69, 0x11D69); (0x11D8F, 0x11D8F); (0x11D92, 0x11D92);
   (0x11D99, 0x11D9F); (0x11DAA, 0x11EDF); (0x11EF9, 0x11FAF); (0x11FB1, 0x11FBF);
   (0x11FF2, 0x11FFE); (0x1239A, 0x123FF); (0x1246F, 0x1246F); (0x12475, 0x1247F);
   (0x12544, 0x12F8F); (0x12FF3, 0x12FFF); (0x1342F, 0x143FF); (0x14647, 0x167FF);
   (0x16A39, 0x16A3F); (0x16A5F, 0x16A5F); (0x16A6A, 0x16A6D); (0x16ABF, 0x16ABF);
   (0x16ACA, 0x16ACF); (0x16AEE, 0x16AEF); (0x16AF6, 0x16AFF); (0x16B46, 0x16B4F);
   (0x16B5A, 0x16B5A); (0x16B62, 0x16B62); (0x16B78, 0x16B7C); (0x16B90, 0x16E3F);
   (0x16E9B, 0x16EFF); (0x16F4B, 0x16F4E); (0x16F88, 0x16F8E); (0x16FA0, 0x16FDF);
   (0x16FE5, 0x16FEF); (0x16FF2, 0x16FFF); (0x187F8, 0x187FF); (0x18CD6, 0x18CFF);
   (0x18D09, 0x1AFEF); (0x1AFF4, 0x1AFF4); (0x1AFFC, 0x1AFFC); (0x1AFFF, 0x1AFFF);
   (0x1B123, 0x1B14F); (0x1B153, 0x1B163); (0x1B168, 0x1B16F); (0x1B2FC, 0x1BBFF);
   (0x1BC6B, 0x1BC6F); (0x1BC7D, 0x1BC7F); (0x1BC89, 0x1BC8F); (0x1BC9A, 0x1BC9B);
   (0x1BCA0, 0x1CEFF); (0x1CF2E, 0x1CF2F); (0x1CF47, 0x1CF4F); (0x1CFC4, 0x1CFFF);
   (0x1D0F6, 0x1D0FF); (0x1D127, 0x1D128); (0x1D173, 0x1D17A); (0x1D1EB, 0x1D1FF);
   (0x1D246, 0x1D2DF); (0x1D2F4, 0x1D2FF); (0x1D357, 0x1D35F); (0x1D379, 0x1D3FF);
   (0x1D455, 0x1D455); (0x1D49D, 0x1D49D); (0x1D4A0, 0x1D4A1); (0x1D4A3, 0x1D4A4);
   (0x1D4A7, 0x1D4A8); (0x1D4AD, 0x1D4AD); (0x1D4BA, 0x1D4BA); (0x1D4BC, 0x1D4BC);
   (0x1D4C4, 0x1D4C4); (0x1D506, 0x1D506); (0x1D50B, 0x1D50C); (0x1D515, 0x1D515);
   (0x1D51D, 0x1D51D); (0x1D53A, 0x1D53A); (0x1D53F, 0x1D53F); (0x1D545, 0x1D545);
   (0x1D547, 0x1D549); (0x1D551, 0x1D551); (0x1D6A6, 0x1D6A7); (0x1D7CC, 0x1D7CD);
   (0x1DA8C, 0x1DA9A); (0x1DAA0, 0x1DAA0); (0x1DAB0, 0x1DEFF); (0x1DF1F, 0x1DFFF);
   (0x1E007, 0x1E007); (0x1E019, 0x1E01A); (0x1E022, 0x1E022); (0x1E025, 0x1E025);
   (0x1E02B, 0x1E0FF); (0x1E12D, 0x1E12F); (0x1E13E, 0x1E13F); (0x1E14A, 0x1E14D);
   (0x1E150, 0x1E28F); (0x1E2AF, 0x1E2BF); (0x1E2FA, 0x1E2FE); (0x1E300, 0x1E7DF);
   (0x1E7E7, 0x1E7E7); (0x1E7EC, 0x1E7EC); (0x1E7EF, 0x1E7EF); (0x1E7FF, 0x1E7FF);
   (0x1E8C5, 0x1E8C6); (0x1E8D7, 0x1E8FF); (0x1E94C, 0x1E94F); (0x1E95A, 0x1E95D);
   (0x1E960, 0x1EC70); (0x1ECB5, 0x1ED00); (0x1ED3E, 0x1EDFF); (0x1EE04, 0x1EE04);
   (0x1EE20, 0x1EE20); (0x1EE23, 0x1EE23); (0x1EE25, 0x1EE26); (0x1EE28, 0x1EE28);
   (0x1EE33, 0x1EE33); (0x1EE38, 0x1EE38); (0x1EE3A, 0x1EE3A); (0x1EE3C, 0x1EE41);
   (0x1EE43, 0x1EE46); (0x1EE48, 0x1EE48); (0x1EE4A, 0x1EE4A); (0x1EE4C, 0x1EE4C);
   (0x1EE50, 0x1EE50); (0x1EE53, 0x1EE53); (0x1EE55, 0x1EE56); (0x1EE58, 0x1EE58);
   (0x1EE5A, 0x1EE5A); (0x1EE5C, 0x1EE5C); (0x1EE5E, 0x1EE5E); (0x1EE60, 0x1EE60);
   (0x1EE63, 0x1EE63); (0x1EE65, 0x1EE66); (0x1EE6B, 0x1EE6B); (0x1EE73, 0x1EE73);
   (0x1EE78, 0x1EE78); (0x1EE7D, 0x1EE7D); (0x1EE7F, 0x1EE7F); (0x1EE8A, 0x1EE8A);
   (0x1EE9C, 0x1EEA0); (0x1EEA4, 0x1EEA4); (0x1EEAA, 0x1EEAA); (0x1EEBC, 0x1EEEF);
   (0x1EEF2, 0x1EFFF); (0x1F02C, 0x1F02F); (0x1F094, 0x1F09F); (0x1F0AF, 0x1F0B0);
   (0x1F0C0, 0x1F0C0); (0x1F0D0, 0x1F0D0); (0x1F0F6, 0x1F0FF); (0x1F1AE, 0x1F1E5);
   (0x1F203, 0x1F20F); (0x1F23C, 0x1F23F); (0x1F249, 0x1F24F); (0x1F252, 0x1F25F);
   (0x1F266, 0x1F2FF); (0x1F6D8, 0x1F6DC); (0x1F6ED, 0x1F6EF); (0x1F6FD, 0x1F6FF);
   (0x1F774, 0x1F77F); (0x1F7D9, 0x1F7DF); (0x1F7EC, 0x1F7EF); (0x1F7F1, 0x1F7FF);
   (0x1F80C, 0x1F80F); (0x1F848, 0x1F84F); (0x1F85A, 0x1F85F); (0x1F888, 0x1F88F);
   (0x1F8AE, 0x1F8AF); (0x1F8B2, 0x1F8FF); (0x1FA54, 0x1FA5F); (0x1FA6E, 0x1FA6F);
   (0x1FA75, 0x1FA77); (0x1FA7D, 0x1FA7F); (0x1FA87, 0x1FA8F); (0x1FAAD, 0x1FAAF);
   (0x1FABB, 0x1FABF); (0x1FAC6, 0x1FACF); (0x1FADA, 0x1FADF); (0x1FAE8, 0x1FAEF);
   (0x1FAF7, 0x1FAFF); (0x1FB93, 0x1FB93); (0x1FBCB, 0x1FBEF); (0x1FBFA, 0x1FFFF);
   (0x2A6E0, 0x2A6FF); (0x2B739, 0x2B73F); (0x2B81E, 0x2B81F); (0x2CEA2, 0x2CEAF);
   (0x2EBE1, 0x2F7FF); (0x2FA1E, 0x2FFFF); (0x3134B, 0xE00FF); (0xE01F0, 0x10FFFF)
  ]%N.

(** *** strip and slices *)

Fixpoint lstrip_chars (l : list string) : list string :=
  match l with
  | [] => []
  | ch :: l' => if py_isspace ch then lstrip_chars l' else l
  end.

Fixpoint rstrip_chars (l : list string) : list string :=
  match l with
  | [] => []
  | ch :: l' =>
      match rstrip_chars l' with
      | [] => if py_isspace ch then [] else [ch]
      | r => ch :: r
      end
  end.

(** [str.join] on the empty separator. *)
Fixpoint join (l : list string) : string :=
  match l with
  | [] => EmptyString
  | x :: l' => (x ++ join l')%string
  end.

(** [s.strip()] *)
Definition strip (s : string) : string :=
  join (rstrip_chars (lstrip_chars (chars s))).

(** [s.split(sep)] for a one-character ASCII separator. *)
Fixpoint split (sep : ascii) (s : string) : list string :=
  match s with
  | EmptyString => [EmptyString]
  | String c s' =>
      if Ascii.eqb c sep then EmptyString :: split sep s'
      else match split sep s' with
           | x :: xs => String c x :: xs
           | [] => [String c EmptyString]
           end
  end.

(** [s[:n]] *)
Definition slice_to (n : nat) (s : string) : string := join (firstn n (chars s)).

(** [s.endswith(suf)] *)
Definition endswith (s suf : string) : bool :=
  let n := String.length s in
  let m := String.length suf in
  (m <=? n)%nat && String.eqb (substring (n - m) m s) suf.

(** An exception instance: its class and [str(e)]. *)
Record exn : Type := Exn { exn_class : string; exn_str : string }.

(** *** repr *)

Definition hex_digit (n : N) : ascii :=
  match get (N.to_nat n) "0123456789abcdef" with
  | Some c => c
  | None => "0"%char
  end.

(** [n] in lower-case hexadecimal, [width] digits. *)
Fixpoint hex (width : nat) (n : N) : string :=
  match width with
  | O => EmptyString
  | S w => (hex w (n / 16) ++ String (hex_digit (n mod 16)) EmptyString)%string
  end.

Definition quote1 : ascii := "'"%char.
Definition quote2 : ascii := ascii_of_nat 34.
Definition backslash : ascii := ascii_of_nat 92.

(** [ch.isprintable()] *)
Definition py_isprintable (n : N) : bool :=
  if (n <? 128)%N then ((32 <=? n) && (n <? 127))%N
  else negb (existsb (fun r => ((fst r <=? n) && (n <=? snd r))%N) unprintable).

(** One character inside [repr(s)], for the quote [q] chosen. *)
Definition repr_char (q : ascii) (ch : string) : string :=
  match ord ch with
  | None => ch
  | Some n =>
      if (n =? N_of_ascii q)%N || (n =? 92)%N then String backslash ch
      else if (n =? 9)%N then String backslash "t"
      else if (n =? 10)%N then String backslash "n"
      else if (n =? 13)%N then String backslash "r"
      else if py_isprintable n then ch
      else if (n <? 256)%N then String backslash (String "x" (hex 2 n))
      else if (n <? 65536)%N then String backslash (String "u" (hex 4 n))
      else String backslash (String "U" (hex 8 n))
  end.

(** [repr(s)]: in single quotes, unless [s] has a single quote and no
    double quote. *)
Definition py_repr (s : string) : string :=
  let has (q : ascii) := existsb (Ascii.eqb q) (list_ascii_of_string s) in
  let q := if has quote1 && negb (has quote2) then quote2 else quote1 in
  String q (join (map (repr_char q) (chars s)) ++ String q EmptyString).

(** *** int *)

(** [Py_ISSPACE]: the whitespace of C. *)
Definition c_isspace (c : ascii) : bool :=
  let n := N_of_ascii c in (((9 <=? n) && (n <=? 13)) || (n =? 32))%N.

(** What [int] makes of a character before it parses: ASCII stays, any
    other whitespace is a space, any other decimal digit its ASCII digit,
    and anything else a question mark. *)
Definition to_ascii (ch : string) : ascii :=
  match ord ch with
  | Some n =>
      if (n <? 128)%N then ascii_of_N n
      else if py_isspace ch then " "%char
      else match decimal n with
           | Some d => ascii_of_N (48 + d)
           | None => "?"%char
           end
  | None => "?"%char
  end.

Definition digit_val (c : ascii) : option Z :=
  let n := nat_of_ascii c in
  if (48 <=? n)%nat && (n <=? 57)%nat then Some (Z.of_nat (n - 48)) else None.

Fixpoint skip_spaces (l : list ascii) : list ascii :=
  match l with
  | c :: l' => if c_isspace c then skip_spaces l' else l
  | [] => []
  end.

(** An optional sign: whether it is a minus, and what follows. *)
Definition skip_sign (l : list ascii) : bool * list ascii :=
  match l with
  | c :: l' =>
      if Ascii.eqb c "+" then (false, l')
      else if Ascii.eqb c "-" then (true, l')
      else (false, l)
  | [] => (false, [])
  end.

Definition starts_with_underscore (l : list ascii) : bool :=
  match l with
  | c :: _ => Ascii.eqb c "_"
  | [] => false
  end.

(** The run of digits and underscores at the front of [l]: [None] on two
    underscores in a row, else the value, the number of digits, whether
    the run ends in an underscore, and what follows. *)
Fixpoint scan_digits (acc : Z) (digits : N) (after_underscore : bool)
         (l : list ascii) : option (Z * N * bool * list ascii) :=
  match l with
  | c :: l' =>
      if Ascii.eqb c "_" then
        if after_underscore then None else scan_digits acc digits true l'
      else match digit_val c with
           | Some d => scan_digits (10 * acc + d) (N.succ digits) false l'
           | None => Some (acc, digits, after_underscore, l)
           end
  | [] => Some (acc, digits, after_underscore, [])
  end.

(** [sys.get_int_max_str_digits()], by default. *)
Definition max_str_digits : N := 4300.

Fixpoint N_digits (fuel : nat) (n : N) (acc : string) : string :=
  match fuel with
  | O => acc
  | S f =>
      let acc' := String (ascii_of_N (48 + n mod 10)) acc in
      if (n <? 10)%N then acc' else N_digits f (n / 10) acc'
  end.

(** [str(n)] *)
Definition str_N (n : N) : string := N_digits (S (N.size_nat n)) n EmptyString.

Definition invalid_literal (s : string) : exn :=
  Exn "ValueError"
    ("invalid literal for int() with base 10: " ++ slice_to 200 (py_repr s)).

Definition exceeds_limit (digits : N) : exn :=
  Exn "ValueError"
    ("Exceeds the limit (" ++ str_N max_str_digits
       ++ " digits) for integer string conversion: value has " ++ str_N digits
       ++ " digits; use sys.set_int_max_str_digits() to increase the limit").

(** [int(s)] on a [str]: surrounding whitespace, an optional sign, decimal
    digits with single underscores between them, at most 4300 digits
    (CPython 3.11 counts the digits before it looks at what follows
    them). *)
Definition py_int (s : string) : exn + Z :=
  let '(negative, l) := skip_sign (skip_spaces (map to_ascii (chars s))) in
  if starts_with_underscore l then inl (invalid_literal s)
  else
    match scan_digits 0 0 false l with
    | None => inl (invalid_literal s)
    | Some (z, digits, after_underscore, rest) =>
        if after_underscore then inl (invalid_literal s)
        else if (max_str_digits <? digits)%N then inl (exceeds_limit digits)
        else if (digits =? 0)%N then inl (invalid_literal s)
        else match skip_spaces rest with
             | [] => inr (if negative then (- z)%Z else z)
             | _ :: _ => inl (invalid_literal s)
             end
    end.

(** A value in a result row or a parameter tuple. *)
Inductive pyval : Type :=
| PInt (z : Z)
| PStr (s : string).

(** A row as [fetchone] returns it: its column values. *)
Definition Row : Type := list pyval.

(** [bool(row)] for what [fetchone] returns: [None] and the empty row are
    false. *)
Definition py_bool (r : option Row) : bool :=
  match r with
  | Some (_ :: _) => true
  | _ => false
  end.

(** ** The process environment and the migrations directory *)

(** [os.environ] *)
Definition Environ : Type := list (string * string).

(** [os.environ.get(key, default)] *)
Fixpoint environ_get (env : Environ) (key default : string) : string :=
  match env with
  | [] => default
  | (k, v) :: env' => if String.eqb k key then v else environ_get env' key default
  end.

(** The directory [migrations/] as the file system lists it: the names of
    its entries in listing order, each with what reading it as UTF-8 text
    gives: the text, or the exception [read_text] raises (the entry is a
    directory, is not UTF-8, may not be read). *)
Definition Directory : Type := list (string * (exn + string)).

(** [root.glob("*.sql")]: the names that end in [.sql], in listing order. *)
Definition glob_sql (dir : Directory) : list string :=
  filter (fun n => endswith n ".sql") (map fst dir).

(** [sorted]: paths of one directory compare by their names. *)
Fixpoint insert_sorted (x : string) (l : list string) : list string :=
  match l with
  | [] => [x]
  | y :: l' => if String.leb x y then x :: l else y :: insert_sorted x l'
  end.

Fixpoint sorted (l : list string) : list string :=
  match l with
  | [] => []
  | x :: l' => insert_sorted x (sorted l')
  end.

(** [load_migrations()] *)
Definition load_migrations (dir : Directory) : list string :=
  sorted (glob_sql dir).

(** [path.read_text(encoding="utf-8")] *)
Fixpoint read_text (dir : Directory) (name : string) : exn + string :=
  match dir with
  | [] => inl (Exn "FileNotFoundError" name)
  | (n, r) :: dir' => if String.eqb n name then r else read_text dir' name
  end.

(** The statements of a migration text:
    [[s.strip() for s in sql.split(";") if s.strip()]] *)
Definition statements (sql : string) : list string :=
  map strip (filter (fun s => negb (String.eqb (strip s) "")) (split ";" sql)).

(** ** Connection settings *)

Record Config : Type := {
  host : string;
  port : Z;
  user : string;
  password : string;
  database : string
}.

(** [mysql_config()]; [int] raises [ValueError] on a port that is not a
    number. *)
Definition mysql_config (env : Environ) : exn + Config :=
  match py_int (environ_get env "MYSQL_PORT" "3306") with
  | inl e => inl e
  | inr p =>
      inr {| host := environ_get env "MYSQL_HOST" "127.0.0.1";
             port := p;
             user := environ_get env "MYSQL_USER" "root";
             password := environ_get env "MYSQL_PASSWORD" "root@123";
             database := environ_get env "MYSQL_DB" "todolist" |}
  end.

(** ** The DB-API driver interface *)

(** The two drivers [connect_mysql] tries, in this order. *)
Inductive driver : Type := pymysql | mysql_connector.

(** What the runner asks of a driver, over a state [W] of the outside
    (driver modules, network, server).  Each operation returns the new
    outside state and either the exception it raises or its value.
    [connect d cfg true] passes [database=cfg["database"]], [connect d cfg
    false] leaves the keyword out; [execute k sql None] is
    [cur.execute(sql)], [execute k sql (Some ps)] is [cur.execute(sql, ps)]. *)
Class DBAPI (W Conn Cur : Type) : Type := {
  import_module : driver -> W -> W * (exn + unit);
  connect : driver -> Config -> bool -> W -> W * (exn + Conn);
  cursor : Conn -> W -> W * (exn + Cur);
  execute : Cur -> string -> option (list pyval) -> W -> W * (exn + unit);
  fetchone : Cur -> W -> W * (exn + option Row);
  commit : Conn -> W -> W * (exn + unit);
  close : Conn -> W -> W * (exn + unit)
}.

(** ** The runner *)

Section Runner.

Context {W Conn Cur : Type} {api : DBAPI W Conn Cur}.

(** [os.environ], the directory [migrations/] next to the script, and
    werkzeug's [generate_password_hash]. *)
Variable environ : Environ.
Variable migrations : Directory.
Variable generate_password_hash : string -> string.

(** A driver call, as the trace records it. *)
Inductive call : Type :=
| CImport (d : driver)
| CConnect (d : driver) (cfg : Config) (with_db : bool)
| CCursor (c : Conn)
| CExecute (k : Cur) (sql : string) (params : option (list pyval))
| CFetchone (k : Cur)
| CCommit (c : Conn)
| CClose (c : Conn).

(** A call with the exception it raised, if any. *)
Definition entry : Type := (call * option exn)%type.

(** The state a run threads: the outside, the driver calls made so far
    and the lines printed so far. *)
Record state : Type := {
  world : W;
  calls : list entry;
  stdout : list string
}.

(** A computation that may raise. *)
Definition M (A : Type) : Type := state -> state * (exn + A).

Definition ret {A} (a : A) : M A := fun s => (s, inr a).

Definition bind {A B} (m : M A) (k : A -> M B) : M B :=
  fun s =>
    let '(s1, r) := m s in
    match r with
    | inl e => (s1, inl e)
    | inr a => k a s1
    end.

(** [try: body  except Exception as e: handler e] *)
Definition try_except {A} (body : M A) (handler : exn -> M A) : M A :=
  fun s =>
    let '(s1, r) := body s in
    match r with
    | inl e => handler e s1
    | inr a => (s1, inr a)
    end.

(** A pure step that may raise. *)
Definition lift {A} (r : exn + A) : M A := fun s => (s, r).

Definition raised {A} (r : exn + A) : option exn :=
  match r with
  | inl e => Some e
  | inr _ => None
  end.

(** One driver call: run it on the outside and record it. *)
Definition perform {A} (c : call) (op : W -> W * (exn + A)) : M A :=
  fun s =>
    let '(w, r) := op (world s) in
    ({| world := w; calls := calls s ++ [(c, raised r)]; stdout := stdout s |}, r).

(** [print(line)] *)
Definition print (line : string) : M unit :=
  fun s =>
    ({| world := world s; calls := calls s; stdout := stdout s ++ [line] |}, inr tt).

(** [for x in l: body x] *)
Fixpoint for_each {A} (l : list A) (body : A -> M unit) : M unit :=
  match l with
  | [] => ret tt
  | x :: l' => bind (body x) (fun _ => for_each l' body)
  end.

Notation "x <- m ;; k" := (bind m (fun x => k))
  (at level 61, m at next level, right associativity).
Notation "m ;; k" := (bind m (fun _ => k))
  (at level 61, right associativity).

Definition import_ (d : driver) : M unit :=
  perform (CImport d) (import_module d).
Definition connect_ (d : driver) (cfg : Config) (with_db : bool) : M Conn :=
  perform (CConnect d cfg with_db) (connect d cfg with_db).
Definition cursor_ (c : Conn) : M Cur :=
  perform (CCursor c) (cursor c).
Definition execute_ (k : Cur) (sql : string) (params : option (list pyval)) : M unit :=
  perform (CExecute k sql params) (execute k sql params).
Definition fetchone_ (k : Cur) : M (option Row) :=
  perform (CFetchone k) (fetchone k).
Definition commit_ (c : Conn) : M unit :=
  perform (CCommit c) (commit c).
Definition close_ (c : Conn) : M unit :=
  perform (CClose c) (close c).

(** *** connect_mysql *)

Definition create_database_sql (cfg : Config) : string :=
  "CREATE DATABASE IF NOT EXISTS `" ++ database cfg
    ++ "` CHARACTER SET utf8mb4 COLLATE utf8mb4_unicode_ci".

(** One of the two [try] blocks of [connect_mysql], which differ in the
    module only ([pymysql] also passes its [DictCursor] class).  [Some c]
    is a [return c] inside the block; [None] is leaving the block, at its
    end or through [except Exception: pass]. *)
Definition connect_with (d : driver) (cfg : Config)
           (create_db_if_missing : bool) : M (option Conn) :=
  try_except
    (import_ d ;;
     try_except
       (c <- connect_ d cfg true ;; ret (Some c))
       (fun _ =>
          if create_db_if_missing then
            tmp <- connect_ d cfg false ;;
            cur <- cursor_ tmp ;;
            execute_ cur (create_database_sql cfg) None ;;
            commit_ tmp ;;
            close_ tmp ;;
            c <- connect_ d cfg true ;;
            ret (Some c)
          else ret None))
    (fun _ => ret None).

Definition connect_mysql (create_db_if_missing : bool) : M (option Conn) :=
  cfg <- lift (mysql_config environ) ;;
  r <- connect_with pymysql cfg create_db_if_missing ;;
  match r with
  | Some c => ret (Some c)
  | None => connect_with mysql_connector cfg create_db_if_missing
  end.

(** *** already_applied *)

Definition select_migration_sql : string :=
  "SELECT 1 FROM schema_migrations WHERE name=%s".

Definition already_applied (cur : Cur) (name : string) : M bool :=
  try_except
    (execute_ cur select_migration_sql (Some [PStr name]) ;;
     row <- fetchone_ cur ;;
     ret (py_bool row))
    (fun _ => ret false).

(** *** apply_migration *)

Definition insert_migration_sql : string :=
  "INSERT INTO schema_migrations (name) VALUES (%s)".

Definition statement_warning (name stmt : string) (e : exn) : string :=
  "Warning: failed statement in " ++ name ++ ": " ++ slice_to 80 stmt
    ++ "... (" ++ exn_str e ++ ")".

(** A path of the directory is the name of its file. *)
Definition apply_migration (conn : Conn) (path : string) : M unit :=
  cur <- cursor_ conn ;;
  sql <- lift (read_text migrations path) ;;
  for_each (statements sql)
    (fun stmt =>
       try_except (execute_ cur stmt None)
         (fun e => print (statement_warning path stmt e))) ;;
  execute_ cur insert_migration_sql (Some [PStr path]) ;;
  commit_ conn.

(** *** main *)

Definition create_table_sql : string :=
  "
        CREATE TABLE IF NOT EXISTS schema_migrations (
          id INT AUTO_INCREMENT PRIMARY KEY,
          name VARCHAR(255) NOT NULL UNIQUE,
          applied_at TIMESTAMP DEFAULT CURRENT_TIMESTAMP
        ) ENGINE=InnoDB DEFAULT CHARSET=utf8mb4;
        ".

Definition select_admin_sql : string :=
  "SELECT id FROM users WHERE username=%s".
Definition insert_admin_role_sql : string :=
  "INSERT INTO users (username, email, password_hash, role) VALUES (%s, %s, %s, %s)".
Definition insert_admin_sql : string :=
  "INSERT INTO users (username, email, password_hash) VALUES (%s, %s, %s)".

Definition connection_failed_line : string :=
  "Database connection failed. Check env and drivers.".
Definition skipping_line (name : string) : string :=
  "Skipping " ++ name ++ " (already applied)".
Definition applying_line (name : string) : string :=
  "Applying " ++ name ++ "…".
Definition complete_line : string := "Migrations complete.".
Definition admin_created_line : string :=
  "Admin user created: username=admin (use ADMIN_PASSWORD env to override default)".
Definition admin_warning (e : exn) : string :=
  "Warning: failed to ensure admin user: " ++ exn_str e.

(** Lines 108-118 of [main]: the cursor of the run and the tracking
    table. *)
Definition ensure_tracking_table (conn : Conn) : M Cur :=
  cur <- cursor_ conn ;;
  execute_ cur create_table_sql None ;;
  commit_ conn ;;
  ret cur.

(** The body of the loop of [main], lines 121-125. *)
Definition migrate_one (conn : Conn) (cur : Cur) (path : string) : M unit :=
  applied <- already_applied cur path ;;
  if applied then print (skipping_line path)
  else
    print (applying_line path) ;;
    apply_migration conn path.

(** Lines 128-148 of [main]: ensure the admin user exists. *)
Definition ensure_admin_user (conn : Conn) (cur : Cur) : M unit :=
  try_except
    (execute_ cur select_admin_sql (Some [PStr "admin"]) ;;
     exists_ <- fetchone_ cur ;;
     if negb (py_bool exists_) then
       let admin_password := environ_get environ "ADMIN_PASSWORD" "admin@123" in
       let admin_hash := generate_password_hash admin_password in
       try_except
         (execute_ cur insert_admin_role_sql
            (Some [PStr "admin"; PStr "admin@example.com"; PStr admin_hash; PStr "admin"]))
         (fun _ =>
            execute_ cur insert_admin_sql
              (Some [PStr "admin"; PStr "admin@example.com"; PStr admin_hash])) ;;
       commit_ conn ;;
       print admin_created_line
     else ret tt)
    (fun e => print (admin_warning e)).

Definition main : M unit :=
  conn <- connect_mysql true ;;
  match conn with
  | None => print connection_failed_line
  | Some conn =>
      cur <- ensure_tracking_table conn ;;
      for_each (load_migrations migrations) (migrate_one conn cur) ;;
      print complete_line ;;
      ensure_admin_user conn cur
  end.

End Runner.

Arguments call : clear implicits.
Arguments entry : clear implicits.
Arguments state : clear implicits.
Arguments M : clear implicits.

(** * The database helpers of the web application (src/main.py)

    [main.py] carries its own copies of [mysql_config] and [connect_mysql],
    the same text as in [migrate.py]; [connect_mysql] above stands for
    both.  What follows embeds the functions around them: [get_db] and
    [close_db], which keep one connection per request in [flask.g],
    [ensure_schema], and the block of [create_app] that calls it at
    startup. *)

(** ** Rows as [main.py] reads them *)

(** A row as [fetchone] hands it to [ensure_schema]: a dict from column
    names with [pymysql]'s [DictCursor], a tuple with [mysql.connector].
    A value is [None] for SQL [NULL]. *)
Inductive pyrow : Type :=
| RowDict (items : list (string * option pyval))
| RowTuple (items : list (option pyval)).

(** What [ensure_schema] asks of a driver beyond [DBAPI]: [execute] with a
    parameter that may be [None], and [fetchone] with the row as Python has
    it. *)
Class RowAPI (W Conn Cur : Type) : Type := {
  execute_params : Cur -> string -> list (option pyval) -> W -> W * (exn + unit);
  fetch_row : Cur -> W -> W * (exn + option pyrow)
}.

(** [d.get(key)] *)
Fixpoint dict_get (items : list (string * option pyval)) (key : string)
  : option pyval :=
  match items with
  | [] => None
  | (k, v) :: items' => if String.eqb k key then v else dict_get items' key
  end.

(** [row.get(key) if isinstance(row, dict) else row[0]] *)
Definition first_column (key : string) (row : option pyrow) : exn + option pyval :=
  match row with
  | None => inl (Exn "TypeError" "'NoneType' object is not subscriptable")
  | Some (RowDict items) => inr (dict_get items key)
  | Some (RowTuple []) => inl (Exn "IndexError" "tuple index out of range")
  | Some (RowTuple (v :: _)) => inr v
  end.

(** [row or default] *)
Definition row_or (row : option pyrow) (default : pyrow) : pyrow :=
  match row with
  | None | Some (RowDict []) | Some (RowTuple []) => default
  | Some r => r
  end.

(** [bool(v)] for a value of a row. *)
Definition truthy (v : option pyval) : bool :=
  match v with
  | None => false
  | Some (PInt z) => negb (Z.eqb z 0)
  | Some (PStr s) => negb (String.eqb s "")
  end.

(** The parameters that are not [None], as the trace records them. *)
Definition present (params : list (option pyval)) : list pyval :=
  flat_map (fun p => match p with Some v => [v] | None => [] end) params.

Section App.

Context {W Conn Cur : Type} {api : DBAPI W Conn Cur} {rows : RowAPI W Conn Cur}.

Variable environ : Environ.

Notation "x <- m ;; k" := (bind m (fun x => k))
  (at level 61, m at next level, right associativity).
Notation "m ;; k" := (bind m (fun _ => k))
  (at level 61, right associativity).

Definition execute_params_ (k : Cur) (sql : string) (params : list (option pyval))
  : M W Conn Cur unit :=
  perform (CExecute k sql (Some (present params))) (execute_params k sql params).
Definition fetch_row_ (k : Cur) : M W Conn Cur (option pyrow) :=
  perform (CFetchone k) (fetch_row k).

(** *** get_db and close_db *)

(** [flask.g] as these functions use it: the attribute [db_conn] is
    missing, is [None], or holds a connection. *)
Definition G : Type := option (option Conn).

(** [get_db()], from [g] to the connection it returns and [g] afterwards. *)
Definition get_db (g : G) : M W Conn Cur (option Conn * G) :=
  match g with
  | Some (Some c) => ret (Some c, g)
  | _ =>
      conn <- connect_mysql environ true ;;
      match conn with
      | Some c => ret (Some c, Some (Some c))
      | None => ret (None, g)
      end
  end.

(** [close_db(exception)] *)
Definition close_db (exception : option exn) (g : G) : M W Conn Cur unit :=
  match g with
  | Some (Some conn) => try_except (close_ conn) (fun _ => ret tt)
  | _ => ret tt
  end.

(** *** ensure_schema *)

Definition users_table_sql : string :=
  "
        CREATE TABLE IF NOT EXISTS users (
          id INT AUTO_INCREMENT PRIMARY KEY,
          username VARCHAR(64) NOT NULL UNIQUE,
          email VARCHAR(255) UNIQUE,
          password_hash VARCHAR(255) NOT NULL,
          role ENUM('user','admin','customer') NOT NULL DEFAULT 'customer',
          created_at TIMESTAMP DEFAULT CURRENT_TIMESTAMP
        ) ENGINE=InnoDB DEFAULT CHARSET=utf8mb4;
        ".

Definition select_database_sql : string := "SELECT DATABASE()".

Definition count_role_column_sql : string :=
  "SELECT COUNT(*) AS cnt FROM INFORMATION_SCHEMA.COLUMNS WHERE TABLE_SCHEMA=%s AND TABLE_NAME='users' AND COLUMN_NAME='role'".

Definition add_role_sql : string :=
  "ALTER TABLE users ADD COLUMN role ENUM('user','admin','customer') NOT NULL DEFAULT 'customer' AFTER password_hash".

Definition modify_role_sql : string :=
  "ALTER TABLE users MODIFY COLUMN role ENUM('user','admin','customer') NOT NULL DEFAULT 'customer'".

Definition tasks_table_sql : string :=
  "
        CREATE TABLE IF NOT EXISTS tasks (
          id INT AUTO_INCREMENT PRIMARY KEY,
          user_id INT NOT NULL,
          text VARCHAR(512) NOT NULL,
          completed TINYINT(1) NOT NULL DEFAULT 0,
          position INT DEFAULT 0,
          created_at TIMESTAMP DEFAULT CURRENT_TIMESTAMP,
          updated_at TIMESTAMP DEFAULT CURRENT_TIMESTAMP ON UPDATE CURRENT_TIMESTAMP,
          INDEX idx_tasks_user (user_id),
          FOREIGN KEY (user_id) REFERENCES users(id) ON DELETE CASCADE
        ) ENGINE=InnoDB DEFAULT CHARSET=utf8mb4;
        ".

Definition subtasks_table_sql : string :=
  "
        CREATE TABLE IF NOT EXISTS subtasks (
          id INT AUTO_INCREMENT PRIMARY KEY,
          task_id INT NOT NULL,
          text VARCHAR(512) NOT NULL,
          completed TINYINT(1) NOT NULL DEFAULT 0,
          position INT DEFAULT 0,
          created_at TIMESTAMP DEFAULT CURRENT_TIMESTAMP,
          updated_at TIMESTAMP DEFAULT CURRENT_TIMESTAMP ON UPDATE CURRENT_TIMESTAMP,
          INDEX idx_subtasks_task (task_id),
          FOREIGN KEY (task_id) REFERENCES tasks(id) ON DELETE CASCADE
        ) ENGINE=InnoDB DEFAULT CHARSET=utf8mb4;
        ".

(** Lines 662-683 of [ensure_schema]: make sure [users.role] exists and
    knows [customer]; whatever is raised in here is dropped. *)
Definition ensure_role_column (cur : Cur) : M W Conn Cur unit :=
  try_except
    (execute_ cur select_database_sql None ;;
     db_row <- fetch_row_ cur ;;
     db_name <- lift (first_column "DATABASE()" db_row) ;;
     execute_params_ cur count_role_column_sql [db_name] ;;
     fetched <- fetch_row_ cur ;;
     let cnt_row := row_or fetched (RowDict [("cnt", Some (PInt 0))]) in
     cnt <- lift (first_column "cnt" (Some cnt_row)) ;;
     if negb (truthy cnt) then execute_ cur add_role_sql None
     else try_except (execute_ cur modify_role_sql None) (fun _ => ret tt))
    (fun _ => ret tt).

(** [ensure_schema(conn)] *)
Definition ensure_schema (conn : Conn) : M W Conn Cur unit :=
  cur <- cursor_ conn ;;
  execute_ cur users_table_sql None ;;
  ensure_role_column cur ;;
  execute_ cur tasks_table_sql None ;;
  execute_ cur subtasks_table_sql None ;;
  commit_ conn.

(** Lines 16-23 of [create_app]: the schema is ensured when the
    application starts. *)
Definition startup_schema : M W Conn Cur unit :=
  try_except
    (conn <- connect_mysql environ true ;;
     match conn with
     | Some c => ensure_schema c ;; close_ c
     | None => ret tt
     end)
    (fun _ => ret tt).

End App.

Arguments G : clear implicits.

(** * Mail (src/main.py) *)

(** ** The settings *)

Record SmtpConfig : Type := {
  smtp_host : string;
  smtp_port : Z;
  smtp_user : string;
  smtp_password : string;
  from_email : string
}.

(** [smtp_config()]; [int] raises [ValueError] on a port that is not a
    number. *)
Definition smtp_config (env : Environ) : exn + SmtpConfig :=
  match py_int (environ_get env "SMTP_PORT" "587") with
  | inl e => inl e
  | inr p =>
      inr {| smtp_host := environ_get env "SMTP_HOST" "";
             smtp_port := p;
             smtp_user := environ_get env "SMTP_USER" "";
             smtp_password := environ_get env "SMTP_PASSWORD" "";
             from_email := environ_get env "FROM_EMAIL" "" |}
  end.

(** ** The mail interface *)

(** What [send_email] asks of [email.message] and [smtplib], over a state
    [W] of the outside.  [build_message subject sender recipient body] is
    the [EmailMessage] with these three headers and this content;
    [smtp_connect host port] is [smtplib.SMTP(host, port)]; [smtp_exit] is
    the [__exit__] of the session, which quits and closes. *)
Class SMTPAPI (W Server Msg : Type) : Type := {
  build_message : string -> string -> string -> string -> exn + Msg;
  smtp_connect : string -> Z -> W -> W * (exn + Server);
  starttls : Server -> W -> W * (exn + unit);
  login : Server -> string -> string -> W -> W * (exn + unit);
  send_message : Server -> Msg -> W -> W * (exn + unit);
  smtp_exit : Server -> W -> W * (exn + unit)
}.

Section Mail.

Context {W Server Msg : Type} {smtp : SMTPAPI W Server Msg}.

Variable environ : Environ.

(** A call to the mail library, as the trace records it. *)
Inductive mail_call : Type :=
| MConnect (host : string) (port : Z)
| MStartTLS (srv : Server)
| MLogin (srv : Server) (user password : string)
| MSend (srv : Server) (msg : Msg)
| MExit (srv : Server).

(** The state a delivery threads: the outside and the calls so far. *)
Record mail_state : Type := {
  outside : W;
  mail_calls : list (mail_call * option exn)
}.

(** A computation that may raise. *)
Definition Mail (A : Type) : Type := mail_state -> mail_state * (exn + A).

Definition mail_ret {A} (a : A) : Mail A := fun s => (s, inr a).

Definition mail_raise {A} (e : exn) : Mail A := fun s => (s, inl e).

Definition mail_bind {A B} (m : Mail A) (k : A -> Mail B) : Mail B :=
  fun s =>
    let '(s1, r) := m s in
    match r with
    | inl e => (s1, inl e)
    | inr a => k a s1
    end.

Definition mail_lift {A} (r : exn + A) : Mail A := fun s => (s, r).

(** One call: run it on the outside and record it. *)
Definition mail_perform {A} (c : mail_call) (op : W -> W * (exn + A)) : Mail A :=
  fun s =>
    let '(w, r) := op (outside s) in
    ({| outside := w; mail_calls := mail_calls s ++ [(c, raised r)] |}, r).

(** [with server: body], for a session that is open: [__exit__] runs
    whether the body raises or not; what it raises replaces the outcome of
    the body. *)
Definition with_session {A} (srv : Server) (body : Mail A) : Mail A :=
  fun s =>
    let '(s1, r) := body s in
    let '(s2, x) := mail_perform (MExit srv) (smtp_exit srv) s1 in
    match x with
    | inl e => (s2, inl e)
    | inr _ => (s2, r)
    end.

Notation "x <- m ;; k" := (mail_bind m (fun x => k))
  (at level 61, m at next level, right associativity).
Notation "m ;; k" := (mail_bind m (fun _ => k))
  (at level 61, right associativity).

(** [send_email(to_email, subject, body)] *)
Definition send_email (to_email subject body : string) : Mail unit :=
  cfg <- mail_lift (smtp_config environ) ;;
  if String.eqb (smtp_host cfg) "" || String.eqb (from_email cfg) "" then
    mail_raise (Exn "RuntimeError" "smtp_not_configured")
  else
    msg <- mail_lift (build_message subject (from_email cfg) to_email body) ;;
    server <- mail_perform (MConnect (smtp_host cfg) (smtp_port cfg))
                (smtp_connect (smtp_host cfg) (smtp_port cfg)) ;;
    with_session server
      (mail_perform (MStartTLS server) (starttls server) ;;
       (if negb (String.eqb (smtp_user cfg) "") then
          mail_perform (MLogin server (smtp_user cfg) (smtp_password cfg))
            (login server (smtp_user cfg) (smtp_password cfg))
        else mail_ret tt) ;;
       mail_perform (MSend server msg) (send_message server msg)).

End Mail.

Arguments mail_call : clear implicits.
Arguments mail_state : clear implicits.
Arguments Mail : clear implicits.

(** ** A reference MySQL server *)

(** The server the runner is meant for, as an instance of [DBAPI]: one
    configured database holding the tracking table, the [users] table and
    any other tables.  Statements take effect when executed and [commit] is
    accepted on an open connection; a cursor can be had from any connection,
    as with pymysql, and executing through a closed connection raises.  The
    runner's own statements are told by their text and parameters; what a
    statement of a migration file does, to any part of the database, is the
    parameter [sem]: [None] when the server rejects the statement. *)
Module Ref.

Record User : Type := {
  uid : Z;
  username : string;
  email : string;
  password_hash : string;
  role : option string       (* [None]: the column default, if any *)
}.

Record DB : Type := {
  schema_migrations : option (list string);  (* the recorded names; [None]: no table *)
  users : option (list User);                (* [None]: no table *)
  role_domain : option (list string);        (* values of [users.role]; [None]: no column *)
  tables : list (string * list Row)          (* every other table *)
}.

Definition empty_db : DB :=
  {| schema_migrations := None; users := None; role_domain := None; tables := [] |}.

Record Conn : Type := { conn_id : nat; conn_db : bool }.
Record Cur : Type := { cur_conn : Conn; cur_id : nat }.

Record World : Type := {
  has_pymysql : bool;          (* [import pymysql] succeeds *)
  has_mysql_connector : bool;  (* [import mysql.connector] succeeds *)
  reachable : bool;            (* the server answers and accepts the credentials *)
  db_access : bool;            (* the account may use the configured database *)
  may_create : bool;           (* the account may create databases *)
  db : option DB;              (* the configured database, when it exists *)
  open_conns : list nat;       (* the connections that are open *)
  next_handle : nat;
  results : list (nat * list Row)  (* the rows pending on each cursor *)
}.

Definition installed (d : driver) (w : World) : bool :=
  match d with
  | pymysql => has_pymysql w
  | mysql_connector => has_mysql_connector w
  end.

Definition set_db (w : World) (d : option DB) : World :=
  {| has_pymysql := has_pymysql w; has_mysql_connector := has_mysql_connector w;
     reachable := reachable w; db_access := db_access w; may_create := may_create w;
     db := d; open_conns := open_conns w; next_handle := next_handle w;
     results := results w |}.

Definition set_results (w : World) (rs : list (nat * list Row)) : World :=
  {| has_pymysql := has_pymysql w; has_mysql_connector := has_mysql_connector w;
     reachable := reachable w; db_access := db_access w; may_create := may_create w;
     db := db w; open_conns := open_conns w; next_handle := next_handle w;
     results := rs |}.

Definition set_conns (w : World) (cs : list nat) (n : nat) : World :=
  {| has_pymysql := has_pymysql w; has_mysql_connector := has_mysql_connector w;
     reachable := reachable w; db_access := db_access w; may_create := may_create w;
     db := db w; open_conns := cs; next_handle := n;
     results := results w |}.

Definition mem (x : string) (l : list string) : bool :=
  existsb (String.eqb x) l.

Definition is_open (c : Conn) (w : World) : bool :=
  existsb (Nat.eqb (conn_id c)) (open_conns w).

Definition put_rows (k : nat) (rows : list Row) (rs : list (nat * list Row))
  : list (nat * list Row) :=
  (k, rows) :: filter (fun p => negb (Nat.eqb (fst p) k)) rs.

Fixpoint get_rows (k : nat) (rs : list (nat * list Row)) : list Row :=
  match rs with
  | [] => []
  | (k', rows) :: rs' => if Nat.eqb k' k then rows else get_rows k rs'
  end.

Definition with_migrations (d : DB) (l : option (list string)) : DB :=
  {| schema_migrations := l; users := users d; role_domain := role_domain d;
     tables := tables d |}.

Definition with_users (d : DB) (us : option (list User)) : DB :=
  {| schema_migrations := schema_migrations d; users := us;
     role_domain := role_domain d; tables := tables d |}.

Definition no_table (t : string) : exn :=
  Exn "ProgrammingError" ("Table '" ++ t ++ "' doesn't exist").
Definition duplicate (v : string) : exn :=
  Exn "IntegrityError" ("Duplicate entry '" ++ v ++ "'").

(** [INSERT INTO users]: [username] and [email] are unique; a [role]
    outside the column's values, or without the column, is refused. *)
Definition insert_user (d : DB) (u e h : string) (r : option string)
  : exn + DB :=
  match users d with
  | None => inl (no_table "users")
  | Some us =>
      let role_ok :=
        match r with
        | None => true
        | Some v => match role_domain d with
                    | Some dom => mem v dom
                    | None => false
                    end
        end in
      if negb role_ok then inl (Exn "DataError" "role")
      else if mem u (map username us) then inl (duplicate u)
      else if mem e (map email us) then inl (duplicate e)
      else inr (with_users d
                  (Some (us ++ [{| uid := Z.of_nat (S (List.length us));
                                   username := u; email := e;
                                   password_hash := h; role := r |}])))
  end.

Section Server.

Variable sem : string -> DB -> option DB.

(** One statement on the selected database: the new database and the
    rows of the result. *)
Definition run_statement (sql : string) (params : option (list pyval)) (d : DB)
  : exn + (DB * list Row) :=
  match params with
  | None =>
      if String.eqb sql create_table_sql then
        match schema_migrations d with
        | None => inr (with_migrations d (Some []), [])
        | Some _ => inr (d, [])
        end
      else
        match sem sql d with
        | Some d' => inr (d', [])
        | None => inl (Exn "ProgrammingError" sql)
        end
  | Some [PStr n] =>
      if String.eqb sql select_migration_sql then
        match schema_migrations d with
        | None => inl (no_table "schema_migrations")
        | Some l => inr (d, if mem n l then [[PInt 1]] else [])
        end
      else if String.eqb sql insert_migration_sql then
        match schema_migrations d with
        | None => inl (no_table "schema_migrations")
        | Some l =>
            if mem n l then inl (duplicate n)
            else inr (with_migrations d (Some (l ++ [n])), [])
        end
      else if String.eqb sql select_admin_sql then
        match users d with
        | None => inl (no_table "users")
        | Some us =>
            inr (d, map (fun u => [PInt (uid u)])
                      (filter (fun u => String.eqb (username u) n) us))
        end
      else inl (Exn "ProgrammingError" sql)
  | Some [PStr u; PStr e; PStr h; PStr r] =>
      if String.eqb sql insert_admin_role_sql then
        match insert_user d u e h (Some r) with
        | inl x => inl x
        | inr d' => inr (d', [])
        end
      else inl (Exn "ProgrammingError" sql)
  | Some [PStr u; PStr e; PStr h] =>
      if String.eqb sql insert_admin_sql then
        match insert_user d u e h None with
        | inl x => inl x
        | inr d' => inr (d', [])
        end
      else inl (Exn "ProgrammingError" sql)
  | Some _ => inl (Exn "ProgrammingError" sql)
  end.

Definition ref_import (d : driver) (w : World) : World * (exn + unit) :=
  if installed d w then (w, inr tt)
  else (w, inl (Exn "ModuleNotFoundError" "No module"))%string.

Definition ref_connect (d : driver) (cfg : Config) (with_db : bool) (w : World)
  : World * (exn + Conn) :=
  if reachable w
     && (negb with_db || (db_access w && match db w with Some _ => true | None => false end))
  then (set_conns w (next_handle w :: open_conns w) (S (next_handle w)),
        inr {| conn_id := next_handle w; conn_db := with_db |})
  else (w, inl (Exn "OperationalError" "cannot connect")).

Definition ref_cursor (c : Conn) (w : World) : World * (exn + Cur) :=
  (set_conns w (open_conns w) (S (next_handle w)),
   inr {| cur_conn := c; cur_id := next_handle w |}).

Definition ref_execute (k : Cur) (sql : string) (params : option (list pyval))
           (w : World) : World * (exn + unit) :=
  if negb (is_open (cur_conn k) w) then (w, inl (Exn "InterfaceError" "closed"))
  else if String.prefix "CREATE DATABASE IF NOT EXISTS " sql then
    if may_create w then
      (set_db w (match db w with Some d => Some d | None => Some empty_db end), inr tt)
    else (w, inl (Exn "OperationalError" "access denied"))
  else if negb (conn_db (cur_conn k)) then
    (w, inl (Exn "OperationalError" "No database selected"))
  else
    match db w with
    | None => (w, inl (Exn "OperationalError" "Unknown database"))
    | Some d =>
        match run_statement sql params d with
        | inl x => (w, inl x)
        | inr (d', rows) =>
            (set_results (set_db w (Some d')) (put_rows (cur_id k) rows (results w)),
             inr tt)
        end
    end.

Definition ref_fetchone (k : Cur) (w : World) : World * (exn + option Row) :=
  match get_rows (cur_id k) (results w) with
  | [] => (w, inr None)
  | row :: rows => (set_results w (put_rows (cur_id k) rows (results w)), inr (Some row))
  end.

Definition ref_commit (c : Conn) (w : World) : World * (exn + unit) :=
  if is_open c w then (w, inr tt)
  else (w, inl (Exn "InterfaceError" "closed")).

Definition ref_close (c : Conn) (w : World) : World * (exn + unit) :=
  if is_open c w then
    (set_conns w (filter (fun n => negb (Nat.eqb n (conn_id c))) (open_conns w))
       (next_handle w), inr tt)
  else (w, inl (Exn "Error" "Already closed")).

Definition server : DBAPI World Conn Cur := {|
  import_module := ref_import;
  connect := ref_connect;
  cursor := ref_cursor;
  execute := ref_execute;
  fetchone := ref_fetchone;
  commit := ref_commit;
  close := ref_close
|}.



End Server.

(** The names the tracking table records, when there is one. *)
Definition tracked (w : World) : option (list string) :=
  match db w with
  | Some d => schema_migrations d
  | None => None
  end.

(** The rows of [users] with the reserved name. *)
Definition admin_rows (w : World) : list User :=
  match db w with
  | Some d =>
      match users d with
      | Some us => filter (fun u => String.eqb (username u) "admin") us
      | None => []
      end
  | None => []
  end.

(** The [UNIQUE] constraint on [users.username] holds. *)
Definition unique_usernames (w : World) : Prop :=
  match db w with
  | Some d =>
      match users d with
      | Some us => NoDup (map username us)
      | None => True
      end
  | None => True
  end.

(** A process starts with nothing called and nothing printed; the server
    is as the last process left it. *)
Definition start (w : World) : state World Conn Cur :=
  {| world := w; calls := []; stdout := [] |}.

End Ref.

(** * Properties *)

(** ** The order of names *)







Lemma insert_sorted_perm (x : string) (l : list string) :
  Permutation (insert_sorted x l) (x :: l).
Proof.
  induction l as [|y l IH]; simpl; [reflexivity|].
  destruct (String.leb x y); [reflexivity|].
  rewrite IH. apply perm_swap.
Qed.

Lemma sorted_perm (l : list string) : Permutation (sorted l) l.
Proof.
  induction l as [|x l IH]; simpl; [reflexivity|].
  rewrite insert_sorted_perm. now apply perm_skip.
Qed.






Lemma load_migrations_perm (dir : Directory) :
  Permutation (load_migrations dir) (glob_sql dir).
Proof. apply sorted_perm. Qed.






(** ** Facts that hold for every driver *)

(** The unit lines of the operator console. *)
Definition is_unit_line (line : string) : bool :=
  String.prefix "Skipping " line || String.prefix "Applying " line.


(** The warnings [apply_migration] prints for the statements that raised. *)
Definition warnings (name : string) (l : list (string * option exn)) : list string :=
  flat_map (fun p => match snd p with
                     | Some e => [statement_warning name (fst p) e]
                     | None => []
                     end) l.

Section RunnerFacts.

Context {W Conn Cur : Type} {api : DBAPI W Conn Cur}.
Variable environ : Environ.
Variable migrations : Directory.
Variable generate_password_hash : string -> string.

Abbreviation state := (state W Conn Cur).
Abbreviation M := (M W Conn Cur).
Abbreviation apply_migration := (apply_migration migrations).
Abbreviation migrate_one := (migrate_one migrations).
Abbreviation connect_mysql := (connect_mysql environ).
Abbreviation ensure_admin_user := (ensure_admin_user environ generate_password_hash).
Abbreviation main := (main environ migrations generate_password_hash).

(** [s'] continues [s] with the calls [t] and the lines [o]. *)
Definition extends (s s' : state) (t : list (entry Conn Cur)) (o : list string) : Prop :=
  calls s' = calls s ++ t /\ stdout s' = stdout s ++ o.

Lemma extends_refl (s : state) : extends s s [] [].
Proof. split; now rewrite app_nil_r. Qed.

Lemma extends_trans (s1 s2 s3 : state) t1 o1 t2 o2 :
  extends s1 s2 t1 o1 -> extends s2 s3 t2 o2 -> extends s1 s3 (t1 ++ t2) (o1 ++ o2).
Proof.
  intros [Hc1 Ho1] [Hc2 Ho2]. split.
  - now rewrite Hc2, Hc1, app_assoc.
  - now rewrite Ho2, Ho1, app_assoc.
Qed.

Lemma perform_extends {A} (c : call Conn Cur) (op : W -> W * (exn + A)) (s : state) :
  extends s (fst (perform c op s)) [(c, raised (snd (op (world s))))] []
  /\ snd (perform c op s) = snd (op (world s))
  /\ world (fst (perform c op s)) = fst (op (world s)).
Proof.
  unfold perform, extends. destruct (op (world s)) as [w r]; simpl.
  now rewrite app_nil_r.
Qed.

Lemma print_extends (line : string) (s : state) :
  extends s (fst (print line s)) [] [line] /\ snd (print line s) = inr tt
  /\ world (fst (print line s)) = world s.
Proof. unfold print, extends; simpl. now rewrite app_nil_r. Qed.

(** *** The statements of one unit *)

Definition statement_step (k : Cur) (path stmt : string) : M unit :=
  try_except (execute_ k stmt None)
    (fun e => print (statement_warning path stmt e)).

Lemma statement_step_spec (k : Cur) (path stmt : string) (s : state) :
  exists s' x,
    statement_step k path stmt s = (s', inr tt)
    /\ x = raised (snd (execute k stmt None (world s)))
    /\ world s' = fst (execute k stmt None (world s))
    /\ extends s s' [(CExecute k stmt None, x)] (warnings path [(stmt, x)]).
Proof.
  unfold statement_step, try_except, execute_, perform, print, extends, warnings.
  destruct (execute k stmt None (world s)) as [w [e|[]]]; simpl;
    eexists; eexists; (split; [reflexivity|]); (split; [reflexivity|]);
    simpl; rewrite ?app_nil_r; auto.
Qed.

Lemma warnings_app (name : string) (l1 l2 : list (string * option exn)) :
  warnings name (l1 ++ l2) = warnings name l1 ++ warnings name l2.
Proof. unfold warnings. apply flat_map_app. Qed.

(** Every statement is executed, in order, whatever the earlier ones
    did; the loop itself never raises. *)
Lemma statements_loop_spec (k : Cur) (path : string) (l : list string) (s : state) :
  exists s' xs,
    for_each l (statement_step k path) s = (s', inr tt)
    /\ List.length xs = List.length l
    /\ extends s s' (combine (map (fun q => CExecute k q None) l) xs)
         (warnings path (combine l xs)).
Proof.
  revert s. induction l as [|q l IH]; intros s.
  - exists s, []. repeat split; simpl; now rewrite ?app_nil_r.
  - destruct (statement_step_spec k path q s) as (s1 & x & E1 & _ & _ & X1).
    destruct (IH s1) as (s2 & xs & E2 & Hlen & X2).
    exists s2, (x :: xs). split; [|split].
    + simpl. unfold bind at 1. now rewrite E1.
    + simpl. now rewrite Hlen.
    + simpl combine.
      change ((q, x) :: combine l xs) with ([(q, x)] ++ combine l xs).
      rewrite warnings_app. exact (extends_trans _ _ _ _ _ _ _ X1 X2).
Qed.

(** *** apply_migration *)

(** The calls of [apply_migration] once its cursor is open: every
    statement of the file in order, with any outcomes [xs]; then the
    record [INSERT]; then, if that went through, the commit. *)
Lemma apply_migration_spec (conn : Conn) (path text : string) (s : state)
      (w1 : W) (k : Cur) :
  read_text migrations path = inr text ->
  cursor conn (world s) = (w1, inr k) ->
  exists s' r xs x tail,
    apply_migration conn path s = (s', r)
    /\ List.length xs = List.length (statements text)
    /\ extends s s'
         ((CCursor conn, None)
            :: combine (map (fun q => CExecute k q None) (statements text)) xs
            ++ (CExecute k insert_migration_sql (Some [PStr path]), x) :: tail)
         (warnings path (combine (statements text) xs))
    /\ match x with
       | Some e => tail = [] /\ r = inl e
       | None =>
           exists y, tail = [(CCommit conn, y)]
                     /\ r = match y with Some e => inl e | None => inr tt end
       end.
Proof.
  intros Htext Hcur.
  unfold apply_migration, bind at 1, cursor_, perform. rewrite Hcur.
  unfold bind at 1, lift. rewrite Htext.
  set (s0 := {| world := w1; calls := calls s ++ [(CCursor conn, raised (inr k))];
                stdout := stdout s |}).
  assert (X0 : extends s s0 [(CCursor conn, None)] []).
  { split; simpl; [reflexivity | now rewrite app_nil_r]. }
  destruct (statements_loop_spec k path (statements text) s0)
    as (s1 & xs & E1 & Hlen & X1).
  unfold statement_step in E1. unfold bind at 1. rewrite E1.
  pose proof (extends_trans _ _ _ _ _ _ _ X0 X1) as X01.
  unfold bind at 1, execute_, perform.
  destruct (execute k insert_migration_sql (Some [PStr path]) (world s1))
    as [w2 [e|[]]] eqn:Eins.
  - exists {| world := w2;
              calls := calls s1 ++ [(CExecute k insert_migration_sql (Some [PStr path]),
                                     Some e)];
              stdout := stdout s1 |}, (inl e), xs, (Some e), [].
    repeat split; try assumption; simpl.
    + destruct X01 as [-> _]. now rewrite <- app_assoc.
    + now destruct X01 as [_ ->].
  - unfold commit_, perform; simpl.
    destruct (commit conn w2) as [w3 y] eqn:Ecommit.
    exists {| world := w3;
              calls := (calls s1 ++ [(CExecute k insert_migration_sql (Some [PStr path]),
                                      None)]) ++ [(CCommit conn, raised y)];
              stdout := stdout s1 |}, y, xs, None, [(CCommit conn, raised y)].
    repeat split; try assumption; simpl.
    + destruct X01 as [-> _]. now rewrite <- !app_assoc.
    + now destruct X01 as [_ ->].
    + exists (raised y). split; [reflexivity|]. now destruct y as [e|[]].
Qed.

(** *** already_applied *)

(** The lookup never raises; it answers [bool(row)] when both calls go
    through and [False] when either raises. *)
Lemma already_applied_spec (k : Cur) (name : string) (s : state) :
  exists s' b,
    already_applied k name s = (s', inr b)
    /\ stdout s' = stdout s
    /\ (forall e, snd (execute k select_migration_sql (Some [PStr name]) (world s))
                  = inl e -> b = false)
    /\ (forall w1 u, execute k select_migration_sql (Some [PStr name]) (world s)
                     = (w1, inr u) ->
                     match snd (fetchone k w1) with
                     | inl _ => b = false
                     | inr row => b = py_bool row
                     end).
Proof.
  unfold already_applied, try_except, bind, execute_, fetchone_, perform, ret.
  destruct (execute k select_migration_sql (Some [PStr name]) (world s))
    as [w1 [e|u]] eqn:Eexec; simpl.
  - eexists; eexists; split; [reflexivity|]. simpl. repeat split; auto. discriminate.
  - destruct (fetchone k w1) as [w2 [e|row]] eqn:Efetch; simpl;
      (eexists; eexists; split; [reflexivity|]); simpl;
      (split; [reflexivity|]); (split; [discriminate|]);
      intros w1' u' Heq; inversion Heq; subst; now rewrite Efetch.
Qed.

(** *** What a computation may call and print *)

(** Every call [m] adds satisfies [P], every line it prints satisfies
    [Q], from any state and whether it raises or not. *)
Definition grows {A} (P : entry Conn Cur -> Prop) (Q : string -> Prop) (m : M A)
  : Prop :=
  forall s, exists t o, extends s (fst (m s)) t o /\ Forall P t /\ Forall Q o.

Lemma grows_ret {A} P Q (a : A) : grows P Q (ret a).
Proof. intros s. exists [], []. split; [apply extends_refl | split; constructor]. Qed.

Lemma grows_lift {A} P Q (r : exn + A) : grows P Q (lift r).
Proof. intros s. exists [], []. split; [apply extends_refl | split; constructor]. Qed.

Lemma grows_print (P : entry Conn Cur -> Prop) (Q : string -> Prop) (line : string) :
  Q line -> grows P Q (print line).
Proof.
  intros HQ s. exists [], [line].
  split; [apply print_extends | split; repeat constructor; exact HQ].
Qed.

Lemma grows_perform {A} (P : entry Conn Cur -> Prop) Q (c : call Conn Cur)
      (op : W -> W * (exn + A)) :
  (forall x, P (c, x)) -> grows P Q (perform c op).
Proof.
  intros HP s. exists [(c, raised (snd (op (world s))))], [].
  split; [apply perform_extends | split; repeat constructor; apply HP].
Qed.

Lemma grows_bind {A B} P Q (m : M A) (k : A -> M B) :
  grows P Q m -> (forall a, grows P Q (k a)) -> grows P Q (bind m k).
Proof.
  intros Hm Hk s. unfold bind.
  destruct (Hm s) as (t1 & o1 & X1 & P1 & Q1).
  destruct (m s) as [s1 [e|a]]; simpl in *.
  - now exists t1, o1.
  - destruct (Hk a s1) as (t2 & o2 & X2 & P2 & Q2).
    exists (t1 ++ t2), (o1 ++ o2).
    split; [eapply extends_trans; eassumption | split; now apply Forall_app].
Qed.

Lemma grows_try {A} P Q (m : M A) (h : exn -> M A) :
  grows P Q m -> (forall e, grows P Q (h e)) -> grows P Q (try_except m h).
Proof.
  intros Hm Hh s. unfold try_except.
  destruct (Hm s) as (t1 & o1 & X1 & P1 & Q1).
  destruct (m s) as [s1 [e|a]]; simpl in *.
  - destruct (Hh e s1) as (t2 & o2 & X2 & P2 & Q2).
    exists (t1 ++ t2), (o1 ++ o2).
    split; [eapply extends_trans; eassumption | split; now apply Forall_app].
  - now exists t1, o1.
Qed.

Lemma grows_for_each {A} P Q (l : list A) (body : A -> M unit) :
  (forall x, grows P Q (body x)) -> grows P Q (for_each l body).
Proof.
  intros Hb. induction l as [|x l IH]; simpl.
  - apply grows_ret.
  - apply grows_bind; [apply Hb | intros _; exact IH].
Qed.

Lemma grows_if {A} P Q (b : bool) (m1 m2 : M A) :
  grows P Q m1 -> grows P Q m2 -> grows P Q (if b then m1 else m2).
Proof. now destruct b. Qed.

(** The calls made on an established connection: no import, no connect
    and no close. *)
Definition session_call (e : entry Conn Cur) : Prop :=
  match fst e with
  | CImport _ | CConnect _ _ _ | CClose _ => False
  | _ => True
  end.

Definition any_line (line : string) : Prop := True.
Definition not_unit_line (line : string) : Prop := is_unit_line line = false.

Ltac grow :=
  repeat first
    [ apply grows_ret | apply grows_lift
    | apply grows_bind; [|intros ?] | apply grows_try; [|intros ?]
    | apply grows_for_each; intros ? | apply grows_if
    | apply grows_perform; intros ?; exact I
    | apply grows_print ].

Lemma statement_warning_not_unit (name stmt : string) (e : exn) :
  not_unit_line (statement_warning name stmt e).
Proof. reflexivity. Qed.


Lemma migrate_one_grows (conn : Conn) (k : Cur) (path : string) :
  grows session_call (fun line => line <> complete_line) (migrate_one conn k path).
Proof.
  unfold migrate_one, already_applied, apply_migration,
    cursor_, execute_, fetchone_, commit_.
  grow; discriminate.
Qed.

Lemma ensure_tracking_table_grows (conn : Conn) :
  grows session_call (fun _ => False) (ensure_tracking_table conn).
Proof. unfold ensure_tracking_table, cursor_, execute_, commit_. grow. Qed.


(** *** The unit lines of the loop *)





(** *** The loop, call by call *)


(** What [apply_migration] calls and prints for the unit [n], and how it
    ends: no cursor; a cursor and a file that cannot be read; or a cursor
    [k], every statement of the file through [k], in order, each with its
    own outcome and its warning when it raised, then the record [INSERT] of
    [n], then the commit when the [INSERT] went through. *)
Inductive applied (conn : Conn) (n : string)
  : list (entry Conn Cur) -> list string -> exn + unit -> Prop :=
| applied_no_cursor (e : exn) :
    applied conn n [(CCursor conn, Some e)] [] (inl e)
| applied_unreadable (e : exn) :
    read_text migrations n = inl e ->
    applied conn n [(CCursor conn, None)] [] (inl e)
| applied_unrecorded (k : Cur) (text : string) (xs : list (option exn)) (e : exn) :
    read_text migrations n = inr text ->
    List.length xs = List.length (statements text) ->
    applied conn n
      ((CCursor conn, None)
         :: combine (map (fun q => CExecute k q None) (statements text)) xs
         ++ [(CExecute k insert_migration_sql (Some [PStr n]), Some e)])
      (warnings n (combine (statements text) xs))
      (inl e)
| applied_recorded (k : Cur) (text : string) (xs : list (option exn))
                   (y : option exn) :
    read_text migrations n = inr text ->
    List.length xs = List.length (statements text) ->
    applied conn n
      ((CCursor conn, None)
         :: combine (map (fun q => CExecute k q None) (statements text)) xs
         ++ [(CExecute k insert_migration_sql (Some [PStr n]), None);
             (CCommit conn, y)])
      (warnings n (combine (statements text) xs))
      (match y with Some e => inl e | None => inr tt end).







(** *** ensure_admin_user *)

Definition admin_role_params : option (list pyval) :=
  Some [PStr "admin"; PStr "admin@example.com";
        PStr (generate_password_hash (environ_get environ "ADMIN_PASSWORD" "admin@123"));
        PStr "admin"].

Definition admin_params : option (list pyval) :=
  Some [PStr "admin"; PStr "admin@example.com";
        PStr (generate_password_hash (environ_get environ "ADMIN_PASSWORD" "admin@123"))].

(** The seeding step never raises.  It ends on a call: when that call
    raised, the step printed the warning with its error; when it went
    through, the step printed the confirmation or nothing. *)
Lemma ensure_admin_user_spec (conn : Conn) (k : Cur) (s : state) :
  exists s' t c x o,
    ensure_admin_user conn k s = (s', inr tt)
    /\ extends s s' (t ++ [(c, x)]) o
    /\ match x with
       | Some e => o = [admin_warning e]
       | None => o = [] \/ o = [admin_created_line]
       end.
Proof.
  unfold ensure_admin_user, try_except, bind, execute_, fetchone_, commit_,
    perform, print, ret, extends.
  destruct (execute k select_admin_sql (Some [PStr "admin"]) (world s))
    as [w1 [e|u]]; simpl.
  { eexists. exists [], (CExecute k select_admin_sql (Some [PStr "admin"])), (Some e).
    eexists. split; [reflexivity|]. simpl. auto. }
  destruct (fetchone k w1) as [w2 [e|row]]; simpl.
  { eexists. exists [(CExecute k select_admin_sql (Some [PStr "admin"]), None)].
    exists (CFetchone k), (Some e). eexists. split; [reflexivity|]. simpl.
    rewrite <- app_assoc. auto. }
  destruct (py_bool row); simpl.
  { eexists. exists [(CExecute k select_admin_sql (Some [PStr "admin"]), None)].
    exists (CFetchone k), None. exists []. split; [reflexivity|]. simpl.
    rewrite <- app_assoc, app_nil_r. auto. }
  fold admin_role_params admin_params.
  destruct (execute k insert_admin_role_sql admin_role_params w2) as [w3 [e|u']]; simpl.
  - destruct (execute k insert_admin_sql admin_params w3) as [w4 [e'|u']]; simpl.
    + eexists. exists [(CExecute k select_admin_sql (Some [PStr "admin"]), None);
                       (CFetchone k, None);
                       (CExecute k insert_admin_role_sql admin_role_params, Some e)].
      exists (CExecute k insert_admin_sql admin_params), (Some e'). eexists.
      split; [reflexivity|]. simpl. rewrite <- !app_assoc. auto.
    + destruct (commit conn w4) as [w5 [e'|u'']]; simpl.
      * eexists. exists [(CExecute k select_admin_sql (Some [PStr "admin"]), None);
                         (CFetchone k, None);
                         (CExecute k insert_admin_role_sql admin_role_params, Some e);
                         (CExecute k insert_admin_sql admin_params, None)].
        exists (CCommit conn), (Some e'). eexists.
        split; [reflexivity|]. simpl. rewrite <- !app_assoc. auto.
      * eexists. exists [(CExecute k select_admin_sql (Some [PStr "admin"]), None);
                         (CFetchone k, None);
                         (CExecute k insert_admin_role_sql admin_role_params, Some e);
                         (CExecute k insert_admin_sql admin_params, None)].
        exists (CCommit conn), None. eexists.
        split; [reflexivity|]. simpl. rewrite <- !app_assoc. auto.
  - destruct (commit conn w3) as [w4 [e'|u'']]; simpl.
    + eexists. exists [(CExecute k select_admin_sql (Some [PStr "admin"]), None);
                       (CFetchone k, None);
                       (CExecute k insert_admin_role_sql admin_role_params, None)].
      exists (CCommit conn), (Some e'). eexists.
      split; [reflexivity|]. simpl. rewrite <- !app_assoc. auto.
    + eexists. exists [(CExecute k select_admin_sql (Some [PStr "admin"]), None);
                       (CFetchone k, None);
                       (CExecute k insert_admin_role_sql admin_role_params, None)].
      exists (CCommit conn), None. eexists.
      split; [reflexivity|]. simpl. rewrite <- !app_assoc. auto.
Qed.

(** When the insert with the role raises, the insert without the role
    column is the next call. *)
Lemma ensure_admin_user_fallback (conn : Conn) (k : Cur) (s : state)
      (w1 w2 w3 : W) (u : unit) (row : option Row) (e : exn) :
  execute k select_admin_sql (Some [PStr "admin"]) (world s) = (w1, inr u) ->
  fetchone k w1 = (w2, inr row) ->
  py_bool row = false ->
  execute k insert_admin_role_sql admin_role_params w2 = (w3, inl e) ->
  exists s' tail,
    ensure_admin_user conn k s = (s', inr tt)
    /\ calls s' =
         calls s ++ [(CExecute k select_admin_sql (Some [PStr "admin"]), None);
                     (CFetchone k, None);
                     (CExecute k insert_admin_role_sql admin_role_params, Some e);
                     (CExecute k insert_admin_sql admin_params,
                      raised (snd (execute k insert_admin_sql admin_params w3)))]
                 ++ tail.
Proof.
  intros H1 H2 H3 H4.
  unfold ensure_admin_user, try_except, bind, execute_, fetchone_, commit_,
    perform, print, ret.
  rewrite H1; simpl. rewrite H2; simpl. rewrite H3; simpl.
  fold admin_role_params admin_params. rewrite H4; simpl.
  destruct (execute k insert_admin_sql admin_params w3) as [w4 [e'|u']]; simpl.
  - eexists. exists []. split; [reflexivity|]. simpl. now rewrite <- !app_assoc.
  - destruct (commit conn w4) as [w5 [e'|u'']]; simpl;
      eexists; eexists; (split; [reflexivity|]); simpl;
      rewrite <- !app_assoc; simpl; reflexivity.
Qed.

(** When the lookup finds a row, nothing else is called or printed. *)
Lemma ensure_admin_user_noop (conn : Conn) (k : Cur) (s : state)
      (w1 w2 : W) (u : unit) (row : option Row) :
  execute k select_admin_sql (Some [PStr "admin"]) (world s) = (w1, inr u) ->
  fetchone k w1 = (w2, inr row) ->
  py_bool row = true ->
  ensure_admin_user conn k s
  = ({| world := w2;
        calls := calls s ++ [(CExecute k select_admin_sql (Some [PStr "admin"]), None);
                             (CFetchone k, None)];
        stdout := stdout s |}, inr tt).
Proof.
  intros H1 H2 H3.
  unfold ensure_admin_user, try_except, bind, execute_, fetchone_, perform, ret.
  rewrite H1; simpl. rewrite H2; simpl. rewrite H3; simpl.
  now rewrite <- app_assoc.
Qed.

(** *** connect_mysql *)

Definition oks (l : list (call Conn Cur)) : list (entry Conn Cur) :=
  map (fun c => (c, None)) l.

(** The calls of the create-then-reconnect path once the temporary
    connection [tmp] and its cursor [k] are there, in order. *)
Definition create_steps (d : driver) (cfg : Config) (tmp : Conn) (k : Cur)
  : list (call Conn Cur) :=
  [CExecute k (create_database_sql cfg) None; CCommit tmp; CClose tmp;
   CConnect d cfg true].

(** The traces one driver block can leave, with what the block yields:
    the import fails; the direct connect succeeds; the direct connect fails
    and nothing more is tried; or the create-then-reconnect path runs, up to
    its first call that raises or to its end. *)
Inductive attempt (d : driver) (cfg : Config)
  : bool -> list (entry Conn Cur) -> option Conn -> Prop :=
| attempt_no_module (flag : bool) (e : exn) :
    attempt d cfg flag [(CImport d, Some e)] None
| attempt_direct (flag : bool) (c : Conn) :
    attempt d cfg flag [(CImport d, None); (CConnect d cfg true, None)] (Some c)
| attempt_no_create (e : exn) :
    attempt d cfg false [(CImport d, None); (CConnect d cfg true, Some e)] None
| attempt_no_server (e e' : exn) :
    attempt d cfg true
      [(CImport d, None); (CConnect d cfg true, Some e);
       (CConnect d cfg false, Some e')]
      None
| attempt_no_cursor (e e' : exn) (tmp : Conn) :
    attempt d cfg true
      [(CImport d, None); (CConnect d cfg true, Some e);
       (CConnect d cfg false, None); (CCursor tmp, Some e')]
      None
| attempt_create_stops (e e' : exn) (tmp : Conn) (k : Cur)
                       (before after : list (call Conn Cur)) (c : call Conn Cur) :
    create_steps d cfg tmp k = before ++ c :: after ->
    attempt d cfg true
      ((CImport d, None) :: (CConnect d cfg true, Some e)
         :: (CConnect d cfg false, None) :: (CCursor tmp, None)
         :: oks before ++ [(c, Some e')])
      None
| attempt_create_done (e : exn) (tmp : Conn) (k : Cur) (c : Conn) :
    attempt d cfg true
      ((CImport d, None) :: (CConnect d cfg true, Some e)
         :: (CConnect d cfg false, None) :: (CCursor tmp, None)
         :: oks (create_steps d cfg tmp k))
      (Some c).

Lemma connect_with_spec (d : driver) (cfg : Config) (flag : bool) (s : state) :
  exists s' r t,
    connect_with d cfg flag s = (s', inr r)
    /\ extends s s' t []
    /\ attempt d cfg flag t r.
Proof.
  unfold connect_with, try_except, bind, import_, connect_, cursor_, execute_,
    commit_, close_, perform, ret, extends.
  destruct (import_module d (world s)) as [w0 [e|u]]; simpl.
  { do 3 eexists. split; [reflexivity|]. simpl.
    split. 2:{ apply attempt_no_module. } split; [reflexivity | now rewrite app_nil_r]. }
  destruct (connect d cfg true w0) as [w1 [e|c]]; simpl.
  2:{ do 3 eexists. split; [reflexivity|]. simpl.
      split. 2:{ apply attempt_direct. }
      split; [now rewrite <- !app_assoc | now rewrite app_nil_r]. }
  destruct flag; simpl.
  2:{ do 3 eexists. split; [reflexivity|]. simpl.
      split. 2:{ apply attempt_no_create. }
      split; [now rewrite <- !app_assoc | now rewrite app_nil_r]. }
  destruct (connect d cfg false w1) as [w2 [e1|tmp]]; simpl.
  { do 3 eexists. split; [reflexivity|]. simpl.
    split. 2:{ apply attempt_no_server. }
    split; [now rewrite <- !app_assoc | now rewrite app_nil_r]. }
  destruct (cursor tmp w2) as [w3 [e1|k]]; simpl.
  { do 3 eexists. split; [reflexivity|]. simpl.
    split. 2:{ apply attempt_no_cursor. }
    split; [now rewrite <- !app_assoc | now rewrite app_nil_r]. }
  destruct (execute k (create_database_sql cfg) None w3) as [w4 [e1|u1]]; simpl.
  { do 3 eexists. split; [reflexivity|]. simpl.
    split. 2:{ eapply (attempt_create_stops d cfg e e1 tmp k []). reflexivity. }
    split; [now rewrite <- !app_assoc | now rewrite app_nil_r]. }
  destruct (commit tmp w4) as [w5 [e1|u2]]; simpl.
  { do 3 eexists. split; [reflexivity|]. simpl.
    split. 2:{ eapply (attempt_create_stops d cfg e e1 tmp k [_]). reflexivity. }
    split; [now rewrite <- !app_assoc | now rewrite app_nil_r]. }
  destruct (close tmp w5) as [w6 [e1|u3]]; simpl.
  { do 3 eexists. split; [reflexivity|]. simpl.
    split. 2:{ eapply (attempt_create_stops d cfg e e1 tmp k [_; _]). reflexivity. }
    split; [now rewrite <- !app_assoc | now rewrite app_nil_r]. }
  destruct (connect d cfg true w6) as [w7 [e1|c]]; simpl.
  { do 3 eexists. split; [reflexivity|]. simpl.
    split. 2:{ eapply (attempt_create_stops d cfg e e1 tmp k [_; _; _]). reflexivity. }
    split; [now rewrite <- !app_assoc | now rewrite app_nil_r]. }
  do 3 eexists. split; [reflexivity|]. simpl.
  split. 2:{ apply (attempt_create_done d cfg e tmp k c). }
  split; [now rewrite <- !app_assoc | now rewrite app_nil_r].
Qed.

(** [connect_mysql] on a configuration that parses: the [pymysql] block,
    and after it the [mysql.connector] block unless the first returned a
    connection.  It never raises. *)
Lemma connect_mysql_spec (cfg : Config) (flag : bool) (s : state) :
  mysql_config environ = inr cfg ->
  exists s' r t1 r1 t2,
    connect_mysql flag s = (s', inr r)
    /\ extends s s' (t1 ++ t2) []
    /\ attempt pymysql cfg flag t1 r1
    /\ match r1 with
       | Some c => t2 = [] /\ r = Some c
       | None => attempt mysql_connector cfg flag t2 r
       end.
Proof.
  intros Hcfg. unfold connect_mysql, bind at 1, lift. rewrite Hcfg.
  unfold bind.
  destruct (connect_with_spec pymysql cfg flag s) as (s1 & r1 & t1 & E1 & X1 & A1).
  rewrite E1. destruct r1 as [c|].
  - exists s1, (Some c), t1, (Some c), []. rewrite app_nil_r.
    split; [reflexivity | split; [exact X1 | split; [exact A1 | now split]]].
  - destruct (connect_with_spec mysql_connector cfg flag s1)
      as (s2 & r2 & t2 & E2 & X2 & A2).
    exists s2, r2, t1, None, t2.
    split; [exact E2 | split; [| split; [exact A1 | exact A2]]].
    exact (extends_trans _ _ _ _ _ _ _ X1 X2).
Qed.

(** A configuration whose port is no number makes [connect_mysql] raise,
    before any driver is tried. *)
Lemma connect_mysql_bad_config (e : exn) (flag : bool) (s : state) :
  mysql_config environ = inl e -> connect_mysql flag s = (s, inl e).
Proof.
  intros Hcfg. unfold connect_mysql, bind, lift. now rewrite Hcfg.
Qed.

Lemma connect_with_grows (d : driver) (cfg : Config) (flag : bool) :
  grows (fun _ => True) (fun _ => False) (connect_with d cfg flag).
Proof.
  unfold connect_with, import_, connect_, cursor_, execute_, commit_, close_.
  grow.
Qed.

Lemma connect_mysql_grows (flag : bool) :
  grows (fun _ => True) (fun _ => False) (connect_mysql flag).
Proof.
  unfold connect_mysql.
  apply grows_bind; [apply grows_lift|]. intros cfg.
  apply grows_bind; [apply connect_with_grows|].
  intros [c|]; [apply grows_ret | apply connect_with_grows].
Qed.

(** *** main *)

Lemma no_lines (o : list string) : Forall (fun _ => False) o -> o = [].
Proof. now destruct 1. Qed.

(** The number of connections to the named database a trace opened. *)
Definition acquired (t : list (entry Conn Cur)) : nat :=
  List.length
    (filter (fun e => match e with
                      | (CConnect _ _ true, None) => true
                      | _ => false
                      end) t).

Lemma attempt_acquired (d : driver) (cfg : Config) (flag : bool)
      (t : list (entry Conn Cur)) (r : option Conn) :
  attempt d cfg flag t r -> acquired t = match r with Some _ => 1 | None => 0 end.
Proof.
  destruct 1 as [| | | | | e e' tmp k before after c Hsteps |]; try reflexivity.
  unfold create_steps in Hsteps.
  destruct before as [|b1 [|b2 [|b3 [|b4 before]]]]; simpl in Hsteps;
    inversion Hsteps; subst; try reflexivity.
  destruct before; discriminate.
Qed.

Lemma acquired_app (t1 t2 : list (entry Conn Cur)) :
  acquired (t1 ++ t2) = acquired t1 + acquired t2.
Proof. unfold acquired. now rewrite filter_app, length_app. Qed.

(** [main] calls [connect_mysql] once; what follows makes session calls
    only. *)
Lemma main_after_connect (s : state) :
  exists s1 r1 t1 t2 o,
    connect_mysql true s = (s1, r1)
    /\ extends s s1 t1 []
    /\ acquired t1 = match r1 with inr (Some _) => 1 | _ => 0 end
    /\ extends s1 (fst (main s)) t2 o
    /\ Forall session_call t2.
Proof.
  unfold main, bind at 1.
  destruct (mysql_config environ) as [e|cfg] eqn:Hcfg.
  - rewrite (connect_mysql_bad_config e true s Hcfg). simpl.
    exists s, (inl e), [], [], [].
    repeat split; try apply extends_refl; try constructor; now rewrite app_nil_r.
  - destruct (connect_mysql_spec cfg true s Hcfg)
      as (s1 & r & t1 & r1 & t2 & E & X & A1 & A2).
    rewrite E.
    assert (Hacq : acquired (t1 ++ t2) = match r with Some _ => 1 | None => 0 end).
    { rewrite acquired_app, (attempt_acquired _ _ _ _ _ A1).
      destruct r1 as [c|].
      - destruct A2 as [-> ->]. reflexivity.
      - now rewrite (attempt_acquired _ _ _ _ _ A2). }
    destruct r as [conn|].
    + assert (G : grows session_call any_line
                    (bind (ensure_tracking_table conn)
                       (fun cur =>
                          bind (for_each (load_migrations migrations)
                                  (migrate_one conn cur))
                            (fun _ => bind (print complete_line)
                                        (fun _ => ensure_admin_user conn cur))))).
      { apply grows_bind.
        - unfold ensure_tracking_table, cursor_, execute_, commit_. grow.
        - intros cur. apply grows_bind;
            [apply grows_for_each; intros;
             unfold migrate_one, already_applied, apply_migration,
               cursor_, execute_, fetchone_, commit_; grow; exact I|].
          intros _. apply grows_bind; [apply grows_print; exact I|].
          intros _. unfold ensure_admin_user, execute_, fetchone_, commit_.
          grow; exact I. }
      destruct (G s1) as (t & o & Xt & Pt & _).
      exists s1, (inr (Some conn)), (t1 ++ t2), t, o.
      split; [reflexivity | split; [exact X | split; [exact Hacq | split; [exact Xt | exact Pt]]]].
    + exists s1, (inr None), (t1 ++ t2), [], [connection_failed_line].
      split; [reflexivity | split; [exact X | split; [exact Hacq | split; [| constructor]]]].
      apply print_extends.
Qed.


(** Once the units are done, [main] reports completion and returns
    normally, whatever the seeding step meets. *)
Lemma main_reports_completion (s s1 s2 s3 : state) (conn : Conn) (cur : Cur) :
  connect_mysql true s = (s1, inr (Some conn)) ->
  ensure_tracking_table conn s1 = (s2, inr cur) ->
  for_each (load_migrations migrations) (migrate_one conn cur) s2 = (s3, inr tt) ->
  exists s' o,
    main s = (s', inr tt)
    /\ stdout s' = stdout s3 ++ complete_line :: o.
Proof.
  intros E1 E2 E3. unfold main, bind. rewrite E1, E2, E3.
  unfold print at 1.
  set (s4 := {| world := world s3; calls := calls s3;
                stdout := stdout s3 ++ [complete_line] |}).
  destruct (ensure_admin_user_spec conn cur s4) as (s5 & t & c & x & o & E5 & [_ Ho] & _).
  exists s5, o. split; [exact E5|].
  rewrite Ho. simpl. now rewrite <- app_assoc.
Qed.


(** *** How often [connect_mysql] connects *)

(** The connects to the named database in a trace, and the
    create-database statements in it. *)
Definition direct_connects (t : list (entry Conn Cur)) : nat :=
  List.length
    (filter (fun e => match fst e with
                      | CConnect _ _ true => true
                      | _ => false
                      end) t).

Definition create_statements (t : list (entry Conn Cur)) : nat :=
  List.length
    (filter (fun e => match fst e with
                      | CExecute _ sql _ => String.prefix "CREATE DATABASE" sql
                      | _ => false
                      end) t).

Definition close_calls (t : list (entry Conn Cur)) : nat :=
  List.length
    (filter (fun e => match fst e with
                      | CClose _ => true
                      | _ => false
                      end) t).

(** The contract of the provisioner in the spec's words: one direct
    connect, at most one create-database statement, at most one retry of the
    direct connect. *)
Definition single_retry (t : list (entry Conn Cur)) : Prop :=
  direct_connects t <= 2 /\ create_statements t <= 1.

Lemma attempt_single_retry (d : driver) (cfg : Config) (flag : bool)
      (t : list (entry Conn Cur)) (r : option Conn) :
  attempt d cfg flag t r -> single_retry t.
Proof.
  unfold single_retry, direct_connects, create_statements.
  destruct 1 as [| | | | | e e' tmp k before after c Hsteps |]; simpl; try lia.
  unfold create_steps in Hsteps.
  destruct before as [|b1 [|b2 [|b3 [|b4 before]]]]; simpl in Hsteps;
    inversion Hsteps; subst; simpl; try lia.
  destruct before; discriminate.
Qed.

(** *** Where an exception of [main] can come from *)


(** When [m] raises, the exception is the one its last call raised, and
    that call satisfies [B]. *)
Definition raises_from {A} (B : call Conn Cur -> Prop) (m : M A) : Prop :=
  forall s s' e, m s = (s', inl e) ->
                 exists t c, calls s' = t ++ [(c, Some e)] /\ B c.

Lemma raises_ret {A} B (a : A) : raises_from B (ret a).
Proof. intros s s' e H. discriminate. Qed.


Lemma raises_perform {A} (B : call Conn Cur -> Prop) (c : call Conn Cur)
      (op : W -> W * (exn + A)) :
  B c -> raises_from B (perform c op).
Proof.
  intros HB s s' e. unfold perform. destruct (op (world s)) as [w [e'|a]]; intros H;
    inversion H; subst; simpl. now exists (calls s), c.
Qed.

Lemma raises_bind {A C} B (m : M A) (k : A -> M C) :
  raises_from B m -> (forall a, raises_from B (k a)) -> raises_from B (bind m k).
Proof.
  intros Hm Hk s s' e. unfold bind. destruct (m s) as [s1 [e1|a]] eqn:E.
  - intros H. inversion H; subst. now apply (Hm s).
  - apply Hk.
Qed.

Lemma raises_try {A} B (m : M A) (h : exn -> M A) :
  (forall e, raises_from B (h e)) -> raises_from B (try_except m h).
Proof.
  intros Hh s s' e. unfold try_except. destruct (m s) as [s1 [e1|a]].
  - apply Hh.
  - discriminate.
Qed.











(** *** The names [main] handles *)

(** The name a call looks up in the tracking table or records into it. *)
Definition tracked_name (c : call Conn Cur) : option string :=
  match c with
  | CExecute _ sql (Some [PStr n]) =>
      if String.eqb sql select_migration_sql || String.eqb sql insert_migration_sql
      then Some n else None
  | _ => None
  end.

(** The statement a call executes without parameters. *)
Definition plain_statement (c : call Conn Cur) : option string :=
  match c with
  | CExecute _ sql None => Some sql
  | _ => None
  end.

(** A statement of one of the files in [names], as [apply_migration] cuts
    them. *)
Definition statement_of (names : list string) (sql : string) : Prop :=
  exists n text,
    In n names /\ read_text migrations n = inr text /\ In sql (statements text).

(** A call that handles no name but a loaded one and executes, without
    parameters, nothing but the two statements of the runner itself and
    the statements of loaded files; a line that, when it is a unit line, is
    the line of a loaded name. *)
Definition loaded_call (e : entry Conn Cur) : Prop :=
  (forall n, tracked_name (fst e) = Some n -> In n (load_migrations migrations))
  /\ (forall sql, plain_statement (fst e) = Some sql ->
                  sql = create_table_sql
                  \/ (exists cfg, sql = create_database_sql cfg)
                  \/ statement_of (load_migrations migrations) sql).

Definition loaded_line (line : string) : Prop :=
  is_unit_line line = true ->
  exists n, In n (load_migrations migrations)
            /\ (line = applying_line n \/ line = skipping_line n).

Lemma grows_for_each_in {A} P Q (l : list A) (body : A -> M unit) :
  (forall x, In x l -> grows P Q (body x)) -> grows P Q (for_each l body).
Proof.
  induction l as [|x l IH]; intros Hb; simpl.
  - apply grows_ret.
  - apply grows_bind; [apply Hb; now left|].
    intros _. apply IH. intros y Hy. apply Hb. now right.
Qed.

Lemma grows_weaken {A} (P P' : entry Conn Cur -> Prop) (Q Q' : string -> Prop) (m : M A) :
  (forall e, P e -> P' e) -> (forall l, Q l -> Q' l) -> grows P Q m -> grows P' Q' m.
Proof.
  intros HP HQ H s. destruct (H s) as (t & o & X & Pt & Qo).
  exists t, o. split; [exact X|].
  split; [eapply Forall_impl; [exact HP | exact Pt]
         | eapply Forall_impl; [exact HQ | exact Qo]].
Qed.

Lemma grows_bind_lift {A B} P Q (r : exn + A) (k : A -> M B) :
  (forall a, r = inr a -> grows P Q (k a)) -> grows P Q (bind (lift r) k).
Proof.
  intros Hk. destruct r as [e|a].
  - intros s. exists [], []. unfold bind, lift. simpl.
    split; [apply extends_refl | split; constructor].
  - intros s. unfold bind, lift. exact (Hk a eq_refl s).
Qed.

Lemma not_unit_loaded (line : string) : not_unit_line line -> loaded_line line.
Proof. unfold not_unit_line, loaded_line. congruence. Qed.

(** A call that neither handles a name nor executes a statement without
    parameters. *)
Lemma other_call_loaded (c : call Conn Cur) (x : option exn) :
  tracked_name c = None -> plain_statement c = None -> loaded_call (c, x).
Proof.
  intros H1 H2. split; simpl; intros y Hy; [rewrite H1 in Hy | rewrite H2 in Hy];
    discriminate.
Qed.

Lemma migrate_one_loaded (conn : Conn) (k : Cur) (n : string) :
  In n (load_migrations migrations) ->
  grows loaded_call loaded_line (migrate_one conn k n).
Proof.
  intros Hin.
  assert (Hn : forall (k' : Cur) (sql : string) (x : option exn),
             loaded_call (CExecute k' sql (Some [PStr n]), x)).
  { intros k' sql x. split; simpl; [|discriminate]. intros m.
    destruct (String.eqb sql select_migration_sql || String.eqb sql insert_migration_sql);
      [|discriminate].
    intros H. inversion H. now subst. }
  unfold migrate_one, already_applied, apply_migration,
    cursor_, execute_, fetchone_, commit_.
  apply grows_bind.
  { apply grows_try; [|intros e; apply grows_ret].
    apply grows_bind; [apply grows_perform; intros x; apply Hn|]. intros _.
    apply grows_bind; [apply grows_perform; intros x; now apply other_call_loaded|].
    intros row. apply grows_ret. }
  intros [|].
  { apply grows_print. intros _. exists n. split; [exact Hin | now right]. }
  apply grows_bind.
  { apply grows_print. intros _. exists n. split; [exact Hin | now left]. }
  intros _.
  apply grows_bind; [apply grows_perform; intros x; now apply other_call_loaded|].
  intros cur. apply grows_bind_lift. intros text Htext.
  apply grows_bind.
  { apply grows_for_each_in. intros stmt Hstmt. apply grows_try.
    - apply grows_perform. intros x. split; simpl; [discriminate|].
      intros sql H. inversion H; subst sql. right; right. now exists n, text.
    - intros e. apply grows_print. apply not_unit_loaded, statement_warning_not_unit. }
  intros _.
  apply grows_bind; [apply grows_perform; intros x; apply Hn|]. intros _.
  apply grows_perform. intros x. now apply other_call_loaded.
Qed.

Lemma connect_with_loaded (d : driver) (cfg : Config) (flag : bool) :
  grows loaded_call (fun _ => False) (connect_with d cfg flag).
Proof.
  unfold connect_with, import_, connect_, cursor_, execute_, commit_, close_.
  repeat first
    [ apply grows_ret
    | apply grows_bind; [|intros ?] | apply grows_try; [|intros ?]
    | apply grows_if
    | apply grows_perform; intros ?; now apply other_call_loaded
    | apply grows_perform; intros ?; split; simpl; [discriminate|];
      intros sql H; inversion H; right; left; now exists cfg ].
Qed.

(** Every name [main] looks up or records, and every unit line it prints,
    is the name of a loaded file; and the statements it executes without
    parameters are its own two and those of loaded files. *)
Lemma main_loaded : grows loaded_call loaded_line main.
Proof.
  unfold main. apply grows_bind.
  { apply (grows_weaken loaded_call loaded_call (fun _ => False) loaded_line).
    - auto.
    - intros l [].
    - unfold connect_mysql.
      apply grows_bind; [apply grows_lift|]. intros cfg.
      apply grows_bind; [apply connect_with_loaded|].
      intros [c|]; [apply grows_ret | apply connect_with_loaded]. }
  intros [conn|].
  2:{ apply grows_print. apply not_unit_loaded. reflexivity. }
  apply grows_bind.
  { unfold ensure_tracking_table, cursor_, execute_, commit_.
    apply grows_bind; [apply grows_perform; intros x; now apply other_call_loaded|].
    intros k. apply grows_bind.
    { apply grows_perform. intros x. split; simpl; [discriminate|].
      intros sql H. inversion H. now left. }
    intros _.
    apply grows_bind; [apply grows_perform; intros x; now apply other_call_loaded|].
    intros _. apply grows_ret. }
  intros cur. apply grows_bind.
  { apply grows_for_each_in. intros n Hn. now apply migrate_one_loaded. }
  intros _. apply grows_bind.
  { apply grows_print. apply not_unit_loaded. reflexivity. }
  intros _.
  apply (grows_weaken (fun e => exists c x, e = (c, x) /\ tracked_name c = None
                                            /\ plain_statement c = None)
           loaded_call not_unit_line loaded_line).
  - intros e (c & x & -> & H1 & H2). now apply other_call_loaded.
  - apply not_unit_loaded.
  - unfold ensure_admin_user, execute_, fetchone_, commit_.
    repeat first
      [ apply grows_ret
      | apply grows_bind; [|intros ?] | apply grows_try; [|intros ?]
      | apply grows_if
      | apply grows_perform; intros ?; do 2 eexists; repeat split; reflexivity
      | apply grows_print; reflexivity ].
Qed.

End RunnerFacts.

(** ** Facts about runs against the reference server *)

Module RefFacts.
Import Ref.

Section Server.

Variable sem : string -> DB -> option DB.
Variable environ : Environ.
Variable migrations : Directory.
Variable generate_password_hash : string -> string.

Abbreviation state := (state World Conn Cur).
Abbreviation api := (server sem).

(** No statement of a migration file touches the tracking table. *)
Definition keeps_tracking : Prop :=
  forall q d d', sem q d = Some d' -> schema_migrations d' = schema_migrations d.

(** [c] is an open connection to the existing database. *)
Definition live (c : Conn) (w : World) : Prop :=
  is_open c w = true /\ conn_db c = true /\ exists d, db w = Some d.

Lemma get_put_rows (k : nat) (rows : list Row) (rs : list (nat * list Row)) :
  get_rows k (put_rows k rows rs) = rows.
Proof. unfold put_rows. simpl. now rewrite Nat.eqb_refl. Qed.

(** [execute] on a live connection runs the statement on the database,
    unless it is a create-database statement. *)
Lemma execute_live (k : Cur) (sql : string) (params : option (list pyval))
      (w : World) (d : DB) :
  is_open (cur_conn k) w = true -> conn_db (cur_conn k) = true -> db w = Some d ->
  String.prefix "CREATE DATABASE IF NOT EXISTS " sql = false ->
  ref_execute sem k sql params w
  = match run_statement sem sql params d with
    | inl x => (w, inl x)
    | inr (d', rows) =>
        (set_results (set_db w (Some d')) (put_rows (cur_id k) rows (results w)), inr tt)
    end.
Proof.
  intros Ho Hc Hd Hp. unfold ref_execute. now rewrite Ho, Hp, Hc, Hd.
Qed.

(** A statement of a migration file, executed where the tracking table
    exists, leaves the connection live and, when no statement touches the
    table, the recorded names as they are. *)
Lemma execute_statement_keeps (k : Cur) (q : string) (w : World) (l : list string) :
  keeps_tracking ->
  live (cur_conn k) w -> tracked w = Some l ->
  live (cur_conn k) (fst (ref_execute sem k q None w))
  /\ tracked (fst (ref_execute sem k q None w)) = Some l.
Proof.
  intros Hk (Ho & Hc & d & Hd) Ht. unfold ref_execute. rewrite Ho, Hc, Hd. simpl.
  unfold tracked in Ht. rewrite Hd in Ht.
  destruct (String.prefix "CREATE DATABASE IF NOT EXISTS " q).
  - destruct (may_create w); simpl.
    + unfold live, tracked, is_open; simpl. repeat split; eauto.
    + unfold live, tracked; simpl. rewrite Hd. repeat split; eauto.
  - unfold run_statement.
    destruct (String.eqb q create_table_sql).
    + rewrite Ht. simpl. unfold live, tracked, is_open; simpl. repeat split; eauto.
    + destruct (sem q d) as [d'|] eqn:Hsem; simpl.
      * unfold live, tracked, is_open; simpl. repeat split; eauto.
        rewrite (Hk _ _ _ Hsem). exact Ht.
      * unfold live, tracked; simpl. rewrite Hd. repeat split; eauto.
Qed.

Lemma run_select_migration (n : string) (d : DB) :
  run_statement sem select_migration_sql (Some [PStr n]) d
  = match schema_migrations d with
    | None => inl (no_table "schema_migrations")
    | Some l => inr (d, if mem n l then [[PInt 1]] else [])
    end.
Proof. reflexivity. Qed.

Lemma run_insert_migration (n : string) (d : DB) :
  run_statement sem insert_migration_sql (Some [PStr n]) d
  = match schema_migrations d with
    | None => inl (no_table "schema_migrations")
    | Some l =>
        if mem n l then inl (duplicate n)
        else inr (with_migrations d (Some (l ++ [n])), [])
    end.
Proof. reflexivity. Qed.


(** *** The statements of a unit *)

Lemma ref_statements_loop (k : Cur) (path : string) (stmts : list string)
      (l : list string) (s : state) :
  keeps_tracking ->
  live (cur_conn k) (world s) -> tracked (world s) = Some l ->
  exists s',
    for_each stmts (statement_step (api := api) k path) s = (s', inr tt)
    /\ live (cur_conn k) (world s')
    /\ tracked (world s') = Some l.
Proof.
  intros Hk. revert s. induction stmts as [|q stmts IH]; intros s Hl Ht.
  - exists s. split; [reflexivity | split; assumption].
  - destruct (statement_step_spec (api := api) k path q s) as (s1 & x & E1 & _ & Hw & _).
    simpl in Hw.
    destruct (execute_statement_keeps k q (world s) l Hk Hl Ht) as [Hl1 Ht1].
    rewrite <- Hw in Hl1, Ht1.
    destruct (IH s1 Hl1 Ht1) as (s2 & E2 & Hl2 & Ht2).
    exists s2. split; [|now split].
    simpl. unfold bind at 1. now rewrite E1.
Qed.

(** *** apply_migration *)

(** A unit that is not recorded yet is recorded, whatever its statements
    do. *)
Lemma ref_apply_migration (conn : Conn) (n text : string) (l : list string)
      (s : state) :
  keeps_tracking ->
  live conn (world s) -> tracked (world s) = Some l -> mem n l = false ->
  read_text migrations n = inr text ->
  exists s',
    apply_migration (api := api) migrations conn n s = (s', inr tt)
    /\ live conn (world s')
    /\ tracked (world s') = Some (l ++ [n]).
Proof.
  intros Hk Hl Ht Hn Htext.
  unfold apply_migration, bind at 1, cursor_, perform. simpl.
  unfold bind at 1, lift. rewrite Htext.
  set (k := {| cur_conn := conn; cur_id := next_handle (world s) |}).
  set (s0 := {| world := set_conns (world s) (open_conns (world s))
                           (S (next_handle (world s)));
                calls := calls s ++ [(CCursor conn, None)]; stdout := stdout s |}).
  assert (Hl0 : live (cur_conn k) (world s0)).
  { destruct Hl as (Ho & Hc & d & Hd). unfold live, is_open in *; simpl. eauto. }
  assert (Ht0 : tracked (world s0) = Some l) by exact Ht.
  destruct (ref_statements_loop k n (statements text) l s0 Hk Hl0 Ht0)
    as (s1 & E1 & Hl1 & Ht1).
  unfold statement_step in E1. unfold bind at 1. rewrite E1.
  unfold bind at 1, execute_, perform. cbn [execute server].
  destruct Hl1 as (Ho & Hc & d & Hd).
  rewrite (execute_live k insert_migration_sql (Some [PStr n]) (world s1) d
             Ho Hc Hd eq_refl), run_insert_migration.
  unfold tracked in Ht1. rewrite Hd in Ht1. rewrite Ht1, Hn.
  unfold commit_, perform. simpl. unfold ref_commit.
  match goal with
  | |- context [is_open conn ?w] =>
      assert (Ho' : is_open conn w = true) by exact Ho; rewrite Ho'
  end.
  simpl.
  eexists. split; [reflexivity|]. simpl. split.
  - unfold live, is_open in *; simpl. eauto.
  - reflexivity.
Qed.

(** When [apply_migration] returns normally the unit is recorded, whatever
    its statements are and do. *)
Lemma ref_apply_migration_records (conn : Conn) (n : string) (s s' : state) :
  apply_migration (api := api) migrations conn n s = (s', inr tt) ->
  exists l, tracked (world s') = Some l /\ mem n l = true.
Proof.
  unfold apply_migration, bind at 1, cursor_, perform. simpl.
  unfold bind at 1, lift.
  destruct (read_text migrations n) as [e|text]; [discriminate|].
  set (k := {| cur_conn := conn; cur_id := next_handle (world s) |}).
  destruct (statements_loop_spec (api := api) k n (statements text)
              {| world := set_conns (world s) (open_conns (world s))
                            (S (next_handle (world s)));
                 calls := calls s ++ [(CCursor conn, None)]; stdout := stdout s |})
    as (s1 & xs & E1 & _).
  unfold statement_step in E1. unfold bind at 1. rewrite E1.
  unfold bind at 1, execute_, perform. cbn [execute server].
  unfold ref_execute. change (cur_conn k) with conn.
  change (String.prefix "CREATE DATABASE IF NOT EXISTS " insert_migration_sql) with false.
  destruct (is_open conn (world s1)) eqn:Ho; cbn [negb]; [|discriminate].
  destruct (conn_db conn); cbn [negb]; [|discriminate].
  destruct (db (world s1)) as [d|] eqn:Hd; [|discriminate].
  rewrite run_insert_migration.
  destruct (schema_migrations d) as [l|]; [|discriminate].
  destruct (mem n l) eqn:Hn; [discriminate|].
  unfold commit_, perform. simpl. unfold ref_commit.
  match goal with |- context [is_open conn ?w] => change (is_open conn w) with (is_open conn (world s1)) end.
  rewrite Ho. simpl. intros H. inversion H; subst; clear H. simpl.
  exists (l ++ [n]). split; [reflexivity|].
  unfold mem. rewrite existsb_app. simpl. rewrite String.eqb_refl.
  now rewrite orb_true_r.
Qed.

(** *** already_applied *)

(** Where the tracking table exists, the lookup answers whether the name
    is recorded; it changes nothing in the database. *)
Lemma ref_already_applied (k : Cur) (n : string) (l : list string) (s : state) :
  live (cur_conn k) (world s) -> tracked (world s) = Some l ->
  exists s',
    already_applied (api := api) k n s = (s', inr (mem n l))
    /\ live (cur_conn k) (world s')
    /\ db (world s') = db (world s)
    /\ stdout s' = stdout s.
Proof.
  intros (Ho & Hc & d & Hd) Ht.
  unfold already_applied, try_except, bind, execute_, fetchone_, perform, ret.
  cbn [execute fetchone server].
  rewrite (execute_live k select_migration_sql (Some [PStr n]) (world s) d
             Ho Hc Hd eq_refl), run_select_migration.
  unfold tracked in Ht. rewrite Hd in Ht. rewrite Ht.
  unfold ref_fetchone.
  destruct (mem n l); simpl; rewrite Nat.eqb_refl; simpl;
    eexists; (split; [reflexivity|]); simpl;
    unfold live, is_open in *; simpl; repeat split; eauto.
Qed.

(** Where the tracking table is missing, the lookup raises inside and the
    answer is [False]. *)
Lemma ref_already_applied_no_table (k : Cur) (n : string) (s : state) :
  live (cur_conn k) (world s) -> tracked (world s) = None ->
  exists s', already_applied (api := api) k n s = (s', inr false).
Proof.
  intros (Ho & Hc & d & Hd) Ht.
  unfold already_applied, try_except, bind, execute_, fetchone_, perform, ret.
  cbn [execute fetchone server].
  rewrite (execute_live k select_migration_sql (Some [PStr n]) (world s) d
             Ho Hc Hd eq_refl), run_select_migration.
  unfold tracked in Ht. rewrite Hd in Ht. rewrite Ht.
  eexists. reflexivity.
Qed.

(** *** The tracking table and the loop *)






(** *** ensure_admin_user *)

Definition is_admin (u : User) : bool := String.eqb (username u) "admin".

(** What the seeding step does to the database: nothing when [users] is
    missing or holds the reserved name; otherwise the insert with the role,
    or else the insert without it, or else nothing. *)
Definition seed_users (h : string) (d : DB) : DB :=
  match users d with
  | None => d
  | Some us =>
      match filter is_admin us with
      | _ :: _ => d
      | [] =>
          match insert_user d "admin" "admin@example.com" h (Some "admin") with
          | inr d' => d'
          | inl _ =>
              match insert_user d "admin" "admin@example.com" h None with
              | inr d' => d'
              | inl _ => d
              end
          end
      end
  end.

Definition admins (d : DB) : list User :=
  match users d with
  | Some us => filter is_admin us
  | None => []
  end.

Definition admin_hash : string :=
  generate_password_hash (environ_get environ "ADMIN_PASSWORD" "admin@123").

Lemma run_select_admin (d : DB) :
  run_statement sem select_admin_sql (Some [PStr "admin"]) d
  = match users d with
    | None => inl (no_table "users")
    | Some us => inr (d, map (fun u => [PInt (uid u)]) (filter is_admin us))
    end.
Proof. reflexivity. Qed.

Lemma run_insert_admin_role (u e h r : string) (d : DB) :
  run_statement sem insert_admin_role_sql (Some [PStr u; PStr e; PStr h; PStr r]) d
  = match insert_user d u e h (Some r) with
    | inl x => inl x
    | inr d' => inr (d', [])
    end.
Proof. reflexivity. Qed.

Lemma run_insert_admin (u e h : string) (d : DB) :
  run_statement sem insert_admin_sql (Some [PStr u; PStr e; PStr h]) d
  = match insert_user d u e h None with
    | inl x => inl x
    | inr d' => inr (d', [])
    end.
Proof. reflexivity. Qed.

Lemma insert_user_spec (d d' : DB) (u e h : string) (r : option string) :
  insert_user d u e h r = inr d' ->
  exists us,
    users d = Some us
    /\ d' = with_users d
              (Some (us ++ [{| uid := Z.of_nat (S (List.length us)); username := u;
                               email := e; password_hash := h; role := r |}])).
Proof.
  unfold insert_user. destruct (users d) as [us|]; [|discriminate].
  destruct (negb _); [discriminate|].
  destruct (mem u (map username us)); [discriminate|].
  destruct (mem e (map email us)); [discriminate|].
  intros H. inversion H. now exists us.
Qed.


(** The seeding leaves at most the one row it adds, and adds it only
    where there was none. *)
Lemma seed_users_admins (h : string) (d : DB) :
  admins (seed_users h d) = admins d
  \/ (admins d = [] /\ List.length (admins (seed_users h d)) = 1).
Proof.
  unfold seed_users, admins. destruct (users d) as [us|] eqn:Hu; [|left; now rewrite Hu].
  destruct (filter is_admin us) eqn:Hf; [|left; now rewrite Hu, Hf].
  destruct (insert_user d _ _ _ (Some _)) as [x|d1] eqn:E1.
  - destruct (insert_user d _ _ _ None) as [y|d2] eqn:E2; [left; now rewrite Hu, Hf|].
    apply insert_user_spec in E2. destruct E2 as (us' & Hu' & ->).
    rewrite Hu in Hu'. inversion Hu'; subst us'. right. split; [reflexivity|].
    simpl. rewrite filter_app, Hf. reflexivity.
  - apply insert_user_spec in E1. destruct E1 as (us' & Hu' & ->).
    rewrite Hu in Hu'. inversion Hu'; subst us'. right. split; [reflexivity|].
    simpl. rewrite filter_app, Hf. reflexivity.
Qed.

(** A second seeding changes nothing. *)
Lemma seed_users_twice (h h' : string) (d : DB) :
  seed_users h' (seed_users h d) = seed_users h d.
Proof.
  unfold seed_users at 2 3. destruct (users d) as [us|] eqn:Hu.
  2:{ unfold seed_users. now rewrite Hu. }
  destruct (filter is_admin us) eqn:Hf.
  2:{ unfold seed_users. now rewrite Hu, Hf. }
  assert (Hfail : forall r x,
             insert_user d "admin" "admin@example.com" h r = inl x ->
             insert_user d "admin" "admin@example.com" h' r = inl x).
  { unfold insert_user. rewrite Hu. intros r x.
    destruct (negb _); [auto|].
    destruct (mem "admin" (map username us)); [auto|].
    destruct (mem "admin@example.com" (map email us)); [auto | discriminate]. }
  assert (Hseen : forall d1 r,
             insert_user d "admin" "admin@example.com" h r = inr d1 ->
             seed_users h' d1 = d1).
  { intros d1 r E. apply insert_user_spec in E. destruct E as (us' & Hu' & ->).
    unfold seed_users. simpl. rewrite filter_app. simpl.
    now destruct (filter is_admin us'). }
  destruct (insert_user d _ _ h (Some _)) as [x|d1] eqn:E1.
  - destruct (insert_user d _ _ h None) as [y|d2] eqn:E2.
    + unfold seed_users. rewrite Hu, Hf.
      now rewrite (Hfail _ _ E1), (Hfail _ _ E2).
    + exact (Hseen _ _ E2).
  - exact (Hseen _ _ E1).
Qed.

(** The step against the server: the database afterwards, and what the
    printed line tells. *)
Lemma ref_ensure_admin_user (conn : Conn) (id : nat) (s : state) :
  exists s' o,
    ensure_admin_user (api := api) environ generate_password_hash conn
      {| cur_conn := conn; cur_id := id |} s = (s', inr tt)
    /\ stdout s' = stdout s ++ o
    /\ open_conns (world s') = open_conns (world s)
    /\ db (world s')
       = (if is_open conn (world s) && conn_db conn
          then option_map (seed_users admin_hash) (db (world s))
          else db (world s))
    /\ ((o = [] /\ db (world s') = db (world s) /\ admin_rows (world s) <> []
          /\ calls s' = calls s ++ [(CExecute {| cur_conn := conn; cur_id := id |}
                                       select_admin_sql (Some [PStr "admin"]), None);
                                    (CFetchone {| cur_conn := conn; cur_id := id |}, None)])
        \/ (o = [admin_created_line] /\ admin_rows (world s) = []
             /\ List.length (admin_rows (world s')) = 1)
        \/ (exists e, o = [admin_warning e] /\ db (world s') = db (world s)
                      /\ (live conn (world s) -> admin_rows (world s) = []))).
Proof.
  set (k := {| cur_conn := conn; cur_id := id |}).
  unfold ensure_admin_user, try_except, bind at 1, execute_, perform.
  cbn [execute server].
  destruct (is_open conn (world s)) eqn:Ho.
  2:{ unfold ref_execute. cbn [cur_conn k]. rewrite Ho. cbn [negb].
      unfold print. eexists. eexists. split; [reflexivity|]. simpl.
      do 3 (split; [reflexivity|]). right; right. eexists.
      do 2 (split; [reflexivity|]). intros (Ho' & _). congruence. }
  destruct (conn_db conn) eqn:Hc.
  2:{ unfold ref_execute. cbn [cur_conn k]. rewrite Ho, Hc. cbn [negb].
      change (String.prefix "CREATE DATABASE IF NOT EXISTS " select_admin_sql) with false.
      cbn iota. unfold print. eexists. eexists. split; [reflexivity|]. simpl.
      do 3 (split; [reflexivity|]). right; right. eexists.
      do 2 (split; [reflexivity|]). intros (_ & Hc' & _). congruence. }
  destruct (db (world s)) as [d|] eqn:Hd.
  2:{ unfold ref_execute. cbn [cur_conn k]. rewrite Ho, Hc, Hd. cbn [negb].
      change (String.prefix "CREATE DATABASE IF NOT EXISTS " select_admin_sql) with false.
      cbn iota. unfold print. eexists. eexists. split; [reflexivity|]. simpl.
      rewrite Hd. do 3 (split; [reflexivity|]). right; right. eexists.
      do 2 (split; [reflexivity|]). intros (_ & _ & d & Hd'). congruence. }
  rewrite (execute_live k select_admin_sql (Some [PStr "admin"]) (world s) d
             Ho Hc Hd eq_refl), run_select_admin.
  cbn [andb option_map]. unfold admin_rows. rewrite Hd.
  destruct (users d) as [us|] eqn:Hu.
  2:{ unfold print. eexists. eexists. split; [reflexivity|]. simpl.
      unfold seed_users. rewrite Hu, Hd.
      do 3 (split; [reflexivity|]). right; right. eexists.
      do 2 (split; [reflexivity|]). reflexivity. }
  cbn iota. cbn [raised]. unfold bind at 1, fetchone_, perform.
  cbn [fetchone server world]. unfold ref_fetchone. cbn [results set_results cur_id k].
  rewrite get_put_rows. fold is_admin.
  unfold seed_users. rewrite Hu.
  destruct (filter is_admin us) as [|u0 adm] eqn:Hf.
  2:{ simpl. unfold ret. eexists. exists []. split; [reflexivity|]. simpl.
      rewrite app_nil_r, <- app_assoc. repeat split; auto. left.
      repeat split; auto. discriminate. }
  cbn [map]. cbn iota. cbn [py_bool negb raised world calls stdout].
  fold admin_hash.
  set (w1 := set_results (set_db (world s) (Some d)) (put_rows id [] (results (world s)))).
  assert (Ho1 : is_open (cur_conn k) w1 = true) by exact Ho.
  assert (Hd1 : db w1 = Some d) by reflexivity.
  unfold bind at 1. cbn [world].
  rewrite (execute_live k insert_admin_role_sql _ w1 d Ho1 Hc Hd1 eq_refl),
    run_insert_admin_role.
  assert (Hcommit : forall w, open_conns w = open_conns (world s) ->
                              ref_commit conn w = (w, inr tt)).
  { intros w Hw. unfold ref_commit, is_open in *. now rewrite Hw, Ho. }
  destruct (insert_user d "admin" "admin@example.com" admin_hash (Some "admin"))
    as [x|d1] eqn:E1; cbn iota; cbn [raised world].
  - rewrite (execute_live k insert_admin_sql _ w1 d Ho1 Hc Hd1 eq_refl),
      run_insert_admin.
    destruct (insert_user d "admin" "admin@example.com" admin_hash None)
      as [y|d2] eqn:E2; cbn iota; cbn [raised world].
    + unfold print. eexists. eexists. split; [reflexivity|]. simpl.
      do 3 (split; [reflexivity|]). right; right. eexists.
      do 2 (split; [reflexivity|]). reflexivity.
    + unfold bind, commit_, perform, print. cbn [commit server world].
      rewrite Hcommit by reflexivity.
      eexists. eexists. split; [reflexivity|]. simpl.
      repeat split; auto. right; left. repeat split; auto.
      apply insert_user_spec in E2. destruct E2 as (us' & Hu' & ->).
      rewrite Hu in Hu'. inversion Hu'; subst us'. simpl.
      fold is_admin. rewrite filter_app, Hf. reflexivity.
  - unfold bind, commit_, perform, print. cbn [commit server world].
    rewrite Hcommit by reflexivity.
    eexists. eexists. split; [reflexivity|]. simpl.
    repeat split; auto. right; left. repeat split; auto.
    apply insert_user_spec in E1. destruct E1 as (us' & Hu' & ->).
    rewrite Hu in Hu'. inversion Hu'; subst us'. simpl.
    fold is_admin. rewrite filter_app, Hf. reflexivity.
Qed.

(** *** connect_mysql *)

(** A driver block can end with a connection: the module imports, the
    server accepts the account for the database, and the database exists
    or may be created. *)
Definition connectable_with (d : driver) (w : World) : bool :=
  installed d w && reachable w && db_access w
  && match db w with Some _ => true | None => may_create w end.

Definition connectable (w : World) : bool :=
  connectable_with pymysql w || connectable_with mysql_connector w.

#[local] Arguments create_database_sql : simpl never.

Lemma execute_create_database (k : Cur) (cfg : Config) (w : World) :
  is_open (cur_conn k) w = true ->
  ref_execute sem k (create_database_sql cfg) None w
  = if may_create w then
      (set_db w (match db w with Some d => Some d | None => Some empty_db end), inr tt)
    else (w, inl (Exn "OperationalError" "access denied")).
Proof.
  intros Ho. unfold ref_execute. rewrite Ho. reflexivity.
Qed.

Lemma ref_connect_with (d : driver) (cfg : Config) (s : state) :
  exists s' r,
    connect_with (api := api) d cfg true s = (s', inr r)
    /\ stdout s' = stdout s
    /\ tracked (world s') = tracked (world s)
    /\ (forall d', connectable_with d' (world s') = connectable_with d' (world s))
    /\ match r with
       | Some c => live c (world s') /\ connectable_with d (world s) = true
       | None => connectable_with d (world s) = false
       end.
Proof.
  destruct s as [w t o]. destruct w as [hp hm re da mc dbo oc nh rs].
  unfold connect_with, try_except, bind, import_, connect_, cursor_, execute_,
    commit_, close_, perform, ret, connectable_with, live, tracked, is_open.
  destruct d, hp, hm, re, da, mc, dbo as [d0|];
    repeat (progress
              (cbn;
               unfold ref_import, ref_connect, ref_cursor, ref_commit, ref_close, is_open;
               cbn; rewrite ?Nat.eqb_refl;
               try rewrite execute_create_database
                 by (unfold is_open; cbn; now rewrite Nat.eqb_refl)));
    (eexists; eexists; split; [reflexivity|]); simpl; rewrite ?Nat.eqb_refl;
    (split; [reflexivity|]); (split; [reflexivity|]);
    (split; [intros []; reflexivity|]); repeat split; eauto.
Qed.

Lemma ref_connect_mysql (cfg : Config) (s : state) :
  mysql_config environ = inr cfg ->
  exists s' r,
    connect_mysql (api := api) environ true s = (s', inr r)
    /\ stdout s' = stdout s
    /\ tracked (world s') = tracked (world s)
    /\ connectable (world s') = connectable (world s)
    /\ match r with
       | Some c => live c (world s') /\ connectable (world s) = true
       | None => connectable (world s) = false
       end.
Proof.
  intros Hcfg. unfold connect_mysql, bind at 1, lift. rewrite Hcfg.
  unfold bind, connectable.
  destruct (ref_connect_with pymysql cfg s) as (s1 & r1 & E1 & Ho1 & Ht1 & Hc1 & R1).
  rewrite E1. destruct r1 as [c|].
  - exists s1, (Some c). destruct R1 as [Hl1 Hy1].
    rewrite !Hc1, Hy1.
    split; [reflexivity | split; [exact Ho1 | split; [exact Ht1 | split; [reflexivity|]]]].
    now split.
  - destruct (ref_connect_with mysql_connector cfg s1)
      as (s2 & r2 & E2 & Ho2 & Ht2 & Hc2 & R2).
    exists s2, r2. rewrite E2, !Hc2, !Hc1, R1.
    split; [reflexivity|]. split; [congruence|]. split; [congruence|].
    split; [reflexivity|].
    rewrite Hc1 in R2. destruct r2 as [c|]; [|exact R2].
    destruct R2 as [Hl2 Hy2]. rewrite Hy2. now split.
Qed.

(** *** main *)







(** *** Two runs in a row *)




(** *** The seeding step twice *)

Lemma admin_rows_admins (w : World) :
  admin_rows w = match db w with Some d => admins d | None => [] end.
Proof. reflexivity. Qed.

Lemma seed_users_existing (h : string) (d : DB) :
  admins d <> [] -> seed_users h d = d.
Proof.
  unfold admins, seed_users. destruct (users d) as [us|]; [|reflexivity].
  destruct (filter is_admin us); [congruence | reflexivity].
Qed.

Lemma unique_admin_rows (w : World) :
  unique_usernames w -> List.length (admin_rows w) <= 1.
Proof.
  unfold unique_usernames, admin_rows.
  destruct (db w) as [d|]; [|auto]. destruct (users d) as [us|]; [|auto].
  induction us as [|u us IH]; simpl; [auto|].
  intros Hnd. inversion Hnd as [|x l Hnotin Hnd']; subst.
  destruct (String.eqb (username u) "admin") eqn:E; [|now apply IH].
  apply String.eqb_eq in E. simpl.
  assert (Hnone : filter (fun v => String.eqb (username v) "admin") us = []).
  { clear IH Hnd Hnd'. induction us as [|v us IHus]; simpl; [reflexivity|].
    destruct (String.eqb (username v) "admin") eqn:Ev.
    - apply String.eqb_eq in Ev. exfalso. apply Hnotin. simpl. left. congruence.
    - apply IHus. intros Hin. apply Hnotin. simpl. now right. }
  rewrite Hnone. simpl. lia.
Qed.

Lemma seeder_twice (conn : Conn) (id : nat) (s : state) :
  let k := {| cur_conn := conn; cur_id := id |} in
  let s1 := fst (ensure_admin_user (api := api) environ generate_password_hash
                   conn k s) in
  let s2 := fst (ensure_admin_user (api := api) environ generate_password_hash
                   conn k s1) in
  db (world s2) = db (world s1)
  /\ (admin_rows (world s) <> [] -> db (world s1) = db (world s))
  /\ (live conn (world s) -> admin_rows (world s) <> [] ->
      stdout s1 = stdout s
      /\ calls s1 = calls s ++ [(CExecute k select_admin_sql (Some [PStr "admin"]), None);
                                (CFetchone k, None)])
  /\ (admin_rows (world s1) = admin_rows (world s)
      \/ (admin_rows (world s) = [] /\ List.length (admin_rows (world s1)) = 1))
  /\ ((forall e, stdout s1 <> stdout s ++ [admin_warning e]) ->
      admin_rows (world s1) <> [])
  /\ (unique_usernames (world s) ->
      (forall e, stdout s1 <> stdout s ++ [admin_warning e]) ->
      List.length (admin_rows (world s1)) = 1).
Proof.
  intros k s1 s2. subst s1 s2 k.
  destruct (ref_ensure_admin_user conn id s) as (s1 & o1 & E1 & Ho1 & Hop1 & Hd1 & Hs1).
  rewrite E1. cbn [fst].
  destruct (ref_ensure_admin_user conn id s1) as (s2 & o2 & E2 & Ho2 & Hop2 & Hd2 & Hs2).
  rewrite E2. cbn [fst].
  assert (Hopen : is_open conn (world s1) = is_open conn (world s))
    by (unfold is_open; now rewrite Hop1).
  assert (H12 : db (world s2) = db (world s1)).
  { rewrite Hd2, Hopen. destruct (is_open conn (world s) && conn_db conn); [|reflexivity].
    rewrite Hd1. destruct (db (world s)) as [d|]; [|reflexivity].
    simpl. now rewrite seed_users_twice. }
  assert (Hnw1 : (forall e, stdout s1 <> stdout s ++ [admin_warning e]) ->
                 admin_rows (world s1) <> []).
  { intros Hnw.
    destruct Hs1 as [(-> & Hsame & Hex & _)|[(_ & _ & Hone)|(e & -> & _)]].
    + rewrite !admin_rows_admins, Hsame, <- admin_rows_admins. exact Hex.
    + intros Hnil. rewrite Hnil in Hone. discriminate Hone.
    + exfalso. exact (Hnw e Ho1). }
  assert (Hadd : admin_rows (world s1) = admin_rows (world s)
                 \/ (admin_rows (world s) = []
                     /\ List.length (admin_rows (world s1)) = 1)).
  { rewrite !admin_rows_admins, Hd1.
    destruct (is_open conn (world s) && conn_db conn); [|now left].
    destruct (db (world s)) as [d|]; [|now left]. simpl.
    destruct (seed_users_admins admin_hash d) as [->|[Hnone Hone]]; [now left|].
    right. now split. }
  split; [exact H12|]. split; [|split; [|split; [exact Hadd | split; [exact Hnw1|]]]].
  3:{ intros Hu Hnw. specialize (Hnw1 Hnw).
      destruct Hadd as [Heq|[_ Hone]]; [|exact Hone].
      rewrite Heq in *. pose proof (unique_admin_rows (world s) Hu) as Hle.
      destruct (admin_rows (world s)) as [|u [|u' l]]; simpl in *;
        [congruence | reflexivity | lia]. }
  - intros Hex. rewrite Hd1.
    destruct (is_open conn (world s) && conn_db conn); [|reflexivity].
    rewrite admin_rows_admins in Hex.
    destruct (db (world s)) as [d|]; [|reflexivity]. simpl.
    now rewrite seed_users_existing.
  - intros Hl Hex.
    destruct Hs1 as [(-> & _ & _ & Hc)|[(_ & Hnone & _)|(e & _ & _ & Hnone)]].
    + split; [now rewrite Ho1, app_nil_r | exact Hc].
    + congruence.
    + specialize (Hnone Hl). congruence.
Qed.

End Server.

End RefFacts.

(** ** Concrete servers, directories and environments *)

Module Scenario.
Import Ref.

(** Stands for werkzeug's salted hash. *)
Definition hash (p : string) : string := "pbkdf2:sha256$" ++ p.

Definition create_users_sql : string :=
  "CREATE TABLE users (id INT AUTO_INCREMENT PRIMARY KEY, username VARCHAR(64) NOT NULL UNIQUE, email VARCHAR(255) UNIQUE, password_hash VARCHAR(255) NOT NULL, role ENUM('user','admin','customer') NOT NULL DEFAULT 'customer')".

(** A server that creates [users] on [create_users_sql], rejects the
    statement [BAD SQL] and accepts any other statement without a change
    the runner could see. *)
Definition sem (q : string) (d : DB) : option DB :=
  if String.eqb q "BAD SQL" then None
  else if String.eqb q create_users_sql then
    match users d with
    | Some _ => None
    | None =>
        Some {| schema_migrations := schema_migrations d; users := Some [];
                role_domain := Some ["user"; "admin"; "customer"];
                tables := tables d |}
    end
  else Some d.


Definition server_with (pm mc acc : bool) (d : option DB) : World :=
  {| has_pymysql := pm; has_mysql_connector := mc; reachable := true;
     db_access := acc; may_create := true; db := d;
     open_conns := []; next_handle := 0; results := [] |}.

(** A server without the database yet, reached through [pymysql]. *)
Definition fresh : World := server_with true false true None.

(** A server with the empty database. *)
Definition provisioned : World := server_with true false true (Some empty_db).

(** Both drivers installed; the account may create databases but not use
    the configured one. *)
Definition locked_out : World := server_with true true false None.

(** An older schema: [users.role] does not know [admin]. *)
Definition old_schema : World :=
  {| has_pymysql := true; has_mysql_connector := false; reachable := true;
     db_access := true; may_create := true;
     db := Some {| schema_migrations := Some ["0001_init.sql"]; users := Some [];
                   role_domain := Some ["user"]; tables := [] |};
     open_conns := [0]; next_handle := 2; results := [] |}.

Definition old_conn : Conn := {| conn_id := 0; conn_db := true |}.
Definition old_cur : Cur := {| cur_conn := old_conn; cur_id := 1 |}.

(** Connection 0 is open on a database that holds the empty tracking table
    only. *)
Definition ready : World :=
  {| has_pymysql := true; has_mysql_connector := false; reachable := true;
     db_access := true; may_create := true;
     db := Some (with_migrations empty_db (Some []));
     open_conns := [0]; next_handle := 1; results := [] |}.

Definition three_units : Directory :=
  [("0010_add_index.sql", inr "CREATE INDEX idx_users_email ON users (email)");
   ("README.md", inr "notes");
   ("0001_init.sql", inr (create_users_sql ++ "; BAD SQL ;
SELECT 1;")%string);
   ("0002_add_column.sql", inr "ALTER TABLE users ADD COLUMN age INT")].




Definition bad_port : Environ := [("MYSQL_PORT", "abc")].

Definition run (sem0 : string -> DB -> option DB) (env : Environ) (dir : Directory)
           (w : World) : state World Conn Cur * (exn + unit) :=
  main (api := server sem0) env dir hash (start w).






(** Connection 0 of [ready] has been lost. *)
Definition lost : World :=
  {| has_pymysql := true; has_mysql_connector := false; reachable := true;
     db_access := true; may_create := true;
     db := Some (with_migrations empty_db (Some []));
     open_conns := []; next_handle := 1; results := [] |}.

Definition lost_apply : state World Conn Cur * (exn + unit) :=
  apply_migration (api := server sem) three_units old_conn "0001_init.sql" (start lost).

(** [connect_mysql(True)] where the account is locked out of the database. *)
Definition locked_out_connect : state World Conn Cur * (exn + option Conn) :=
  connect_mysql (api := server sem) [] true (start locked_out).

(** A state in which connection 0 is open and the tracking table records
    the first unit. *)
Definition old_state : state World Conn Cur := start old_schema.

(** The server of [old_schema] after the admin lookup, after its
    [fetchone], and after the refused insert with the role. *)
Definition old_looked_up : World :=
  fst (execute (DBAPI := server sem) old_cur select_admin_sql (Some [PStr "admin"])
         old_schema).
Definition old_fetched : World :=
  fst (fetchone (DBAPI := server sem) old_cur old_looked_up).
Definition old_refused : World :=
  fst (execute (DBAPI := server sem) old_cur insert_admin_role_sql
         (admin_role_params [] hash) old_fetched).

End Scenario.

(** ** The claims *)

(** The statements [Scenario.sem] accepts leave the tracking table alone. *)
Lemma scenario_sem_keeps : RefFacts.keeps_tracking Scenario.sem.
Proof.
  intros q d d'. unfold Scenario.sem.
  destruct (String.eqb q "BAD SQL"); [discriminate|].
  destruct (String.eqb q Scenario.create_users_sql).
  - destruct (Ref.users d); [discriminate|]. intros H. inversion H. reflexivity.
  - intros H. inversion H. reflexivity.
Qed.






(** C4.  With every driver, [already_applied] returns a boolean and never
    raises: [False] when the lookup statement raises or [fetchone] raises,
    and [bool(row)] of the fetched row otherwise.  Against the reference
    server, on a live connection, it returns whether the name is recorded in
    [schema_migrations], and [False] when the table is missing. *)
Theorem already_applied_lenient :
  (forall (W Conn Cur : Type) (api : DBAPI W Conn Cur) (k : Cur) (name : string)
          (s : state W Conn Cur),
      exists s' b,
        already_applied k name s = (s', inr b)
        /\ (forall e, snd (execute k select_migration_sql (Some [PStr name]) (world s))
                      = inl e -> b = false)
        /\ (forall w1 u, execute k select_migration_sql (Some [PStr name]) (world s)
                         = (w1, inr u) ->
                         match snd (fetchone k w1) with
                         | inl _ => b = false
                         | inr row => b = py_bool row
                         end))
  /\ (forall (sem : string -> Ref.DB -> option Ref.DB) (k : Ref.Cur) (n : string)
             (s : state Ref.World Ref.Conn Ref.Cur),
        RefFacts.live (Ref.cur_conn k) (world s) ->
        exists s',
          already_applied (api := Ref.server sem) k n s
          = (s', inr (match Ref.tracked (world s) with
                      | Some l => Ref.mem n l
                      | None => false
                      end))).
Proof.
  split.
  - intros W Conn Cur api k name s.
    destruct (already_applied_spec k name s) as (s' & b & E & _ & H1 & H2).
    now exists s', b.
  - intros sem k n s Hl. destruct (Ref.tracked (world s)) as [l|] eqn:Ht.
    + destruct (RefFacts.ref_already_applied sem k n l s Hl Ht) as (s' & E & _).
      now exists s'.
    + exact (RefFacts.ref_already_applied_no_table sem k n s Hl Ht).
Qed.

Lemma already_applied_lenient_witness :
  RefFacts.live (Ref.cur_conn Scenario.old_cur) (world Scenario.old_state)
  /\ (exists s',
         already_applied (api := Ref.server Scenario.sem) Scenario.old_cur
           "0001_init.sql" Scenario.old_state = (s', inr true))
  /\ (exists s',
         already_applied (api := Ref.server Scenario.sem) Scenario.old_cur
           "0002_add_column.sql" Scenario.old_state = (s', inr false)).
Proof.
  assert (Hl : RefFacts.live (Ref.cur_conn Scenario.old_cur) (world Scenario.old_state)).
  { unfold RefFacts.live. split; [reflexivity|]. split; [reflexivity|].
    eexists. reflexivity. }
  split; [exact Hl|]. split.
  - exact (proj2 already_applied_lenient Scenario.sem Scenario.old_cur
             "0001_init.sql" Scenario.old_state Hl).
  - exact (proj2 already_applied_lenient Scenario.sem Scenario.old_cur
             "0002_add_column.sql" Scenario.old_state Hl).
Defined.

(** C10, as stated, fails: with [MYSQL_PORT=abc] the call to
    [mysql_config], which is outside both [try] blocks, raises
    [ValueError], and [connect_mysql] passes it on. *)
Lemma connect_mysql_raises_on_bad_port :
  snd (connect_mysql (api := Ref.server Scenario.sem) Scenario.bad_port true
         (Ref.start Scenario.fresh))
  = inl (Exn "ValueError" "invalid literal for int() with base 10: 'abc'").
Proof. reflexivity. Qed.

(** C10 (amended).  For every environment whose [MYSQL_PORT] is an
    integer literal, so that [mysql_config] returns, and for every driver,
    whatever its calls raise, [connect_mysql] returns a connection or [None]
    and raises nothing. *)
Theorem connect_mysql_never_raises
        (W Conn Cur : Type) (api : DBAPI W Conn Cur) (env : Environ) (cfg : Config)
        (flag : bool) (s : state W Conn Cur) :
  mysql_config env = inr cfg ->
  exists s' r, connect_mysql env flag s = (s', inr r).
Proof.
  intros Hcfg.
  destruct (connect_mysql_spec env cfg flag s Hcfg) as (s' & r & _ & _ & _ & E & _).
  now exists s', r.
Qed.

Lemma connect_mysql_never_raises_witness :
  mysql_config [("MYSQL_PORT", " 3_307 ")]
  = inr {| host := "127.0.0.1"; port := 3307; user := "root";
           password := "root@123"; database := "todolist" |}
  /\ exists s' r,
      connect_mysql (api := Ref.server Scenario.sem) [("MYSQL_PORT", " 3_307 ")] true
        (Ref.start Scenario.locked_out) = (s', inr r).
Proof.
  split; [reflexivity|].
  exact (connect_mysql_never_raises _ _ _ (Ref.server Scenario.sem)
           [("MYSQL_PORT", " 3_307 ")] _ true (Ref.start Scenario.locked_out) eq_refl).
Defined.

(** C9: the code leaves its connection open.  On a server with the
    database in place [main] connects at once, runs to its end and returns
    with connection 0 still open; its trace holds no [close] call at all. *)
Lemma main_leaves_connection_open :
  snd (Scenario.run Scenario.sem [] Scenario.three_units Scenario.provisioned) = inr tt
  /\ Ref.open_conns
       (world (fst (Scenario.run Scenario.sem [] Scenario.three_units
                      Scenario.provisioned))) = [0]
  /\ close_calls
       (calls (fst (Scenario.run Scenario.sem [] Scenario.three_units
                      Scenario.provisioned))) = 0.
Proof.
  split; [vm_compute; reflexivity|]. split; vm_compute; reflexivity.
Qed.

(** With every driver: [main] calls [connect_mysql] once; that call opens
    at most one connection to the named database, exactly one when it
    returns a connection, and [main] uses it for the rest of the run.  After
    [connect_mysql] has returned, [main] makes no connect and no close call
    on any path. *)
Theorem main_holds_one_connection
        (W Conn Cur : Type) (api : DBAPI W Conn Cur) (env : Environ) (dir : Directory)
        (hash : string -> string) (s : state W Conn Cur) :
  exists s1 r1 t1 t2 o,
    connect_mysql env true s = (s1, r1)
    /\ extends s s1 t1 []
    /\ acquired t1 = match r1 with inr (Some _) => 1 | _ => 0 end
    /\ extends s1 (fst (main env dir hash s)) t2 o
    /\ Forall session_call t2.
Proof. apply main_after_connect. Qed.

(** C5, as stated, fails: with both driver modules installed and an
    account that may create databases but not use the named one,
    [connect_mysql(True)] goes through connect, create, reconnect with
    [pymysql] and then once more with [mysql.connector]: four direct
    connects and two create-database statements before it returns [None]. *)
Lemma connect_mysql_retries_with_second_driver :
  snd Scenario.locked_out_connect = inr None
  /\ direct_connects (calls (fst Scenario.locked_out_connect)) = 4
  /\ create_statements (calls (fst Scenario.locked_out_connect)) = 2
  /\ ~ single_retry (calls (fst Scenario.locked_out_connect)).
Proof.
  split; [vm_compute; reflexivity|]. split; [vm_compute; reflexivity|].
  split; [vm_compute; reflexivity|].
  intros [H _]. vm_compute in H. lia.
Qed.

(** C5 (amended).  When the port parses, [connect_mysql] runs one block
    per driver, [pymysql] and then [mysql.connector], the second only when
    the first yields no connection.  A block imports its module and tries a
    direct connect to the named database; when that fails and
    [create_db_if_missing] is set, it connects without a database, opens a
    cursor, executes [CREATE DATABASE IF NOT EXISTS ... CHARACTER SET utf8mb4
    COLLATE utf8mb4_unicode_ci], commits, closes that connection and retries
    the direct connect once, stopping at the first of these calls that
    raises.  So each block makes at most two direct connects and one
    create-database statement, and [None] is returned only after the last
    block. *)
Theorem connect_mysql_per_driver
        (W Conn Cur : Type) (api : DBAPI W Conn Cur) (env : Environ) (cfg : Config)
        (flag : bool) (s : state W Conn Cur) :
  mysql_config env = inr cfg ->
  exists s' r t1 r1 t2,
    connect_mysql env flag s = (s', inr r)
    /\ calls s' = calls s ++ t1 ++ t2
    /\ attempt pymysql cfg flag t1 r1
    /\ match r1 with
       | Some c => t2 = [] /\ r = Some c
       | None => attempt mysql_connector cfg flag t2 r
       end
    /\ single_retry t1 /\ single_retry t2.
Proof.
  intros Hcfg.
  destruct (connect_mysql_spec env cfg flag s Hcfg)
    as (s' & r & t1 & r1 & t2 & E & [Hc _] & A1 & A2).
  exists s', r, t1, r1, t2.
  split; [exact E|]. split; [exact Hc|]. split; [exact A1|]. split; [exact A2|].
  split; [exact (attempt_single_retry _ _ _ _ _ A1)|].
  destruct r1 as [c|].
  - destruct A2 as [-> _]. split; apply Nat.le_0_l.
  - exact (attempt_single_retry _ _ _ _ _ A2).
Qed.

Lemma connect_mysql_per_driver_witness :
  mysql_config [] = inr {| host := "127.0.0.1"; port := 3306; user := "root";
                           password := "root@123"; database := "todolist" |}
  /\ exists s' r t1 r1 t2,
      connect_mysql (api := Ref.server Scenario.sem) [] true
        (Ref.start Scenario.locked_out) = (s', inr r)
      /\ calls s' = calls (Ref.start Scenario.locked_out) ++ t1 ++ t2
      /\ attempt pymysql
           {| host := "127.0.0.1"; port := 3306; user := "root";
              password := "root@123"; database := "todolist" |} true t1 r1
      /\ match r1 with
         | Some c => t2 = [] /\ r = Some c
         | None =>
             attempt mysql_connector
               {| host := "127.0.0.1"; port := 3306; user := "root";
                  password := "root@123"; database := "todolist" |} true t2 r
         end
      /\ single_retry t1 /\ single_retry t2.
Proof.
  split; [reflexivity|].
  exact (connect_mysql_per_driver _ _ _ (Ref.server Scenario.sem) [] _ true
           (Ref.start Scenario.locked_out) eq_refl).
Defined.

(** C2, as stated, fails: the record [INSERT] is outside the [try], so
    when it raises nothing is recorded.  On a connection that has been lost
    every statement of the unit fails and is logged, the [INSERT] raises as
    well, [apply_migration] raises and the table records nothing. *)
Lemma apply_migration_unrecorded_on_lost_connection :
  snd Scenario.lost_apply = inl (Exn "InterfaceError" "closed")
  /\ List.length (stdout (fst Scenario.lost_apply)) = 3
  /\ Ref.tracked (world (fst Scenario.lost_apply)) = Some [].
Proof.
  split; [vm_compute; reflexivity|]. split; vm_compute; reflexivity.
Qed.

(** C2 (amended).  With every driver, once its cursor is open
    [apply_migration] executes every statement of the file in order whatever
    the earlier ones did, prints one warning per statement that raised (unit
    name, the first 80 characters of the statement, the error), then
    executes the record [INSERT] for the unit's name regardless of how many
    statements failed, and commits when that went through; it raises what
    the [INSERT] or the commit raised, and only that.  A unit whose lookup
    finds the row is skipped: [main] prints the [Skipping] line and calls
    nothing more for it.  Against the reference server, a normal return of
    [apply_migration] leaves the name recorded, and where the connection is
    live, the table exists, the name is new and no statement touches the
    table, [apply_migration] does return normally, whichever statements
    fail. *)
Theorem apply_migration_isolates_failures :
  (forall (W Conn Cur : Type) (api : DBAPI W Conn Cur) (dir : Directory) (conn : Conn)
          (path text : string) (s : state W Conn Cur) (w1 : W) (k : Cur),
      read_text dir path = inr text ->
      cursor conn (world s) = (w1, inr k) ->
      exists s' r xs x tail,
        apply_migration dir conn path s = (s', r)
        /\ List.length xs = List.length (statements text)
        /\ calls s'
           = calls s
               ++ (CCursor conn, None)
                    :: combine (map (fun q => CExecute k q None) (statements text)) xs
                    ++ (CExecute k insert_migration_sql (Some [PStr path]), x) :: tail
        /\ stdout s' = stdout s ++ warnings path (combine (statements text) xs)
        /\ match x with
           | Some e => tail = [] /\ r = inl e
           | None =>
               exists y, tail = [(CCommit conn, y)]
                         /\ r = match y with Some e => inl e | None => inr tt end
           end)
  /\ (forall (W Conn Cur : Type) (api : DBAPI W Conn Cur) (dir : Directory)
             (conn : Conn) (k : Cur) (path : string) (s s1 : state W Conn Cur),
        already_applied k path s = (s1, inr true) ->
        migrate_one dir conn k path s
        = ({| world := world s1; calls := calls s1;
              stdout := stdout s1 ++ [skipping_line path] |}, inr tt))
  /\ (forall (sem : string -> Ref.DB -> option Ref.DB) (dir : Directory)
             (conn : Ref.Conn) (n : string) (s s' : state Ref.World Ref.Conn Ref.Cur),
        apply_migration (api := Ref.server sem) dir conn n s = (s', inr tt) ->
        exists l, Ref.tracked (world s') = Some l /\ Ref.mem n l = true)
  /\ (forall (sem : string -> Ref.DB -> option Ref.DB) (dir : Directory)
             (conn : Ref.Conn) (n text : string) (l : list string)
             (s : state Ref.World Ref.Conn Ref.Cur),
        RefFacts.keeps_tracking sem ->
        RefFacts.live conn (world s) -> Ref.tracked (world s) = Some l ->
        Ref.mem n l = false -> read_text dir n = inr text ->
        exists s',
          apply_migration (api := Ref.server sem) dir conn n s = (s', inr tt)
          /\ RefFacts.live conn (world s')
          /\ Ref.tracked (world s') = Some (l ++ [n])).
Proof.
  split; [|split; [|split]].
  - intros W Conn Cur api dir conn path text s w1 k Htext Hcur.
    destruct (apply_migration_spec dir conn path text s w1 k Htext Hcur)
      as (s' & r & xs & x & tail & E & Hlen & [Hc Ho] & Hx).
    exists s', r, xs, x, tail. now repeat split.
  - intros W Conn Cur api dir conn k path s s1 E. unfold migrate_one, bind.
    now rewrite E.
  - intros sem dir conn n s s'. apply RefFacts.ref_apply_migration_records.
  - intros sem dir conn n text l s. apply RefFacts.ref_apply_migration.
Qed.

Lemma apply_migration_isolates_failures_witness :
  statements (Scenario.create_users_sql ++ "; BAD SQL ;
SELECT 1;")
  = [Scenario.create_users_sql; "BAD SQL"; "SELECT 1"]
  /\ stdout (fst (apply_migration (api := Ref.server Scenario.sem) Scenario.three_units
                     Scenario.old_conn "0001_init.sql" (Ref.start Scenario.ready)))
     = ["Warning: failed statement in 0001_init.sql: BAD SQL... (BAD SQL)"]
  /\ (exists l,
         Ref.tracked
           (world (fst (apply_migration (api := Ref.server Scenario.sem)
                          Scenario.three_units Scenario.old_conn "0001_init.sql"
                          (Ref.start Scenario.ready)))) = Some l
         /\ Ref.mem "0001_init.sql" l = true)
  /\ (exists s',
         apply_migration (api := Ref.server Scenario.sem) Scenario.three_units
           Scenario.old_conn "0001_init.sql" (Ref.start Scenario.ready) = (s', inr tt)
         /\ RefFacts.live Scenario.old_conn (world s')
         /\ Ref.tracked (world s') = Some ([] ++ ["0001_init.sql"])).
Proof.
  split; [reflexivity|]. split; [vm_compute; reflexivity|]. split.
  - apply (proj1 (proj2 (proj2 apply_migration_isolates_failures))
             Scenario.sem Scenario.three_units Scenario.old_conn "0001_init.sql"
             (Ref.start Scenario.ready)).
    vm_compute. reflexivity.
  - apply (proj2 (proj2 (proj2 apply_migration_isolates_failures))
             Scenario.sem Scenario.three_units Scenario.old_conn "0001_init.sql"
             (Scenario.create_users_sql ++ "; BAD SQL ;
SELECT 1;")%string [] (Ref.start Scenario.ready)).
    + exact scenario_sem_keeps.
    + unfold RefFacts.live. split; [reflexivity|]. split; [reflexivity|].
      eexists. reflexivity.
    + reflexivity.
    + reflexivity.
    + reflexivity.
Defined.

(** C6.  With every driver, when the lookup of the seeding step returns a
    row the step makes no other call and prints nothing.  Against the
    reference server, from every state: a second call of the seeding step
    leaves the database as the first call left it; where a
    row named [admin] exists the step changes nothing, and on a live
    connection it then makes the lookup and its [fetchone] and no other call
    and prints nothing; the step adds a row with the reserved name only
    where there is none, and then exactly one; after a call that printed no
    warning such a row exists; and where the usernames are unique, as the
    [UNIQUE] constraint keeps them, there is exactly one such row after a
    call that printed no warning. *)
Theorem ensure_admin_user_idempotent :
  (forall (W Conn Cur : Type) (api : DBAPI W Conn Cur) (env : Environ)
          (hash : string -> string) (conn : Conn) (k : Cur) (s : state W Conn Cur)
          (w1 w2 : W) (u : unit) (row : option Row),
      execute k select_admin_sql (Some [PStr "admin"]) (world s) = (w1, inr u) ->
      fetchone k w1 = (w2, inr row) ->
      py_bool row = true ->
      ensure_admin_user env hash conn k s
      = ({| world := w2;
            calls := calls s ++ [(CExecute k select_admin_sql (Some [PStr "admin"]), None);
                                 (CFetchone k, None)];
            stdout := stdout s |}, inr tt))
  /\ (forall (sem : string -> Ref.DB -> option Ref.DB) (env : Environ)
             (hash : string -> string) (conn : Ref.Conn) (id : nat)
             (s : state Ref.World Ref.Conn Ref.Cur),
        let k := {| Ref.cur_conn := conn; Ref.cur_id := id |} in
        let s1 := fst (ensure_admin_user (api := Ref.server sem) env hash conn k s) in
        let s2 := fst (ensure_admin_user (api := Ref.server sem) env hash conn k s1) in
        Ref.db (world s2) = Ref.db (world s1)
        /\ (Ref.admin_rows (world s) <> [] -> Ref.db (world s1) = Ref.db (world s))
        /\ (RefFacts.live conn (world s) -> Ref.admin_rows (world s) <> [] ->
            stdout s1 = stdout s
            /\ calls s1
               = calls s ++ [(CExecute k select_admin_sql (Some [PStr "admin"]), None);
                             (CFetchone k, None)])
        /\ (Ref.admin_rows (world s1) = Ref.admin_rows (world s)
            \/ (Ref.admin_rows (world s) = []
                /\ List.length (Ref.admin_rows (world s1)) = 1))
        /\ ((forall e, stdout s1 <> stdout s ++ [admin_warning e]) ->
            Ref.admin_rows (world s1) <> [])
        /\ (Ref.unique_usernames (world s) ->
            (forall e, stdout s1 <> stdout s ++ [admin_warning e]) ->
            List.length (Ref.admin_rows (world s1)) = 1)).
Proof.
  split.
  - intros W Conn Cur api env hash conn k s w1 w2 u row.
    apply ensure_admin_user_noop.
  - intros sem env hash conn id s. exact (RefFacts.seeder_twice sem env hash conn id s).
Qed.

Lemma ensure_admin_user_idempotent_witness :
  Ref.unique_usernames (world Scenario.old_state)
  /\ (forall e,
         stdout (fst (ensure_admin_user (api := Ref.server Scenario.sem) []
                        Scenario.hash Scenario.old_conn Scenario.old_cur
                        Scenario.old_state))
         <> stdout Scenario.old_state ++ [admin_warning e])
  /\ List.length
       (Ref.admin_rows
          (world (fst (ensure_admin_user (api := Ref.server Scenario.sem) []
                         Scenario.hash Scenario.old_conn Scenario.old_cur
                         Scenario.old_state)))) = 1.
Proof.
  assert (Hu : Ref.unique_usernames (world Scenario.old_state)) by constructor.
  assert (H : forall e,
             stdout (fst (ensure_admin_user (api := Ref.server Scenario.sem) []
                            Scenario.hash Scenario.old_conn Scenario.old_cur
                            Scenario.old_state))
             <> stdout Scenario.old_state ++ [admin_warning e]).
  { intros e. vm_compute. discriminate. }
  split; [exact Hu|]. split; [exact H|].
  exact (proj2 (proj2 (proj2 (proj2 (proj2
           (proj2 ensure_admin_user_idempotent Scenario.sem [] Scenario.hash
              Scenario.old_conn 1 Scenario.old_state))))) Hu H).
Defined.

(** C7.  With every driver the seeding step never raises.  It ends on a
    driver call: when that call raised, the step printed the warning line
    with its error and nothing else; when it went through, the step printed
    the confirmation or nothing.  When the lookup finds no row and the
    insert with the role raises, the insert without the role column is the
    next call.  And once the units are done, [main] prints the completion
    line and returns normally, whatever the seeding step meets. *)
Theorem ensure_admin_user_lenient :
  (forall (W Conn Cur : Type) (api : DBAPI W Conn Cur) (env : Environ)
          (hash : string -> string) (conn : Conn) (k : Cur) (s : state W Conn Cur),
      exists s' t c x o,
        ensure_admin_user env hash conn k s = (s', inr tt)
        /\ calls s' = calls s ++ t ++ [(c, x)]
        /\ stdout s' = stdout s ++ o
        /\ match x with
           | Some e => o = [admin_warning e]
           | None => o = [] \/ o = [admin_created_line]
           end)
  /\ (forall (W Conn Cur : Type) (api : DBAPI W Conn Cur) (env : Environ)
             (hash : string -> string) (conn : Conn) (k : Cur) (s : state W Conn Cur)
             (w1 w2 w3 : W) (u : unit) (row : option Row) (e : exn),
        execute k select_admin_sql (Some [PStr "admin"]) (world s) = (w1, inr u) ->
        fetchone k w1 = (w2, inr row) ->
        py_bool row = false ->
        execute k insert_admin_role_sql (admin_role_params env hash) w2 = (w3, inl e) ->
        exists s' tail,
          ensure_admin_user env hash conn k s = (s', inr tt)
          /\ calls s'
             = calls s
                 ++ [(CExecute k select_admin_sql (Some [PStr "admin"]), None);
                     (CFetchone k, None);
                     (CExecute k insert_admin_role_sql (admin_role_params env hash),
                      Some e);
                     (CExecute k insert_admin_sql (admin_params env hash),
                      raised (snd (execute k insert_admin_sql (admin_params env hash)
                                     w3)))]
                 ++ tail)
  /\ (forall (W Conn Cur : Type) (api : DBAPI W Conn Cur) (env : Environ)
             (dir : Directory) (hash : string -> string) (conn : Conn) (cur : Cur)
             (s s1 s2 s3 : state W Conn Cur),
        connect_mysql env true s = (s1, inr (Some conn)) ->
        ensure_tracking_table conn s1 = (s2, inr cur) ->
        for_each (load_migrations dir) (migrate_one dir conn cur) s2 = (s3, inr tt) ->
        exists s' o,
          main env dir hash s = (s', inr tt)
          /\ stdout s' = stdout s3 ++ complete_line :: o).
Proof.
  split; [|split].
  - intros W Conn Cur api env hash conn k s.
    destruct (ensure_admin_user_spec env hash conn k s)
      as (s' & t & c & x & o & E & [Hc Ho] & Hx).
    now exists s', t, c, x, o.
  - intros W Conn Cur api env hash conn k s w1 w2 w3 u row e.
    apply ensure_admin_user_fallback.
  - intros W Conn Cur api env dir hash conn cur s s1 s2 s3.
    apply main_reports_completion.
Qed.

Lemma ensure_admin_user_lenient_witness :
  exists s' tail,
    ensure_admin_user (api := Ref.server Scenario.sem) [] Scenario.hash
      Scenario.old_conn Scenario.old_cur Scenario.old_state = (s', inr tt)
    /\ calls s'
       = calls Scenario.old_state
           ++ [(CExecute Scenario.old_cur select_admin_sql (Some [PStr "admin"]), None);
               (CFetchone Scenario.old_cur, None);
               (CExecute Scenario.old_cur insert_admin_role_sql
                  (admin_role_params [] Scenario.hash),
                Some (Exn "DataError" "role"));
               (CExecute Scenario.old_cur insert_admin_sql
                  (admin_params [] Scenario.hash),
                raised (snd (execute (DBAPI := Ref.server Scenario.sem) Scenario.old_cur
                               insert_admin_sql (admin_params [] Scenario.hash)
                               Scenario.old_refused)))]
           ++ tail.
Proof.
  apply (proj1 (proj2 ensure_admin_user_lenient) _ _ _ (Ref.server Scenario.sem)
           [] Scenario.hash Scenario.old_conn Scenario.old_cur Scenario.old_state
           Scenario.old_looked_up Scenario.old_fetched Scenario.old_refused tt None
           (Exn "DataError" "role")).
  - vm_compute. reflexivity.
  - vm_compute. reflexivity.
  - reflexivity.
  - vm_compute. reflexivity.
Defined.




(** * More of the code

    Properties of the functions above that the claims leave out. *)

(** ** The statements of a migration text *)

(** The bytes of a string. *)
Definition bytes (s : string) : list ascii := list_ascii_of_string s.

(** Every byte of [s] is a continuation byte. *)
Definition continued (s : string) : bool := forallb continuation (bytes s).

(** A character: a byte that is no continuation byte, then continuation
    bytes only.  The first character of a text may start with any byte. *)
Definition is_char (ch : string) : bool :=
  match ch with
  | String c r => negb (continuation c) && continued r
  | EmptyString => false
  end.

Definition is_head (ch : string) : bool :=
  match ch with
  | String c r => continued r
  | EmptyString => false
  end.

Definition well_cut (l : list string) : Prop :=
  match l with
  | [] => True
  | h :: t => is_head h = true /\ Forall (fun ch => is_char ch = true) t
  end.

Lemma is_char_head (ch : string) : is_char ch = true -> is_head ch = true.
Proof.
  destruct ch as [|c r]; simpl; [discriminate|]. intros H.
  apply andb_prop in H. tauto.
Qed.

Lemma is_char_start (ch : string) : is_char ch = true -> starts_continued ch = false.
Proof.
  destruct ch as [|c r]; simpl; [discriminate|]. intros H.
  apply andb_prop in H. destruct H as [H _]. now apply negb_true_iff in H.
Qed.

Lemma join_chars (s : string) : join (chars s) = s.
Proof.
  induction s as [|c s IH]; simpl; [reflexivity|].
  destruct (chars s) as [|ch l].
  - simpl in *. now rewrite <- IH.
  - destruct (starts_continued s); simpl in *; now rewrite IH.
Qed.

Lemma chars_nil (s : string) : chars s = [] -> s = "".
Proof. intros H. rewrite <- (join_chars s), H. reflexivity. Qed.

Lemma chars_start (s : string) :
  match chars s with
  | h :: _ => starts_continued h = starts_continued s
  | [] => True
  end.
Proof.
  destruct s as [|c s]; simpl; [exact I|].
  destruct (chars s) as [|ch l]; [reflexivity|].
  now destruct (starts_continued s).
Qed.

Lemma chars_well_cut (s : string) : well_cut (chars s).
Proof.
  induction s as [|c s IH]; simpl; [exact I|].
  pose proof (chars_start s) as Hs.
  destruct (chars s) as [|ch l] eqn:E.
  - simpl. split; [reflexivity | constructor].
  - destruct IH as [Hh Ht].
    destruct (starts_continued s) eqn:Es.
    + simpl. split; [|exact Ht].
      destruct ch as [|d r]; [discriminate|]. simpl in *.
      unfold continued. simpl. fold (continued r). now rewrite Hs, Hh.
    + simpl. split; [reflexivity|]. constructor; [|exact Ht].
      destruct ch as [|d r]; [discriminate|]. simpl in *.
      now rewrite Hs, Hh.
Qed.

Lemma chars_cons (c : ascii) (s : string) :
  chars (String c s)
  = match chars s with
    | ch :: l => if starts_continued s then String c ch :: l
                 else String c "" :: ch :: l
    | [] => [String c ""]
    end.
Proof. reflexivity. Qed.

Lemma chars_glue (c : ascii) (r rest : string) :
  continued r = true -> starts_continued rest = false ->
  chars (String c (r ++ rest)) = String c r :: chars rest.
Proof.
  revert c. induction r as [|d r IH]; intros c Hr Hrest.
  - simpl. rewrite Hrest. now destruct (chars rest).
  - unfold continued in Hr. simpl in Hr. apply andb_prop in Hr. destruct Hr as [Hd Hr].
    cbn [append]. rewrite chars_cons, (IH d Hr Hrest).
    cbn [starts_continued]. now rewrite Hd.
Qed.

Lemma join_start (l : list string) :
  Forall (fun ch => is_char ch = true) l -> starts_continued (join l) = false.
Proof.
  destruct 1 as [|ch l Hch _]; [reflexivity|].
  destruct ch as [|c r]; [discriminate|]. simpl in *.
  apply andb_prop in Hch. destruct Hch as [H _]. now apply negb_true_iff in H.
Qed.

Lemma chars_join (l : list string) : well_cut l -> chars (join l) = l.
Proof.
  destruct l as [|h t]; [reflexivity|]. intros [Hh Ht].
  revert h Hh. induction Ht as [|ch t Hch Ht IH]; intros h Hh.
  - destruct h as [|c r]; [discriminate|]. simpl in Hh. simpl join.
    rewrite (chars_glue c r "" Hh eq_refl). reflexivity.
  - destruct h as [|c r]; [discriminate|]. simpl in Hh.
    change (join (String c r :: ch :: t)) with (String c (r ++ join (ch :: t))).
    rewrite (chars_glue c r (join (ch :: t)) Hh).
    + f_equal. apply IH. now apply is_char_head.
    + apply join_start. now constructor.
Qed.

(** *** strip *)

Definition starts_with_space (l : list string) : bool :=
  match l with
  | ch :: _ => py_isspace ch
  | [] => false
  end.

Lemma lstrip_no_space (l : list string) : starts_with_space (lstrip_chars l) = false.
Proof.
  induction l as [|c l IH]; simpl; [reflexivity|].
  destruct (py_isspace c) eqn:E; [exact IH | simpl; exact E].
Qed.

Lemma lstrip_fixed (l : list string) : starts_with_space l = false -> lstrip_chars l = l.
Proof. destruct l as [|c l]; simpl; [reflexivity | now intros ->]. Qed.

Lemma rstrip_no_space (l : list string) :
  starts_with_space l = false -> starts_with_space (rstrip_chars l) = false.
Proof.
  destruct l as [|c l]; simpl; [reflexivity|]. intros E.
  destruct (rstrip_chars l); simpl; rewrite ?E; simpl; rewrite ?E; reflexivity.
Qed.

Lemma rstrip_idem (l : list string) : rstrip_chars (rstrip_chars l) = rstrip_chars l.
Proof.
  induction l as [|c l IH]; simpl; [reflexivity|].
  destruct (rstrip_chars l) as [|c' r] eqn:E.
  - destruct (py_isspace c) eqn:Ec; simpl; [reflexivity | now rewrite Ec].
  - simpl in *. now rewrite IH.
Qed.

Lemma well_cut_tail (h : string) (t : list string) : well_cut (h :: t) -> well_cut t.
Proof.
  intros [_ Ht]. destruct Ht as [|ch t Hch Ht]; [exact I|].
  split; [now apply is_char_head | exact Ht].
Qed.

Lemma lstrip_well_cut (l : list string) : well_cut l -> well_cut (lstrip_chars l).
Proof.
  induction l as [|c l IH]; intros H; simpl; [exact I|].
  destruct (py_isspace c); [|exact H]. apply IH. exact (well_cut_tail _ _ H).
Qed.

Lemma rstrip_incl (l : list string) : incl (rstrip_chars l) l.
Proof.
  induction l as [|c l IH]; simpl; [apply incl_refl|].
  destruct (rstrip_chars l) as [|c' r].
  - destruct (py_isspace c); [apply incl_nil_l | apply incl_cons; [now left | apply incl_nil_l]].
  - apply incl_cons; [now left | now apply incl_tl].
Qed.

Lemma lstrip_incl (l : list string) : incl (lstrip_chars l) l.
Proof.
  induction l as [|c l IH]; simpl; [apply incl_refl|].
  destruct (py_isspace c); [now apply incl_tl | apply incl_refl].
Qed.

Lemma rstrip_well_cut (l : list string) : well_cut l -> well_cut (rstrip_chars l).
Proof.
  destruct l as [|h t]; [intros; exact I|]. intros [Hh Ht]. simpl.
  assert (Hr : Forall (fun ch => is_char ch = true) (rstrip_chars t)).
  { apply Forall_forall. intros x Hx. rewrite Forall_forall in Ht.
    apply Ht. now apply rstrip_incl. }
  destruct (rstrip_chars t) as [|c' r].
  - destruct (py_isspace h); [exact I | split; [exact Hh | constructor]].
  - split; [exact Hh | exact Hr].
Qed.

Lemma strip_chars_eq (s : string) :
  chars (strip s) = rstrip_chars (lstrip_chars (chars s)).
Proof.
  unfold strip. apply chars_join, rstrip_well_cut, lstrip_well_cut, chars_well_cut.
Qed.

Lemma strip_idem (s : string) : strip (strip s) = strip s.
Proof.
  unfold strip at 1. rewrite strip_chars_eq.
  rewrite (lstrip_fixed (rstrip_chars (lstrip_chars (chars s)))).
  - now rewrite rstrip_idem.
  - apply rstrip_no_space, lstrip_no_space.
Qed.

Lemma bytes_app (a b : string) : bytes (a ++ b) = bytes a ++ bytes b.
Proof. induction a as [|c a IH]; simpl; [reflexivity | now rewrite IH]. Qed.

Lemma bytes_join (c : ascii) (l : list string) :
  In c (bytes (join l)) <-> exists ch, In ch l /\ In c (bytes ch).
Proof.
  induction l as [|x l IH]; simpl.
  - split; [tauto | now intros (ch & [] & _)].
  - rewrite bytes_app, in_app_iff, IH. split.
    + intros [H|(ch & H1 & H2)]; [exists x; tauto | exists ch; tauto].
    + intros (ch & [->|H1] & H2); [tauto | right; now exists ch].
Qed.

Lemma strip_bytes (c : ascii) (s : string) : In c (bytes (strip s)) -> In c (bytes s).
Proof.
  unfold strip. intros H. apply bytes_join in H. destruct H as (ch & Hin & Hc).
  rewrite <- (join_chars s). apply bytes_join. exists ch. split; [|exact Hc].
  now apply lstrip_incl, rstrip_incl.
Qed.

(** The first and the last character of a stripped text are no
    whitespace. *)
Lemma strip_ends (s : string) :
  match chars (strip s) with
  | [] => True
  | ch :: l => py_isspace ch = false /\ py_isspace (last (ch :: l) ch) = false
  end.
Proof.
  rewrite strip_chars_eq.
  pose proof (rstrip_no_space _ (lstrip_no_space (chars s))) as Hfirst.
  set (l0 := lstrip_chars (chars s)) in *. clearbody l0.
  assert (Hlast : forall l d, match rstrip_chars l with
                              | [] => True
                              | ch :: r => py_isspace (last (ch :: r) d) = false
                              end).
  { induction l as [|c l IH]; intros d; simpl; [exact I|].
    specialize (IH d).
    destruct (rstrip_chars l) as [|c' r].
    - destruct (py_isspace c) eqn:E; [exact I | exact E].
    - exact IH. }
  pose proof (Hlast l0) as H. destruct (rstrip_chars l0) as [|ch r]; [exact I|].
  split; [exact Hfirst | apply H].
Qed.

(** *** split *)

Lemma split_not_nil (sep : ascii) (s : string) : split sep s <> [].
Proof.
  induction s as [|c s IH]; simpl; [discriminate|].
  destruct (Ascii.eqb c sep); [discriminate|].
  destruct (split sep s); [contradiction | discriminate].
Qed.

Lemma split_pieces (sep : ascii) (s : string) :
  Forall (fun p => ~ In sep (bytes p)) (split sep s).
Proof.
  induction s as [|c s IH]; simpl.
  - constructor; [tauto | constructor].
  - destruct (Ascii.eqb c sep) eqn:E.
    + constructor; [simpl; tauto | exact IH].
    + destruct (split sep s) as [|x xs]; [repeat constructor; simpl|].
      * intros [H|[]]. subst. now rewrite Ascii.eqb_refl in E.
      * inversion IH as [|? ? Hx Hxs]; subst. constructor; [|exact Hxs].
        simpl. intros [H|H]; [subst; now rewrite Ascii.eqb_refl in E | tauto].
Qed.

Lemma split_app (sep : ascii) (a b : string) :
  split sep (a ++ String sep b) = split sep a ++ split sep b.
Proof.
  induction a as [|c a IH]; simpl.
  - now rewrite Ascii.eqb_refl.
  - destruct (Ascii.eqb c sep); [now rewrite IH|].
    rewrite IH. destruct (split sep a) as [|x xs] eqn:E; [|reflexivity].
    now apply split_not_nil in E.
Qed.

Lemma split_without (sep : ascii) (s : string) :
  ~ In sep (bytes s) -> split sep s = [s].
Proof.
  induction s as [|c s IH]; simpl; [reflexivity|]. intros H.
  destruct (Ascii.eqb c sep) eqn:E.
  - apply Ascii.eqb_eq in E. tauto.
  - rewrite IH by tauto. reflexivity.
Qed.

(** X1.  Every statement [apply_migration] executes for a migration text
    is non-empty, is what [strip] leaves of itself ([stmt.strip() == stmt]),
    begins and ends with a character that is no whitespace, in the sense of
    [str.isspace] for every character of Unicode, and contains no
    semicolon, whatever the text is. *)
Theorem statements_clean (sql : string) :
  Forall (fun stmt =>
            stmt <> "" /\ strip stmt = stmt
            /\ (exists ch l, chars stmt = ch :: l /\ py_isspace ch = false
                             /\ py_isspace (last (ch :: l) ch) = false)
            /\ ~ In ";"%char (bytes stmt))
         (statements sql).
Proof.
  unfold statements. apply Forall_map. apply Forall_forall. intros p Hp.
  apply filter_In in Hp. destruct Hp as [Hin Hne].
  assert (Hn : strip p <> "").
  { intros E. rewrite E in Hne. discriminate. }
  split; [exact Hn|]. split; [apply strip_idem|]. split.
  - pose proof (strip_ends p) as He.
    destruct (chars (strip p)) as [|ch l] eqn:E.
    + exfalso. apply Hn. now apply chars_nil.
    + now exists ch, l.
  - intros H. apply strip_bytes in H.
    pose proof (split_pieces ";" sql) as Hs. rewrite Forall_forall in Hs.
    exact (Hs p Hin H).
Qed.

(** X2.  The statements of a text are cut at every semicolon and nowhere
    else: the statements of [a;b] are those of [a] followed by those of
    [b], and a text without a semicolon is one statement, its stripped
    text, or none when it is blank. *)
Theorem statements_compose :
  (forall a b : string,
      statements (a ++ String ";" b)%string = statements a ++ statements b)
  /\ (forall s : string,
         ~ In ";"%char (bytes s) ->
         statements s = if String.eqb (strip s) "" then [] else [strip s]).
Proof.
  split.
  - intros a b. unfold statements. now rewrite split_app, filter_app, map_app.
  - intros s H. unfold statements. rewrite (split_without _ _ H). simpl.
    now destruct (String.eqb (strip s) "").
Qed.

(** The no-break space U+00A0, in UTF-8. *)
Definition no_break_space : string :=
  String (ascii_of_nat 194) (String (ascii_of_nat 160) EmptyString).

(** A no-break space is whitespace to [strip]: a piece that holds nothing
    else gives no statement, and one at the end of a statement is cut
    off. *)
Example statements_no_break_space :
  statements ("SELECT 1 " ++ no_break_space ++ ";" ++ no_break_space)%string
  = ["SELECT 1"].
Proof. vm_compute. reflexivity. Qed.

(** ** The line for a statement that failed *)

(** *** slices *)

Lemma firstn_In (n : nat) (l : list string) (x : string) : In x (firstn n l) -> In x l.
Proof.
  revert l. induction n as [|n IH]; intros [|y l]; simpl; try tauto.
  intros [H|H]; [now left | right; now apply IH].
Qed.

Lemma firstn_well_cut (n : nat) (l : list string) : well_cut l -> well_cut (firstn n l).
Proof.
  destruct l as [|h t]; [now destruct n|]. intros [Hh Ht].
  destruct n as [|n]; [exact I|]. simpl. split; [exact Hh|].
  apply Forall_forall. intros x Hx. rewrite Forall_forall in Ht.
  apply Ht. exact (firstn_In _ _ _ Hx).
Qed.

Lemma append_assoc (a b c : string) : ((a ++ b) ++ c = a ++ (b ++ c))%string.
Proof. induction a as [|x a IH]; simpl; [reflexivity | now rewrite IH]. Qed.

Lemma join_app (l1 l2 : list string) : join (l1 ++ l2) = (join l1 ++ join l2)%string.
Proof.
  induction l1 as [|x l1 IH]; simpl; [reflexivity|].
  rewrite IH. now rewrite append_assoc.
Qed.

Lemma slice_to_spec (n : nat) (s : string) :
  exists rest,
    s = (slice_to n s ++ rest)%string
    /\ chars (slice_to n s) = firstn n (chars s)
    /\ py_len (slice_to n s) = Nat.min n (py_len s).
Proof.
  exists (join (skipn n (chars s))). unfold slice_to, py_len.
  assert (E : chars (join (firstn n (chars s))) = firstn n (chars s))
    by apply chars_join, firstn_well_cut, chars_well_cut.
  split; [|split; [exact E|]].
  - rewrite <- join_app, firstn_skipn. symmetry. apply join_chars.
  - rewrite E. apply length_firstn.
Qed.

(** X3.  The warning for a failed statement shows the unit's name, the
    first 80 characters of the statement (characters, not bytes: a
    character of several bytes is never cut; all of the statement when it is
    shorter), then the three dots whether or not anything was cut off, then
    the error. *)
Theorem statement_warning_excerpt (name stmt : string) (e : exn) :
  exists shown rest,
    stmt = (shown ++ rest)%string
    /\ chars shown = firstn 80 (chars stmt)
    /\ py_len shown = Nat.min 80 (py_len stmt)
    /\ statement_warning name stmt e
       = ("Warning: failed statement in " ++ name ++ ": " ++ shown
            ++ "... (" ++ exn_str e ++ ")")%string.
Proof.
  destruct (slice_to_spec 80 stmt) as (rest & E & C & N).
  exists (slice_to 80 stmt), rest. now repeat split.
Qed.

(** Eighty characters of a statement in which every character takes two
    bytes are 160 bytes. *)
Example statement_warning_counts_characters :
  let stmt := join (repeat "é" 100) in
  String.length stmt = 200
  /\ py_len (slice_to 80 stmt) = 80
  /\ String.length (slice_to 80 stmt) = 160.
Proof. vm_compute. repeat split. Qed.

(** ** The files a run applies *)

(** X4.  [load_migrations] returns exactly the names of the directory that
    end in [.sql]; and with every driver, every name [main] looks up in the
    tracking table or records into it, and every [Applying] or [Skipping]
    line it prints, is the name of such a file, and every statement it
    executes without parameters is its own [CREATE TABLE] or [CREATE
    DATABASE] or a statement of such a file: a file with another ending is
    never looked up, announced, executed or recorded. *)
Theorem main_applies_only_sql_files
        (W Conn Cur : Type) (api : DBAPI W Conn Cur) (env : Environ) (dir : Directory)
        (hash : string -> string) (s : state W Conn Cur) :
  (forall n, In n (load_migrations dir)
             <-> In n (map fst dir) /\ endswith n ".sql" = true)
  /\ exists t o,
      calls (fst (main env dir hash s)) = calls s ++ t
      /\ stdout (fst (main env dir hash s)) = stdout s ++ o
      /\ Forall (fun e => forall n,
                     tracked_name (fst e) = Some n ->
                     In n (map fst dir) /\ endswith n ".sql" = true) t
      /\ Forall (fun e => forall sql,
                     plain_statement (fst e) = Some sql ->
                     sql = create_table_sql
                     \/ (exists cfg, sql = create_database_sql cfg)
                     \/ statement_of dir (glob_sql dir) sql) t
      /\ Forall (fun line =>
                   is_unit_line line = true ->
                   exists n, (In n (map fst dir) /\ endswith n ".sql" = true)
                             /\ (line = applying_line n \/ line = skipping_line n)) o.
Proof.
  assert (H : forall n, In n (load_migrations dir)
                        <-> In n (map fst dir) /\ endswith n ".sql" = true).
  { intros n. split; intros Hn.
    - apply (Permutation_in _ (load_migrations_perm dir)) in Hn.
      unfold glob_sql in Hn. now apply filter_In in Hn.
    - apply (Permutation_in _ (Permutation_sym (load_migrations_perm dir))).
      unfold glob_sql. now apply filter_In. }
  split; [exact H|].
  destruct (main_loaded env dir hash s) as (t & o & [Hc Ho] & Pt & Qo).
  exists t, o. split; [exact Hc|]. split; [exact Ho|]. split; [|split].
  - eapply Forall_impl; [|exact Pt]. intros e [He _] n Hn. apply H. now apply He.
  - eapply Forall_impl; [|exact Pt]. intros e [_ He] sql Hsql.
    destruct (He sql Hsql) as [E|[E|(n & text & Hn & Ht & Hs)]]; auto.
    right; right. exists n, text. split; [|now split].
    exact (Permutation_in _ (load_migrations_perm dir) Hn).
  - eapply Forall_impl; [|exact Qo]. intros line Hl Hu.
    destruct (Hl Hu) as (n & Hn & Hline). exists n. split; [now apply H | exact Hline].
Qed.

(** ** The port of the configuration *)

(** The numeral with the decimal digits [ds], and the number it writes. *)
Definition digit_char (d : nat) : ascii := ascii_of_nat (48 + d).

#[local] Arguments digit_char : simpl never.

Fixpoint digits_string (ds : list nat) : string :=
  match ds with
  | [] => EmptyString
  | d :: ds' => String (digit_char d) (digits_string ds')
  end.

Definition decimal_value (ds : list nat) : Z :=
  fold_left (fun a d => 10 * a + Z.of_nat d)%Z ds 0%Z.

Lemma digit_char_facts (d : nat) :
  d < 10 ->
  continuation (digit_char d) = false
  /\ to_ascii (String (digit_char d) "") = digit_char d
  /\ c_isspace (digit_char d) = false
  /\ Ascii.eqb (digit_char d) "_" = false
  /\ Ascii.eqb (digit_char d) "+" = false
  /\ Ascii.eqb (digit_char d) "-" = false
  /\ digit_val (digit_char d) = Some (Z.of_nat d).
Proof.
  intros H. do 10 (destruct d as [|d]; [repeat split; reflexivity|]). lia.
Qed.

Lemma chars_digits (ds : list nat) :
  Forall (fun d => d < 10) ds ->
  chars (digits_string ds) = map (fun d => String (digit_char d) "") ds.
Proof.
  induction 1 as [|d ds Hd Hds IH]; [reflexivity|].
  cbn [digits_string map]. rewrite chars_cons, IH.
  destruct Hds as [|d' ds' Hd' _]; [reflexivity|].
  cbn [digits_string map starts_continued].
  now destruct (digit_char_facts d' Hd') as (-> & _).
Qed.

Lemma to_ascii_digits (ds : list nat) :
  Forall (fun d => d < 10) ds ->
  map to_ascii (chars (digits_string ds)) = map digit_char ds.
Proof.
  intros H. rewrite (chars_digits ds H), map_map.
  induction H as [|d ds Hd _ IH]; [reflexivity|].
  cbn [map]. rewrite IH. now destruct (digit_char_facts d Hd) as (_ & -> & _).
Qed.

Lemma scan_digits_decimal (ds : list nat) (acc : Z) (n : N) (b : bool) :
  Forall (fun d => d < 10) ds ->
  scan_digits acc n b (map digit_char ds)
  = Some (fold_left (fun a d => 10 * a + Z.of_nat d)%Z ds acc,
          (n + N.of_nat (List.length ds))%N,
          match ds with [] => b | _ => false end, []).
Proof.
  intros H. revert acc n b. induction H as [|d ds Hd _ IH]; intros acc n b.
  - cbn. now rewrite N.add_0_r.
  - cbn [map scan_digits fold_left List.length].
    destruct (digit_char_facts d Hd) as (_ & _ & _ & -> & _ & _ & ->).
    rewrite IH.
    replace (N.succ n + N.of_nat (List.length ds))%N
      with (n + N.of_nat (S (List.length ds)))%N by lia.
    now destruct ds.
Qed.

(** [int] on a numeral of decimal digits: its value, up to 4300 digits;
    the error of the limit beyond. *)
Lemma py_int_decimal (ds : list nat) :
  ds <> [] -> Forall (fun d => d < 10) ds ->
  py_int (digits_string ds)
  = if (N.of_nat (List.length ds) <=? max_str_digits)%N
    then inr (decimal_value ds)
    else inl (exceeds_limit (N.of_nat (List.length ds))).
Proof.
  intros Hne H. unfold py_int. rewrite (to_ascii_digits ds H).
  pose proof (scan_digits_decimal ds 0 0 false H) as E.
  destruct H as [|d ds Hd Hds]; [contradiction|].
  destruct (digit_char_facts d Hd) as (_ & _ & Hs & Hu & Hp & Hm & _).
  cbn [map skip_spaces skip_sign starts_with_underscore] in *.
  rewrite Hs. cbn [skip_sign]. rewrite Hp, Hm. cbn beta iota.
  cbn [starts_with_underscore]. rewrite Hu, E.
  rewrite N.add_0_l, N.ltb_antisym.
  destruct (N.of_nat (List.length (d :: ds)) <=? max_str_digits)%N; cbn [negb];
    [|reflexivity].
  assert (Hz : (N.of_nat (List.length (d :: ds)) =? 0)%N = false)
    by (apply N.eqb_neq; simpl; lia).
  rewrite Hz. reflexivity.
Qed.

(** *** Blank text *)

(** What [int] makes of a whitespace character: whitespace of C, or one of
    the four separators 0x1c-0x1f, which it does not skip. *)
Definition separator (c : ascii) : bool :=
  let n := N_of_ascii c in ((28 <=? n) && (n <=? 31))%N.

Lemma to_ascii_space (ch : string) :
  py_isspace ch = true -> c_isspace (to_ascii ch) = true \/ separator (to_ascii ch) = true.
Proof.
  unfold py_isspace. intros H.
  unfold to_ascii. unfold py_isspace. 
  destruct (ord ch) as [n|]; [|discriminate]. rewrite H.
  destruct (n <? 128)%N eqn:E; [|now left].
  unfold whitespace in H. cbn [existsb] in H.
  repeat (apply orb_prop in H; destruct H as [H|H]);
    try discriminate H;
    apply N.eqb_eq in H; subst n; try discriminate E; (now left) || (now right).
Qed.

Lemma separator_facts (c : ascii) :
  separator c = true ->
  c_isspace c = false /\ Ascii.eqb c "_" = false /\ Ascii.eqb c "+" = false
  /\ Ascii.eqb c "-" = false /\ digit_val c = None.
Proof.
  unfold separator. intros H. apply andb_prop in H. destruct H as [H1 H2].
  apply N.leb_le in H1, H2.
  assert (Hc : c = ascii_of_N (N_of_ascii c)) by now rewrite ascii_N_embedding.
  assert (Hn : N_of_ascii c = 28%N \/ N_of_ascii c = 29%N \/ N_of_ascii c = 30%N
               \/ N_of_ascii c = 31%N) by lia.
  rewrite Hc. destruct Hn as [->|[->|[->| ->]]]; repeat split; reflexivity.
Qed.

Lemma rstrip_nil (l : list string) :
  rstrip_chars l = [] -> Forall (fun ch => py_isspace ch = true) l.
Proof.
  induction l as [|c l IH]; simpl; [constructor|].
  destruct (rstrip_chars l) as [|c' r]; [|discriminate].
  destruct (py_isspace c) eqn:E; [|discriminate]. intros _. constructor; auto.
Qed.

Lemma lstrip_split (l : list string) :
  exists sp, l = sp ++ lstrip_chars l /\ Forall (fun ch => py_isspace ch = true) sp.
Proof.
  induction l as [|c l IH]; simpl; [now exists []|].
  destruct (py_isspace c) eqn:E.
  - destruct IH as (sp & Hl & Hsp). exists (c :: sp). split; [simpl; now rewrite <- Hl|].
    now constructor.
  - now exists [].
Qed.

Lemma join_nil (l : list string) :
  well_cut l -> join l = "" -> l = [].
Proof.
  destruct l as [|h t]; [reflexivity|]. intros [Hh _].
  destruct h; [discriminate | discriminate].
Qed.

(** A text that [strip] empties has whitespace only. *)
Lemma strip_blank (s : string) :
  strip s = "" -> Forall (fun ch => py_isspace ch = true) (chars s).
Proof.
  unfold strip. intros H.
  apply join_nil in H; [|apply rstrip_well_cut, lstrip_well_cut, chars_well_cut].
  apply rstrip_nil in H.
  destruct (lstrip_split (chars s)) as (sp & Hl & Hsp).
  rewrite Hl. now apply Forall_app.
Qed.

Lemma py_int_blank (s : string) : strip s = "" -> py_int s = inl (invalid_literal s).
Proof.
  intros H. apply strip_blank in H. unfold py_int.
  assert (Hl : Forall (fun c => c_isspace c = true \/ separator c = true)
                 (map to_ascii (chars s))).
  { apply Forall_map. eapply Forall_impl; [|exact H]. apply to_ascii_space. }
  clear H. induction Hl as [|c l Hc _ IH]; [reflexivity|].
  cbn [skip_spaces]. destruct Hc as [Hc|Hc].
  - now rewrite Hc.
  - destruct (separator_facts c Hc) as (Hs & Hu & Hp & Hm & Hd).
    rewrite Hs. cbn [skip_sign]. rewrite Hp, Hm. cbn beta iota.
    cbn [starts_with_underscore]. rewrite Hu. cbn [scan_digits].
    rewrite Hu, Hd. reflexivity.
Qed.

(** [int] skips the whitespace of C and any whitespace outside ASCII, but
    not the separators 0x1c-0x1f, which [strip] removes; and it reads the
    decimal digits of every script. *)
Example py_int_whitespace_and_digits :
  py_int (no_break_space ++ " 443" ++ no_break_space) = inr 443%Z
  /\ py_int (String (ascii_of_nat 31) "443")
     = inl (Exn "ValueError" "invalid literal for int() with base 10: '\x1f443'")
  /\ strip (String (ascii_of_nat 31) "443") = "443"
  /\ py_int "٣٣٠٦" = inr 3306%Z
  /\ py_int "3_306" = inr 3306%Z
  /\ py_int "a'b"
     = inl (Exn "ValueError"
              (String.append "invalid literal for int() with base 10: "
                 (String (ascii_of_nat 34) (String.append "a'b"
                                              (String (ascii_of_nat 34) EmptyString))))).
Proof. vm_compute. repeat split. Qed.

(** X5.  When [MYSQL_PORT] is a numeral of decimal digits, at most 4300
    of them, [mysql_config] returns the settings with that number as the
    port (leading zeros allowed) and every other setting read from the
    environment or its default; with more than 4300 digits [int] raises
    the [ValueError] of the digit limit; and when [MYSQL_PORT] is set to a
    blank text, [int] raises the [ValueError] of an invalid literal: the
    default 3306 is used only when the variable is not set at all. *)
Theorem mysql_config_port :
  (forall (env : Environ) (ds : list nat),
      ds <> [] -> Forall (fun d => d < 10) ds ->
      (N.of_nat (List.length ds) <= 4300)%N ->
      environ_get env "MYSQL_PORT" "3306" = digits_string ds ->
      mysql_config env
      = inr {| host := environ_get env "MYSQL_HOST" "127.0.0.1";
               port := decimal_value ds;
               user := environ_get env "MYSQL_USER" "root";
               password := environ_get env "MYSQL_PASSWORD" "root@123";
               database := environ_get env "MYSQL_DB" "todolist" |})
  /\ (forall (env : Environ) (ds : list nat),
         Forall (fun d => d < 10) ds ->
         (4300 < N.of_nat (List.length ds))%N ->
         environ_get env "MYSQL_PORT" "3306" = digits_string ds ->
         mysql_config env = inl (exceeds_limit (N.of_nat (List.length ds))))
  /\ (forall (env : Environ) (v : string),
         strip v = "" ->
         mysql_config (("MYSQL_PORT", v) :: env) = inl (invalid_literal v)).
Proof.
  split; [|split].
  - intros env ds Hne H Hlen E. unfold mysql_config. rewrite E.
    rewrite (py_int_decimal ds Hne H).
    apply N.leb_le in Hlen. unfold max_str_digits. now rewrite Hlen.
  - intros env ds H Hlen E. unfold mysql_config. rewrite E.
    assert (Hne : ds <> []) by (intros ->; simpl in Hlen; lia).
    rewrite (py_int_decimal ds Hne H).
    apply N.leb_gt in Hlen. unfold max_str_digits. now rewrite Hlen.
  - intros env v Hv. unfold mysql_config. cbn [environ_get].
    change (String.eqb "MYSQL_PORT" "MYSQL_PORT") with true. cbn iota.
    now rewrite (py_int_blank v Hv).
Qed.

Lemma mysql_config_port_witness :
  mysql_config [("MYSQL_HOST", "db.internal"); ("MYSQL_PORT", "0080")]
  = inr {| host := "db.internal"; port := 80; user := "root";
           password := "root@123"; database := "todolist" |}
  /\ mysql_config [("MYSQL_PORT", digits_string (repeat 9 4301))]
     = inl (Exn "ValueError"
              "Exceeds the limit (4300 digits) for integer string conversion: value has 4301 digits; use sys.set_int_max_str_digits() to increase the limit")
  /\ mysql_config [("MYSQL_PORT", " "); ("MYSQL_HOST", "h")]
     = inl (Exn "ValueError" "invalid literal for int() with base 10: ' '").
Proof.
  split; [|split].
  - apply (proj1 mysql_config_port
             [("MYSQL_HOST", "db.internal"); ("MYSQL_PORT", "0080")] [0; 0; 8; 0]).
    + discriminate.
    + repeat constructor.
    + vm_compute. discriminate.
    + reflexivity.
  - apply (proj1 (proj2 mysql_config_port)
             [("MYSQL_PORT", digits_string (repeat 9 4301))] (repeat 9 4301)).
    + apply Forall_forall. intros d Hd. apply repeat_spec in Hd. subst d. lia.
    + vm_compute. reflexivity.
    + reflexivity.
  - apply (proj2 (proj2 mysql_config_port) [("MYSQL_HOST", "h")] " "). reflexivity.
Defined.

(** ** connect_mysql without create_db_if_missing *)

(** An import, or a connect to the named database. *)
Definition direct_only {Conn Cur : Type} (e : entry Conn Cur) : Prop :=
  match fst e with
  | CImport _ | CConnect _ _ true => True
  | _ => False
  end.

Lemma attempt_without_create {W Conn Cur : Type} {api : DBAPI W Conn Cur}
      (d : driver) (cfg : Config) (t : list (entry Conn Cur)) (r : option Conn) :
  attempt d cfg false t r ->
  Forall direct_only t /\ direct_connects t <= 1 /\ List.length t <= 2.
Proof.
  intros A. inversion A; subst; simpl;
    (split; [repeat constructor | split; [unfold direct_connects; simpl; lia | lia]]).
Qed.

(** X6.  With [create_db_if_missing] false, the default, and a port that
    parses, [connect_mysql] with every driver only imports the driver
    modules and connects to the named database, once per driver at most: it
    never connects without a database, never opens a cursor, never executes
    a statement, never commits or closes, and prints nothing. *)
Theorem connect_mysql_without_create
        (W Conn Cur : Type) (api : DBAPI W Conn Cur) (env : Environ) (cfg : Config)
        (s : state W Conn Cur) :
  mysql_config env = inr cfg ->
  exists s' r t,
    connect_mysql env false s = (s', inr r)
    /\ calls s' = calls s ++ t
    /\ stdout s' = stdout s
    /\ Forall direct_only t
    /\ direct_connects t <= 2
    /\ List.length t <= 4.
Proof.
  intros Hcfg.
  destruct (connect_mysql_spec env cfg false s Hcfg)
    as (s' & r & t1 & r1 & t2 & E & [Hc Ho] & A1 & A2).
  exists s', r, (t1 ++ t2). rewrite app_nil_r in Ho.
  split; [exact E|]. split; [exact Hc|]. split; [exact Ho|].
  destruct (attempt_without_create _ _ _ _ A1) as (F1 & D1 & L1).
  assert (H2 : Forall direct_only t2 /\ direct_connects t2 <= 1 /\ List.length t2 <= 2).
  { destruct r1 as [c|].
    - destruct A2 as [-> _]. split; [constructor | split; unfold direct_connects; simpl; lia].
    - exact (attempt_without_create _ _ _ _ A2). }
  destruct H2 as (F2 & D2 & L2).
  split; [now apply Forall_app|]. split.
  - assert (Happ : direct_connects (t1 ++ t2) = direct_connects t1 + direct_connects t2)
      by (unfold direct_connects; now rewrite filter_app, length_app).
    rewrite Happ. lia.
  - rewrite length_app. lia.
Qed.

Lemma connect_mysql_without_create_witness :
  exists s' r t,
    connect_mysql (api := Ref.server Scenario.sem) [] false
      (Ref.start Scenario.locked_out) = (s', inr r)
    /\ calls s' = calls (Ref.start Scenario.locked_out) ++ t
    /\ stdout s' = stdout (Ref.start Scenario.locked_out)
    /\ Forall direct_only t
    /\ direct_connects t <= 2
    /\ List.length t <= 4.
Proof.
  exact (connect_mysql_without_create _ _ _ (Ref.server Scenario.sem) [] _
           (Ref.start Scenario.locked_out) eq_refl).
Defined.

(** ** The connections and the database [connect_mysql] leaves *)

(** Every open connection has a handle the server has given out. *)
Definition fresh_handles (w : Ref.World) : Prop :=
  Forall (fun n => n < Ref.next_handle w) (Ref.open_conns w).

Lemma filter_fresh (nh : nat) (oc : list nat) :
  Forall (fun n => n < nh) oc -> filter (fun n => negb (Nat.eqb n nh)) oc = oc.
Proof.
  induction 1 as [|n oc Hn _ IH]; simpl; [reflexivity|].
  rewrite IH. destruct (Nat.eqb_spec n nh); [lia | reflexivity].
Qed.

Lemma fresh_later (nh nh' : nat) (oc : list nat) :
  nh <= nh' -> Forall (fun n => n < nh) oc -> Forall (fun n => n < nh') oc.
Proof. intros H. apply Forall_impl. intros n. lia. Qed.

(** The database a driver block leaves: an existing one as it is, a missing
    one created empty when the block gets to create it. *)
Definition database_after (d : driver) (w : Ref.World) : option Ref.DB :=
  match Ref.db w with
  | Some d0 => Some d0
  | None =>
      if Ref.installed d w && Ref.reachable w && Ref.may_create w
      then Some Ref.empty_db else None
  end.

(** The temporary connection stays open when the create statement is
    refused. *)
Definition leaks (d : driver) (w : Ref.World) : bool :=
  Ref.installed d w && Ref.reachable w && negb (Ref.may_create w).

#[local] Arguments create_database_sql : simpl never.

Lemma ref_connect_with_world (sem : string -> Ref.DB -> option Ref.DB)
      (d : driver) (cfg : Config) (s : state Ref.World Ref.Conn Ref.Cur) :
  fresh_handles (world s) ->
  exists s' r,
    connect_with (api := Ref.server sem) d cfg true s = (s', inr r)
    /\ fresh_handles (world s')
    /\ Ref.next_handle (world s) <= Ref.next_handle (world s')
    /\ (forall d', Ref.installed d' (world s') = Ref.installed d' (world s))
    /\ Ref.reachable (world s') = Ref.reachable (world s)
    /\ Ref.db_access (world s') = Ref.db_access (world s)
    /\ Ref.may_create (world s') = Ref.may_create (world s)
    /\ Ref.db (world s') = database_after d (world s)
    /\ match r with
       | Some c =>
           Ref.open_conns (world s') = Ref.conn_id c :: Ref.open_conns (world s)
           /\ Ref.next_handle (world s) <= Ref.conn_id c
       | None =>
           Ref.open_conns (world s')
           = if leaks d (world s)
             then Ref.next_handle (world s) :: Ref.open_conns (world s)
             else Ref.open_conns (world s)
       end.
Proof.
  destruct s as [w t o]. destruct w as [hp hm re da mc dbo oc nh rs].
  unfold fresh_handles, database_after, leaks. cbn [world Ref.next_handle Ref.open_conns].
  intros Hf.
  unfold connect_with, try_except, bind, import_, connect_, cursor_, execute_,
    commit_, close_, perform, ret, Ref.is_open.
  destruct d, hp, hm, re, da, mc, dbo as [d0|];
    repeat (progress
              (cbn;
               unfold Ref.ref_import, Ref.ref_connect, Ref.ref_cursor, Ref.ref_commit,
                 Ref.ref_close, Ref.is_open;
               cbn; rewrite ?Nat.eqb_refl;
               try rewrite RefFacts.execute_create_database
                 by (unfold Ref.is_open; cbn; now rewrite Nat.eqb_refl)));
    (eexists; eexists; split; [reflexivity|]); cbn; rewrite ?Nat.eqb_refl; cbn;
    rewrite ?(filter_fresh nh oc Hf);
    (split; [repeat (constructor; [lia|]); eapply fresh_later; [|exact Hf]; lia|]);
    (split; [lia|]);
    (split; [intros []; reflexivity|]);
    repeat split; try reflexivity; try lia.
Qed.

(** What the block changes besides the connections; no assumption on the
    handles. *)
Lemma ref_connect_with_database (sem : string -> Ref.DB -> option Ref.DB)
      (d : driver) (cfg : Config) (s : state Ref.World Ref.Conn Ref.Cur) :
  exists s' r,
    connect_with (api := Ref.server sem) d cfg true s = (s', inr r)
    /\ (forall d', Ref.installed d' (world s') = Ref.installed d' (world s))
    /\ Ref.reachable (world s') = Ref.reachable (world s)
    /\ Ref.db_access (world s') = Ref.db_access (world s)
    /\ Ref.may_create (world s') = Ref.may_create (world s)
    /\ Ref.db (world s') = database_after d (world s)
    /\ RefFacts.connectable_with d (world s)
       = match r with Some _ => true | None => false end.
Proof.
  destruct s as [w t o]. destruct w as [hp hm re da mc dbo oc nh rs].
  unfold database_after, RefFacts.connectable_with.
  unfold connect_with, try_except, bind, import_, connect_, cursor_, execute_,
    commit_, close_, perform, ret, Ref.is_open.
  destruct d, hp, hm, re, da, mc, dbo as [d0|];
    repeat (progress
              (cbn;
               unfold Ref.ref_import, Ref.ref_connect, Ref.ref_cursor, Ref.ref_commit,
                 Ref.ref_close, Ref.is_open;
               cbn; rewrite ?Nat.eqb_refl;
               try rewrite RefFacts.execute_create_database
                 by (unfold Ref.is_open; cbn; now rewrite Nat.eqb_refl)));
    (eexists; eexists; split; [reflexivity|]); cbn;
    (split; [intros []; reflexivity|]);
    repeat split; reflexivity.
Qed.

(** The drivers installed. *)
Definition drivers_installed (w : Ref.World) : nat :=
  (if Ref.has_pymysql w then 1 else 0) + (if Ref.has_mysql_connector w then 1 else 0).

Lemma ref_connect_mysql_conns
      (sem : string -> Ref.DB -> option Ref.DB) (env : Environ) (cfg : Config)
      (s : state Ref.World Ref.Conn Ref.Cur) :
  mysql_config env = inr cfg ->
  fresh_handles (world s) ->
  exists s' r,
    connect_mysql (api := Ref.server sem) env true s = (s', inr r)
    /\ fresh_handles (world s')
    /\ match r with
       | Some c =>
           Ref.open_conns (world s') = Ref.conn_id c :: Ref.open_conns (world s)
           /\ ~ In (Ref.conn_id c) (Ref.open_conns (world s))
       | None =>
           exists leaked,
             Ref.open_conns (world s') = leaked ++ Ref.open_conns (world s)
             /\ List.length leaked
                = if Ref.reachable (world s) && negb (Ref.may_create (world s))
                  then drivers_installed (world s) else 0
       end.
Proof.
  intros Hcfg Hf. unfold connect_mysql, bind at 1, lift. rewrite Hcfg. unfold bind.
  destruct (ref_connect_with_world sem pymysql cfg s Hf)
    as (s1 & r1 & E1 & Hf1 & Hn1 & Hi1 & Hr1 & Ha1 & Hm1 & Hd1 & Ho1).
  destruct (ref_connect_with_database sem pymysql cfg s)
    as (s1' & r1' & E1' & _ & _ & _ & _ & _ & Hc1).
  rewrite E1 in E1'. inversion E1'; subst s1' r1'; clear E1'.
  rewrite E1.
  assert (Hfresh : forall c, Ref.next_handle (world s) <= c ->
                             ~ In c (Ref.open_conns (world s))).
  { intros c Hc Hin. unfold fresh_handles in Hf. rewrite Forall_forall in Hf.
    specialize (Hf c Hin). lia. }
  destruct r1 as [c|].
  - exists s1, (Some c). split; [reflexivity|]. split; [exact Hf1|].
    destruct Ho1 as [Ho1 Hc]. split; [exact Ho1 | now apply Hfresh].
  - destruct (ref_connect_with_world sem mysql_connector cfg s1 Hf1)
      as (s2 & r2 & E2 & Hf2 & Hn2 & Hi2 & Hr2 & Ha2 & Hm2 & Hd2 & Ho2).
    destruct (ref_connect_with_database sem mysql_connector cfg s1)
      as (s2' & r2' & E2' & _ & _ & _ & _ & _ & Hc2).
    rewrite E2 in E2'. inversion E2'; subst s2' r2'; clear E2'.
    exists s2, r2. split; [exact E2|]. split; [exact Hf2|].
    unfold leaks in Ho1, Ho2. unfold RefFacts.connectable_with in Hc1, Hc2.
    rewrite (Hi1 mysql_connector), Hr1, Hm1 in Ho2.
    rewrite (Hi1 mysql_connector), Hr1, Ha1, Hm1, Hd1 in Hc2.
    unfold database_after, drivers_installed in *. simpl Ref.installed in *.
    destruct r2 as [c|].
    + destruct Ho2 as [Ho2 Hc]. rewrite Ho2, Ho1. split.
      * destruct (Ref.has_pymysql (world s)), (Ref.has_mysql_connector (world s)),
          (Ref.reachable (world s)), (Ref.db_access (world s)),
          (Ref.may_create (world s)), (Ref.db (world s));
          simpl in *; try discriminate; reflexivity.
      * apply Hfresh. lia.
    + rewrite Ho2, Ho1.
      destruct (Ref.has_pymysql (world s)), (Ref.has_mysql_connector (world s)),
        (Ref.reachable (world s)), (Ref.may_create (world s)); simpl;
        first [ now exists [] | now exists [Ref.next_handle (world s)]
              | now exists [Ref.next_handle (world s1)]
              | now exists [Ref.next_handle (world s1); Ref.next_handle (world s)] ].
Qed.

(** Both drivers installed, the server reachable, the database missing,
    and an account that may not create databases. *)
Definition cannot_create : Ref.World :=
  {| Ref.has_pymysql := true; Ref.has_mysql_connector := true; Ref.reachable := true;
     Ref.db_access := true; Ref.may_create := false; Ref.db := None;
     Ref.open_conns := []; Ref.next_handle := 0; Ref.results := [] |}.

(** X7.  Against the reference server, when the port parses:
    [connect_mysql(True)] that returns a connection leaves exactly that one
    connection open beyond those open before, its temporary connection
    closed; [connect_mysql(True)] that returns [None] leaves one temporary
    connection open for every installed driver when the server is reachable
    and the account may not create databases (the [close] is skipped when
    the create statement raises), and none otherwise. *)
Theorem connect_mysql_open_connections
        (sem : string -> Ref.DB -> option Ref.DB) (env : Environ) (cfg : Config)
        (s : state Ref.World Ref.Conn Ref.Cur) :
  mysql_config env = inr cfg ->
  fresh_handles (world s) ->
  exists s' r,
    connect_mysql (api := Ref.server sem) env true s = (s', inr r)
    /\ fresh_handles (world s')
    /\ match r with
       | Some c =>
           Ref.open_conns (world s') = Ref.conn_id c :: Ref.open_conns (world s)
           /\ ~ In (Ref.conn_id c) (Ref.open_conns (world s))
       | None =>
           exists leaked,
             Ref.open_conns (world s') = leaked ++ Ref.open_conns (world s)
             /\ List.length leaked
                = if Ref.reachable (world s) && negb (Ref.may_create (world s))
                  then drivers_installed (world s) else 0
       end.
Proof. exact (ref_connect_mysql_conns sem env cfg s). Qed.

Lemma connect_mysql_open_connections_witness :
  fresh_handles cannot_create
  /\ snd (connect_mysql (api := Ref.server Scenario.sem) [] true (Ref.start cannot_create))
     = inr None
  /\ Ref.open_conns
       (world (fst (connect_mysql (api := Ref.server Scenario.sem) [] true
                      (Ref.start cannot_create)))) = [2; 0]
  /\ exists s' r,
      connect_mysql (api := Ref.server Scenario.sem) [] true (Ref.start cannot_create)
      = (s', inr r)
      /\ fresh_handles (world s')
      /\ match r with
         | Some c =>
             Ref.open_conns (world s') = Ref.conn_id c :: Ref.open_conns cannot_create
             /\ ~ In (Ref.conn_id c) (Ref.open_conns cannot_create)
         | None =>
             exists leaked,
               Ref.open_conns (world s') = leaked ++ Ref.open_conns cannot_create
               /\ List.length leaked
                  = if Ref.reachable cannot_create && negb (Ref.may_create cannot_create)
                    then drivers_installed cannot_create else 0
         end.
Proof.
  assert (H : fresh_handles cannot_create) by constructor.
  split; [exact H|]. split; [vm_compute; reflexivity|]. split; [vm_compute; reflexivity|].
  exact (connect_mysql_open_connections Scenario.sem [] _ (Ref.start cannot_create)
           eq_refl H).
Defined.

(** X8.  Against the reference server, when the port parses:
    [connect_mysql(True)] returns a connection exactly when some installed
    driver reaches the server with an account that may use the database and
    the database exists or may be created, and that connection is open and
    bound to the database.  A database that exists is left as it is; a
    missing one is created, empty, whenever an installed driver reaches the
    server with an account that may create it, also when the account may
    not use it and [None] is returned. *)
Theorem connect_mysql_database
        (sem : string -> Ref.DB -> option Ref.DB) (env : Environ) (cfg : Config)
        (s : state Ref.World Ref.Conn Ref.Cur) :
  mysql_config env = inr cfg ->
  exists s' r,
    connect_mysql (api := Ref.server sem) env true s = (s', inr r)
    /\ RefFacts.connectable (world s) = match r with Some _ => true | None => false end
    /\ (forall c, r = Some c -> RefFacts.live c (world s'))
    /\ Ref.db (world s')
       = match Ref.db (world s) with
         | Some d => Some d
         | None =>
             if Ref.reachable (world s) && Ref.may_create (world s)
                && (Ref.has_pymysql (world s) || Ref.has_mysql_connector (world s))
             then Some Ref.empty_db else None
         end.
Proof.
  intros Hcfg.
  destruct (RefFacts.ref_connect_mysql sem env cfg s Hcfg) as (s' & r & E & _ & _ & _ & R).
  exists s', r. split; [exact E|]. split; [|split].
  - destruct r as [c|]; [apply R | exact R].
  - intros c ->. apply R.
  - revert E. unfold connect_mysql, bind at 1, lift. rewrite Hcfg. unfold bind.
    destruct (ref_connect_with_database sem pymysql cfg s)
      as (s1 & r1 & E1 & Hi1 & Hr1 & Ha1 & Hm1 & Hd1 & Hc1).
    rewrite E1. destruct r1 as [c|].
    + intros H. inversion H; subst s' r; clear H. rewrite Hd1.
      unfold database_after. unfold RefFacts.connectable_with in Hc1.
      simpl Ref.installed in *.
      destruct (Ref.has_pymysql (world s)), (Ref.has_mysql_connector (world s)),
        (Ref.reachable (world s)), (Ref.db_access (world s)),
        (Ref.may_create (world s)), (Ref.db (world s));
        simpl in *; try discriminate; reflexivity.
    + destruct (ref_connect_with_database sem mysql_connector cfg s1)
        as (s2 & r2 & E2 & Hi2 & Hr2 & Ha2 & Hm2 & Hd2 & Hc2).
      rewrite E2. intros H. inversion H; subst s' r; clear H. rewrite Hd2.
      unfold database_after. rewrite (Hi1 mysql_connector), Hr1, Hm1, Hd1.
      unfold database_after. simpl Ref.installed.
      destruct (Ref.has_pymysql (world s)), (Ref.has_mysql_connector (world s)),
        (Ref.reachable (world s)), (Ref.may_create (world s)), (Ref.db (world s));
        reflexivity.
Qed.

Lemma connect_mysql_database_witness :
  exists s' r,
    connect_mysql (api := Ref.server Scenario.sem) [] true (Ref.start Scenario.locked_out)
    = (s', inr r)
    /\ RefFacts.connectable (world (Ref.start Scenario.locked_out))
       = match r with Some _ => true | None => false end
    /\ (forall c, r = Some c -> RefFacts.live c (world s'))
    /\ Ref.db (world s') = Some Ref.empty_db.
Proof.
  exact (connect_mysql_database Scenario.sem [] _ (Ref.start Scenario.locked_out) eq_refl).
Defined.

(** ** The names a run adds to the tracking table *)










(** ** The password of the seeded account *)

Lemma admins_inserted (d d' : Ref.DB) (h : string) (r : option string) :
  RefFacts.admins d = [] ->
  Ref.insert_user d "admin" "admin@example.com" h r = inr d' ->
  exists i, RefFacts.admins d'
            = [{| Ref.uid := i; Ref.username := "admin";
                  Ref.email := "admin@example.com";
                  Ref.password_hash := h; Ref.role := r |}].
Proof.
  intros Ha Hi. apply RefFacts.insert_user_spec in Hi. destruct Hi as (us & Hus & ->).
  unfold RefFacts.admins in *. rewrite Hus in Ha. simpl.
  rewrite filter_app, Ha. simpl. eauto.
Qed.

Lemma seed_users_row (h : string) (d : Ref.DB) :
  RefFacts.admins d = [] ->
  RefFacts.seed_users h d = d
  \/ exists i r,
      RefFacts.admins (RefFacts.seed_users h d)
      = [{| Ref.uid := i; Ref.username := "admin"; Ref.email := "admin@example.com";
            Ref.password_hash := h; Ref.role := r |}]
      /\ (r = Some "admin" \/ r = None).
Proof.
  intros Ha. unfold RefFacts.seed_users.
  destruct (Ref.users d) as [us|] eqn:Hus; [|now left].
  destruct (filter RefFacts.is_admin us) as [|u l]; [|now left].
  destruct (Ref.insert_user d "admin" "admin@example.com" h (Some "admin"))
    as [e|d'] eqn:E1.
  - destruct (Ref.insert_user d "admin" "admin@example.com" h None) as [e'|d'] eqn:E2;
      [now left|].
    right. destruct (admins_inserted d d' h None Ha E2) as [i Hi]. eauto.
  - right. destruct (admins_inserted d d' h (Some "admin") Ha E1) as [i Hi]. eauto.
Qed.

(** X10.  Against the reference server, from every state: a later call of
    the seeding step, also with another [ADMIN_PASSWORD] or another hash
    function, leaves the database as the earlier call left it, so the
    password of an existing [admin] account is never replaced; and when the
    step prints the confirmation, the one [admin] row it created has the
    email [admin@example.com], the hash of [ADMIN_PASSWORD], or of
    [admin@123] when that is not set, and the role [admin] or the column's
    default. *)
Theorem ensure_admin_user_password
        (sem : string -> Ref.DB -> option Ref.DB) (env env' : Environ)
        (hash hash' : string -> string) (conn : Ref.Conn) (id : nat)
        (s : state Ref.World Ref.Conn Ref.Cur) :
  let k := {| Ref.cur_conn := conn; Ref.cur_id := id |} in
  let s1 := fst (ensure_admin_user (api := Ref.server sem) env hash conn k s) in
  let s2 := fst (ensure_admin_user (api := Ref.server sem) env' hash' conn k s1) in
  Ref.db (world s2) = Ref.db (world s1)
  /\ (stdout s1 = stdout s ++ [admin_created_line] ->
      exists i r,
        Ref.admin_rows (world s1)
        = [{| Ref.uid := i; Ref.username := "admin"; Ref.email := "admin@example.com";
              Ref.password_hash := hash (environ_get env "ADMIN_PASSWORD" "admin@123");
              Ref.role := r |}]
        /\ (r = Some "admin" \/ r = None)).
Proof.
  intros k s1 s2.
  destruct (RefFacts.ref_ensure_admin_user sem env hash conn id s)
    as (s1' & o1 & E1 & Ho1 & Hc1 & Hd1 & Hs1).
  assert (Hs1' : s1 = s1') by (unfold s1, k; now rewrite E1).
  destruct (RefFacts.ref_ensure_admin_user sem env' hash' conn id s1)
    as (s2' & o2 & E2 & Ho2 & Hc2 & Hd2 & Hs2).
  assert (Hs2' : s2 = s2') by (unfold s2, k; now rewrite E2).
  rewrite <- Hs1' in *. rewrite <- Hs2' in *. clear Hs1' Hs2' E1 E2 s1' s2'.
  assert (Hopen : Ref.is_open conn (world s1) = Ref.is_open conn (world s))
    by (unfold Ref.is_open; now rewrite Hc1).
  split.
  - rewrite Hd2, Hopen, Hd1.
    destruct (Ref.is_open conn (world s) && Ref.conn_db conn); [|reflexivity].
    destruct (Ref.db (world s)) as [d|]; [|reflexivity].
    simpl. now rewrite RefFacts.seed_users_twice.
  - intros Hout. rewrite Ho1 in Hout. apply app_inv_head in Hout. subst o1.
    destruct Hs1 as [(Habs & _)|[(_ & Hnone & Hone)|(e & Habs & _)]];
      [discriminate | | discriminate].
    rewrite RefFacts.admin_rows_admins in *.
    rewrite Hd1 in *.
    destruct (Ref.is_open conn (world s) && Ref.conn_db conn);
      [|rewrite Hnone in Hone; discriminate].
    destruct (Ref.db (world s)) as [d|]; [|discriminate]. simpl in *.
    destruct (seed_users_row (RefFacts.admin_hash env hash) d Hnone) as [Heq|H].
    + rewrite Heq, Hnone in Hone. discriminate.
    + exact H.
Qed.

(** ** Applying a unit that is recorded already *)

(** X11.  Against the reference server, on a live connection, where no
    migration statement touches the tracking table: [apply_migration] for a
    unit whose name is recorded already executes every statement of the
    file again, then its record [INSERT] raises the duplicate-entry error
    of the [UNIQUE] name, which [apply_migration] passes on; it does not
    commit, and the recorded names stay as they were. *)
Theorem apply_migration_recorded_unit
        (sem : string -> Ref.DB -> option Ref.DB) (dir : Directory) (conn : Ref.Conn)
        (n text : string) (l : list string) (s : state Ref.World Ref.Conn Ref.Cur) :
  RefFacts.keeps_tracking sem ->
  RefFacts.live conn (world s) -> Ref.tracked (world s) = Some l ->
  Ref.mem n l = true -> read_text dir n = inr text ->
  let k := {| Ref.cur_conn := conn; Ref.cur_id := Ref.next_handle (world s) |} in
  exists s' xs,
    apply_migration (api := Ref.server sem) dir conn n s = (s', inl (Ref.duplicate n))
    /\ List.length xs = List.length (statements text)
    /\ calls s'
       = calls s
           ++ (CCursor conn, None)
                :: combine (map (fun q => CExecute k q None) (statements text)) xs
                ++ [(CExecute k insert_migration_sql (Some [PStr n]),
                     Some (Ref.duplicate n))]
    /\ Ref.tracked (world s') = Some l.
Proof.
  intros Hk Hl Ht Hn Htext k.
  assert (Hrun : exists s', apply_migration (api := Ref.server sem) dir conn n s
                            = (s', inl (Ref.duplicate n))
                            /\ Ref.tracked (world s') = Some l
                            /\ exists front,
                                calls s'
                                = front ++ [(CExecute k insert_migration_sql
                                               (Some [PStr n]),
                                             Some (Ref.duplicate n))]).
  { unfold apply_migration, bind at 1, cursor_, perform. simpl.
    unfold bind at 1, lift. rewrite Htext. fold k.
    set (s0 := {| world := Ref.set_conns (world s) (Ref.open_conns (world s))
                             (S (Ref.next_handle (world s)));
                  calls := calls s ++ [(CCursor conn, None)]; stdout := stdout s |}).
    assert (Hl0 : RefFacts.live (Ref.cur_conn k) (world s0)).
    { destruct Hl as (Ho & Hcd & d & Hd). unfold RefFacts.live, Ref.is_open in *; simpl.
      eauto. }
    assert (Ht0 : Ref.tracked (world s0) = Some l) by exact Ht.
    destruct (RefFacts.ref_statements_loop sem k n (statements text) l s0 Hk Hl0 Ht0)
      as (s1 & E1 & Hl1 & Ht1).
    unfold statement_step in E1. unfold bind at 1. rewrite E1.
    unfold bind at 1, execute_, perform. cbn [execute Ref.server].
    destruct Hl1 as (Ho & Hcd & d & Hd).
    rewrite (RefFacts.execute_live sem k insert_migration_sql (Some [PStr n]) (world s1) d
               Ho Hcd Hd eq_refl), RefFacts.run_insert_migration.
    pose proof Ht1 as Ht1'. unfold Ref.tracked in Ht1'. rewrite Hd in Ht1'.
    rewrite Ht1', Hn. eexists. split; [reflexivity|]. split; [exact Ht1|].
    simpl. eexists. reflexivity. }
  destruct Hrun as (s' & E & Ht' & front & Hlast).
  destruct (apply_migration_spec (api := Ref.server sem) dir conn n text s _ _ Htext
              eq_refl) as (s'' & r & xs & x & tail & E' & Hlen & [Hc _] & Hx).
  rewrite E in E'. inversion E'; subst s'' r; clear E'.
  fold k in Hc.
  exists s', xs. split; [exact E|]. split; [exact Hlen|]. split; [|exact Ht'].
  destruct x as [e|].
  - destruct Hx as [-> He]. inversion He; subst e. exact Hc.
  - destruct Hx as (y & -> & _). exfalso.
    assert (Hc' : exists pre, calls s' = pre ++ [(CCommit conn, y)]).
    { exists (calls s ++ (CCursor conn, None)
                :: combine (map (fun q => CExecute k q None) (statements text)) xs
                ++ [(CExecute k insert_migration_sql (Some [PStr n]), None)]).
      rewrite Hc, <- app_assoc. simpl. now rewrite <- app_assoc. }
    destruct Hc' as [pre Hc']. rewrite Hlast in Hc'.
    apply app_inj_tail in Hc'. destruct Hc' as [_ Hc']. discriminate.
Qed.

Lemma apply_migration_recorded_unit_witness :
  exists s' xs,
    apply_migration (api := Ref.server Scenario.sem) Scenario.three_units
      Scenario.old_conn "0001_init.sql" (Ref.start Scenario.old_schema)
    = (s', inl (Ref.duplicate "0001_init.sql"))
    /\ List.length xs = 3
    /\ calls s'
       = (CCursor Scenario.old_conn, None)
           :: combine (map (fun q => CExecute {| Ref.cur_conn := Scenario.old_conn;
                                                 Ref.cur_id := 2 |} q None)
                         [Scenario.create_users_sql; "BAD SQL"; "SELECT 1"]) xs
           ++ [(CExecute {| Ref.cur_conn := Scenario.old_conn; Ref.cur_id := 2 |}
                  insert_migration_sql (Some [PStr "0001_init.sql"]),
                Some (Ref.duplicate "0001_init.sql"))]
    /\ Ref.tracked (world s') = Some ["0001_init.sql"].
Proof.
  apply (apply_migration_recorded_unit Scenario.sem Scenario.three_units Scenario.old_conn
           "0001_init.sql"
           (Scenario.create_users_sql ++ "; BAD SQL ;
SELECT 1;")%string ["0001_init.sql"] (Ref.start Scenario.old_schema)).
  - exact scenario_sem_keeps.
  - unfold RefFacts.live. split; [reflexivity|]. split; [reflexivity|].
    eexists. reflexivity.
  - reflexivity.
  - reflexivity.
  - reflexivity.
Defined.

(** ** The connection of a run *)

Lemma close_calls_app {Conn Cur : Type} (t1 t2 : list (entry Conn Cur)) :
  close_calls (t1 ++ t2) = close_calls t1 + close_calls t2.
Proof. unfold close_calls. now rewrite filter_app, length_app. Qed.

Lemma session_no_close {Conn Cur : Type} (t : list (entry Conn Cur)) :
  Forall session_call t -> close_calls t = 0.
Proof.
  induction 1 as [|[c x] t Hx _ IH]; [reflexivity|].
  unfold close_calls in *. simpl. unfold session_call in Hx. simpl in Hx.
  destruct c; try exact IH; contradiction.
Qed.

Lemma close_calls_session {W Conn Cur : Type} (s1 s2 : state W Conn Cur)
      (t : list (entry Conn Cur)) :
  calls s2 = calls s1 ++ t -> Forall session_call t ->
  close_calls (calls s2) = close_calls (calls s1).
Proof.
  intros -> H. rewrite close_calls_app, (session_no_close t H). lia.
Qed.

Lemma close_calls_close {Conn Cur : Type} (l : list (entry Conn Cur)) (c : Conn)
      (x : option exn) :
  close_calls (l ++ [(CClose c, x)]) = S (close_calls l).
Proof. rewrite close_calls_app. unfold close_calls at 2. simpl. lia. Qed.

(** X12.  With every driver and on every path: [main] opens at most one
    connection to the named database, all within its one call of
    [connect_mysql], and after that call makes no import, no connect and no
    close call; whatever connection it holds is not closed when it returns
    or raises. *)
Theorem main_never_closes
        (W Conn Cur : Type) (api : DBAPI W Conn Cur) (env : Environ) (dir : Directory)
        (hash : string -> string) (s : state W Conn Cur) :
  exists t1 t2,
    calls (fst (connect_mysql env true s)) = calls s ++ t1
    /\ calls (fst (main env dir hash s)) = calls s ++ t1 ++ t2
    /\ acquired t1 <= 1
    /\ Forall session_call t2
    /\ close_calls t2 = 0.
Proof.
  destruct (main_after_connect env dir hash s)
    as (s1 & r1 & t1 & t2 & o & E & [Hc1 _] & Ha & [Hc2 _] & Hs).
  exists t1, t2. rewrite E. simpl.
  split; [exact Hc1|]. split; [now rewrite Hc2, Hc1, app_assoc|].
  split; [rewrite Ha; destruct r1 as [e|[c|]]; lia|].
  split; [exact Hs | now apply session_no_close].
Qed.

(** ** The database helpers of the web application *)

Section AppFacts.

Context {W Conn Cur : Type} {api : DBAPI W Conn Cur} {rows : RowAPI W Conn Cur}.
Variable environ : Environ.

(** *** ensure_schema *)

(** The calls of [ensure_schema] that no [try] guards: opening the cursor,
    creating the three tables, committing. *)
Definition schema_call (c : call Conn Cur) : Prop :=
  match c with
  | CCursor _ | CCommit _ => True
  | CExecute _ sql None =>
      sql = users_table_sql \/ sql = tasks_table_sql \/ sql = subtasks_table_sql
  | _ => False
  end.

Lemma ensure_schema_raises_from (conn : Conn) :
  raises_from schema_call (ensure_schema conn).
Proof.
  unfold ensure_schema.
  apply raises_bind; [apply raises_perform; exact I|]. intros k.
  apply raises_bind; [apply raises_perform; now left|]. intros _.
  apply raises_bind; [unfold ensure_role_column; apply raises_try; intros e;
                      apply raises_ret|]. intros _.
  apply raises_bind; [apply raises_perform; right; now left|]. intros _.
  apply raises_bind; [apply raises_perform; right; now right|]. intros _.
  apply raises_perform. exact I.
Qed.

(** The calls the column check plans, for the database name [name] and the
    statement [alter] it settles on. *)
Definition role_steps (k : Cur) (name : option pyval) (alter : string)
  : list (call Conn Cur) :=
  [CExecute k select_database_sql None; CFetchone k;
   CExecute k count_role_column_sql (Some (present [name])); CFetchone k;
   CExecute k alter None].

(** The traces the column check can leave: its calls in order up to the
    first one that raises; or the first two when no database name can be
    read off the row; or all five. *)
Inductive role_attempt (k : Cur) : list (entry Conn Cur) -> Prop :=
| role_stops (name : option pyval) (alter : string)
             (before after : list (call Conn Cur)) (c : call Conn Cur) (e : exn) :
    alter = add_role_sql \/ alter = modify_role_sql ->
    role_steps k name alter = before ++ c :: after ->
    role_attempt k (oks before ++ [(c, Some e)])
| role_no_name :
    role_attempt k (oks [CExecute k select_database_sql None; CFetchone k])
| role_done (name : option pyval) (alter : string) :
    alter = add_role_sql \/ alter = modify_role_sql ->
    role_attempt k (oks (role_steps k name alter)).

(** The statement the check settles on, from the row of the count. *)
Definition alter_for (fetched : option pyrow) : exn + string :=
  match first_column "cnt" (Some (row_or fetched (RowDict [("cnt", Some (PInt 0))]))) with
  | inl e => inl e
  | inr cnt => inr (if truthy cnt then modify_role_sql else add_role_sql)
  end.

Lemma alter_for_total (fetched : option pyrow) :
  exists alter, alter_for fetched = inr alter
                /\ (alter = add_role_sql \/ alter = modify_role_sql).
Proof.
  unfold alter_for.
  assert (H : exists cnt,
             first_column "cnt" (Some (row_or fetched (RowDict [("cnt", Some (PInt 0))])))
             = inr cnt).
  { destruct fetched as [[[|i items]|[|v items]]|]; simpl; eexists; reflexivity. }
  destruct H as [cnt ->]. eexists. split; [reflexivity|].
  destruct (truthy cnt); [now right | now left].
Qed.

#[local] Arguments first_column : simpl never.
#[local] Arguments present : simpl never.

Lemma ensure_role_column_spec (k : Cur) (s : state W Conn Cur) :
  exists s' t,
    ensure_role_column k s = (s', inr tt)
    /\ extends s s' t []
    /\ role_attempt k t.
Proof.
  unfold ensure_role_column, try_except, bind, execute_, execute_params_, fetch_row_,
    perform, lift, ret, extends.
  destruct (execute k select_database_sql None (world s)) as [w1 [e|u1]]; simpl.
  { do 2 eexists. split; [reflexivity|]. simpl.
    split. 2:{ eapply (role_stops k None add_role_sql []); [now left | reflexivity]. }
    split; [reflexivity | now rewrite app_nil_r]. }
  destruct (fetch_row k w1) as [w2 [e|db_row]]; simpl.
  { do 2 eexists. split; [reflexivity|]. simpl.
    split. 2:{ eapply (role_stops k None add_role_sql [_]); [now left | reflexivity]. }
    split; [now rewrite <- !app_assoc | now rewrite app_nil_r]. }
  destruct (first_column "DATABASE()" db_row) as [e|name]; simpl.
  { do 2 eexists. split; [reflexivity|]. simpl.
    split. 2:{ apply role_no_name. }
    split; [now rewrite <- !app_assoc | now rewrite app_nil_r]. }
  destruct (execute_params k count_role_column_sql [name] w2) as [w3 [e|u3]]; simpl.
  { do 2 eexists. split; [reflexivity|]. simpl.
    split. 2:{ eapply (role_stops k name add_role_sql [_; _]);
               [now left | reflexivity]. }
    split; [now rewrite <- !app_assoc | now rewrite app_nil_r]. }
  destruct (fetch_row k w3) as [w4 [e|fetched]]; simpl.
  { do 2 eexists. split; [reflexivity|]. simpl.
    split. 2:{ eapply (role_stops k name add_role_sql [_; _; _]);
               [now left | reflexivity]. }
    split; [now rewrite <- !app_assoc | now rewrite app_nil_r]. }
  destruct (alter_for_total fetched) as (alter & Halter & Hcase).
  unfold alter_for in Halter.
  destruct (first_column "cnt" (Some (row_or fetched (RowDict [("cnt", Some (PInt 0))]))))
    as [e|cnt]; [discriminate|]. simpl. inversion Halter as [Ha]. clear Halter.
  destruct (truthy cnt); simpl.
  - destruct (execute k modify_role_sql None w4) as [w5 [e|[]]]; simpl.
    + do 2 eexists. split; [reflexivity|]. simpl.
      split. 2:{ eapply (role_stops k name modify_role_sql [_; _; _; _]);
                 [now right | reflexivity]. }
      split; [now rewrite <- !app_assoc | now rewrite app_nil_r].
    + do 2 eexists. split; [reflexivity|]. simpl.
      split. 2:{ apply (role_done k name modify_role_sql). now right. }
      split; [now rewrite <- !app_assoc | now rewrite app_nil_r].
  - destruct (execute k add_role_sql None w4) as [w5 [e|[]]]; simpl.
    + do 2 eexists. split; [reflexivity|]. simpl.
      split. 2:{ eapply (role_stops k name add_role_sql [_; _; _; _]);
                 [now left | reflexivity]. }
      split; [now rewrite <- !app_assoc | now rewrite app_nil_r].
    + do 2 eexists. split; [reflexivity|]. simpl.
      split. 2:{ apply (role_done k name add_role_sql). now left. }
      split; [now rewrite <- !app_assoc | now rewrite app_nil_r].
Qed.

Lemma role_attempt_length (k : Cur) (t : list (entry Conn Cur)) :
  role_attempt k t -> List.length t <= 5.
Proof.
  destruct 1 as [name alter before after c e _ Hsteps| |name alter _];
    [|simpl; lia|simpl; lia].
  apply (f_equal (@List.length _)) in Hsteps. rewrite length_app in Hsteps.
  simpl in Hsteps. rewrite length_app. unfold oks. rewrite length_map. simpl. lia.
Qed.

(** The calls that end [ensure_schema], once the column check is over. *)
Definition final_steps (k : Cur) (conn : Conn) : list (call Conn Cur) :=
  [CExecute k tasks_table_sql None; CExecute k subtasks_table_sql None; CCommit conn].

Lemma ensure_schema_spec (conn : Conn) (s : state W Conn Cur) (w1 w2 : W) (k : Cur) :
  cursor conn (world s) = (w1, inr k) ->
  execute k users_table_sql None w1 = (w2, inr tt) ->
  exists s' r t_role rest,
    ensure_schema conn s = (s', r)
    /\ extends s s'
         ((CCursor conn, None) :: (CExecute k users_table_sql None, None) :: t_role ++ rest)
         []
    /\ role_attempt k t_role
    /\ match r with
       | inr _ => rest = oks (final_steps k conn)
       | inl e =>
           exists before c after,
             final_steps k conn = before ++ c :: after
             /\ rest = oks before ++ [(c, Some e)]
       end.
Proof.
  intros Hcur Husers.
  unfold ensure_schema, bind at 1, cursor_, perform. rewrite Hcur.
  unfold bind at 1, execute_ at 1, perform. cbn [world calls stdout]. rewrite Husers.
  cbn [world calls stdout].
  set (s0 := {| world := w2;
                calls := (calls s ++ [(CCursor conn, raised (inr k))])
                           ++ [(CExecute k users_table_sql None, raised (inr tt))];
                stdout := stdout s |}).
  assert (X0 : extends s s0 [(CCursor conn, None); (CExecute k users_table_sql None, None)]
                 []).
  { split; simpl; [now rewrite <- app_assoc | now rewrite app_nil_r]. }
  destruct (ensure_role_column_spec k s0) as (s1 & t & E1 & X1 & A1).
  unfold bind at 1. rewrite E1.
  pose proof (extends_trans _ _ _ _ _ _ _ X0 X1) as X01. simpl in X01.
  unfold bind, execute_, commit_, perform.
  destruct (execute k tasks_table_sql None (world s1)) as [w3 [e|[]]]; simpl.
  { do 4 eexists. split; [reflexivity|]. split; [|split; [exact A1|]].
    2:{ exists [], (CExecute k tasks_table_sql None),
          [CExecute k subtasks_table_sql None; CCommit conn]. split; reflexivity. }
    destruct X01 as [Hc Ho]. split; simpl; [rewrite Hc; now rewrite <- app_assoc | exact Ho]. }
  destruct (execute k subtasks_table_sql None w3) as [w4 [e|[]]]; simpl.
  { do 4 eexists. split; [reflexivity|]. split; [|split; [exact A1|]].
    2:{ exists [CExecute k tasks_table_sql None], (CExecute k subtasks_table_sql None),
          [CCommit conn]. split; reflexivity. }
    destruct X01 as [Hc Ho]. split; simpl; [rewrite Hc; now rewrite <- !app_assoc | exact Ho]. }
  destruct (commit conn w4) as [w5 [e|[]]]; simpl.
  { do 4 eexists. split; [reflexivity|]. split; [|split; [exact A1|]].
    2:{ exists [CExecute k tasks_table_sql None; CExecute k subtasks_table_sql None],
          (CCommit conn), []. split; reflexivity. }
    destruct X01 as [Hc Ho]. split; simpl; [rewrite Hc; now rewrite <- !app_assoc | exact Ho]. }
  do 4 eexists. split; [reflexivity|]. split; [|split; [exact A1 | reflexivity]].
  destruct X01 as [Hc Ho]. split; simpl; [rewrite Hc; now rewrite <- !app_assoc | exact Ho].
Qed.

(** Whether the count of the column check found the column. *)
Definition counted (fetched : option pyrow) : bool :=
  match first_column "cnt" (Some (row_or fetched (RowDict [("cnt", Some (PInt 0))]))) with
  | inr cnt => truthy cnt
  | inl _ => false
  end.

Lemma ensure_role_column_alter (k : Cur) (s : state W Conn Cur) (w1 w2 w3 w4 : W)
      (db_row fetched : option pyrow) (name : option pyval) :
  execute k select_database_sql None (world s) = (w1, inr tt) ->
  fetch_row k w1 = (w2, inr db_row) ->
  first_column "DATABASE()" db_row = inr name ->
  execute_params k count_role_column_sql [name] w2 = (w3, inr tt) ->
  fetch_row k w3 = (w4, inr fetched) ->
  let alter := if counted fetched then modify_role_sql else add_role_sql in
  exists s',
    ensure_role_column k s = (s', inr tt)
    /\ world s' = fst (execute k alter None w4)
    /\ calls s'
       = calls s
           ++ oks [CExecute k select_database_sql None; CFetchone k;
                   CExecute k count_role_column_sql (Some (present [name])); CFetchone k]
           ++ [(CExecute k alter None, raised (snd (execute k alter None w4)))].
Proof.
  intros H1 H2 H3 H4 H5 alter. subst alter.
  unfold ensure_role_column, try_except, bind, execute_, execute_params_, fetch_row_,
    perform, lift, ret, counted.
  rewrite H1. cbn [world]. rewrite H2, H3. cbn [world]. rewrite H4. cbn [world].
  rewrite H5. cbn [world].
  destruct (alter_for_total fetched) as (a & Ha & _). unfold alter_for in Ha.
  destruct (first_column "cnt" (Some (row_or fetched (RowDict [("cnt", Some (PInt 0))]))))
    as [e|cnt]; [discriminate|]. clear Ha.
  destruct (truthy cnt); cbn [negb world calls stdout].
  - destruct (execute k modify_role_sql None w4) as [w5 [e|[]]]; simpl;
      (eexists; split; [reflexivity|]; split; [reflexivity|]; simpl;
       now rewrite <- !app_assoc).
  - destruct (execute k add_role_sql None w4) as [w5 [e|[]]]; simpl;
      (eexists; split; [reflexivity|]; split; [reflexivity|]; simpl;
       now rewrite <- !app_assoc).
Qed.

Lemma ensure_schema_grows (conn : Conn) :
  grows session_call (fun _ => False) (ensure_schema conn).
Proof.
  unfold ensure_schema, ensure_role_column, cursor_, execute_, execute_params_,
    fetch_row_, commit_.
  repeat first
    [ apply grows_ret | apply grows_lift
    | apply grows_bind; [|intros ?] | apply grows_try; [|intros ?]
    | apply grows_if
    | apply grows_perform; intros ?; exact I ].
Qed.

(** *** The startup block *)

Lemma startup_schema_spec (s : state W Conn Cur) :
  exists s',
    startup_schema environ s = (s', inr tt)
    /\ stdout s' = stdout s
    /\ match connect_mysql environ true s with
       | (s1, inr (Some c)) =>
           match ensure_schema c s1 with
           | (s2, inr _) =>
               world s' = fst (close c (world s2))
               /\ calls s' = calls s2 ++ [(CClose c, raised (snd (close c (world s2))))]
               /\ close_calls (calls s') = S (close_calls (calls s1))
           | (s2, inl _) => s' = s2 /\ close_calls (calls s') = close_calls (calls s1)
           end
       | (s1, _) => s' = s1
       end.
Proof.
  unfold startup_schema, try_except, bind.
  destruct (connect_mysql_grows environ true s) as (t0 & o0 & [_ Ho0] & _ & Hq0).
  apply no_lines in Hq0. subst o0. rewrite app_nil_r in Ho0.
  destruct (connect_mysql environ true s) as [s1 [e|[c|]]]; simpl in Ho0.
  - exists s1. now repeat split.
  - destruct (ensure_schema_grows c s1) as (t1 & o1 & [Hc1 Ho1] & Hp1 & Hq1).
    apply no_lines in Hq1. subst o1. rewrite app_nil_r in Ho1.
    assert (Hcl : close_calls (calls (fst (ensure_schema c s1))) = close_calls (calls s1)).
    { exact (close_calls_session _ _ _ Hc1 Hp1). }
    destruct (ensure_schema c s1) as [s2 [e|[]]]; simpl in *.
    + exists s2. split; [reflexivity|]. split; [congruence|]. now split.
    + unfold close_, perform. destruct (close c (world s2)) as [w3 [e|[]]]; simpl;
        (eexists; split; [reflexivity|]); simpl; (split; [congruence|]);
        (split; [reflexivity|]); (split; [reflexivity|]);
        rewrite close_calls_close; now rewrite Hcl.
  - exists s1. now repeat split.
Qed.

(** *** get_db and close_db *)

Lemma get_db_spec (g : G Conn) (s : state W Conn Cur) :
  match g with
  | Some (Some c) => get_db environ g s = (s, inr (Some c, g))
  | _ =>
      match connect_mysql environ true s with
      | (s1, inr (Some c)) => get_db environ g s = (s1, inr (Some c, Some (Some c)))
      | (s1, inr None) => get_db environ g s = (s1, inr (None, g))
      | (s1, inl e) => get_db environ g s = (s1, inl e)
      end
  end.
Proof.
  unfold get_db, bind.
  destruct g as [[c|]|]; try reflexivity;
    destruct (connect_mysql environ true s) as [s1 [e|[c|]]]; reflexivity.
Qed.

Lemma close_db_spec (exception : option exn) (g : G Conn) (s : state W Conn Cur) :
  exists s',
    close_db exception g s = (s', inr tt)
    /\ stdout s' = stdout s
    /\ match g with
       | Some (Some c) =>
           world s' = fst (close c (world s))
           /\ calls s' = calls s ++ [(CClose c, raised (snd (close c (world s))))]
       | _ => s' = s
       end.
Proof.
  unfold close_db, try_except, close_, perform, ret.
  destruct g as [[c|]|]; try (exists s; now repeat split).
  destruct (close c (world s)) as [w1 [e|[]]]; simpl;
    (eexists; split; [reflexivity|]); simpl; now repeat split.
Qed.

End AppFacts.
(** *** A server that answers the column check *)

Module SchemaScenario.
Import Ref.

(** Hand [rows] to the cursor, on an open connection. *)
Definition answer (k : Cur) (rows : list Row) (w : World) : World * (exn + unit) :=
  if is_open (cur_conn k) w
  then (set_results w (put_rows (cur_id k) rows (results w)), inr tt)
  else (w, inl (Exn "InterfaceError" "closed")).

(** The server of [Scenario.sem], which also tells the name of its
    database. *)
Definition schema_execute (k : Cur) (sql : string) (params : option (list pyval))
           (w : World) : World * (exn + unit) :=
  if String.eqb sql select_database_sql then answer k [[PStr "todolist"]] w
  else ref_execute Scenario.sem k sql params w.

Definition schema_server : DBAPI World Conn Cur := {|
  import_module := ref_import;
  connect := ref_connect;
  cursor := ref_cursor;
  execute := schema_execute;
  fetchone := ref_fetchone;
  commit := ref_commit;
  close := ref_close
|}.

(** The number of [role] columns of [users]. *)
Definition role_count (w : World) : Z :=
  match db w with
  | Some d => match role_domain d with Some _ => 1 | None => 0 end
  | None => 0
  end.

(** It counts the [role] column when asked, and hands out its rows as
    tuples, as [mysql.connector] does. *)
Definition tuple_rows : RowAPI World Conn Cur := {|
  execute_params := fun k sql params w =>
    if String.eqb sql count_role_column_sql then answer k [[PInt (role_count w)]] w
    else ref_execute Scenario.sem k sql (Some (present params)) w;
  fetch_row := fun k w =>
    let '(w', r) := ref_fetchone k w in
    (w', match r with
         | inl e => inl e
         | inr row => inr (option_map (fun r => RowTuple (map Some r)) row)
         end)
|}.

(** [ensure_schema] on connection 0 of [Scenario.ready], and on the same
    connection once it is lost. *)
Definition ready_schema : state World Conn Cur * (exn + unit) :=
  ensure_schema (api := schema_server) (rows := tuple_rows) Scenario.old_conn
    (start Scenario.ready).

Definition lost_schema : state World Conn Cur * (exn + unit) :=
  ensure_schema (api := schema_server) (rows := tuple_rows) Scenario.old_conn
    (start Scenario.lost).

End SchemaScenario.

(** X13.  With every driver, when [ensure_schema] raises, the exception is
    the one its last driver call raised, and that call is one of the five
    that no [try] guards: opening the cursor, creating [users], [tasks] or
    [subtasks], or the commit.  Nothing the check of the [role] column
    raises leaves [ensure_schema]. *)
Theorem ensure_schema_raises
        (W Conn Cur : Type) (api : DBAPI W Conn Cur) (rows : RowAPI W Conn Cur)
        (conn : Conn) (s s' : state W Conn Cur) (e : exn) :
  ensure_schema conn s = (s', inl e) ->
  exists t c, calls s' = t ++ [(c, Some e)] /\ schema_call c.
Proof. exact (ensure_schema_raises_from conn s s' e). Qed.

Lemma ensure_schema_raises_witness :
  snd SchemaScenario.lost_schema = inl (Exn "InterfaceError" "closed")
  /\ exists t c,
      calls (fst SchemaScenario.lost_schema)
      = t ++ [(c, Some (Exn "InterfaceError" "closed"))]
      /\ schema_call c.
Proof.
  split; [vm_compute; reflexivity|].
  apply (ensure_schema_raises _ _ _ SchemaScenario.schema_server
           SchemaScenario.tuple_rows Scenario.old_conn (Ref.start Scenario.lost)).
  vm_compute. reflexivity.
Defined.

(** X14.  With every driver, once the cursor is open and [users] has been
    created, [ensure_schema] runs the check of the [role] column, which
    makes at most five calls, never raises and prints nothing, and then,
    whatever the check met, executes the creation of [tasks], of
    [subtasks] and the commit, in this order, up to the first of the three
    that raises; it returns normally exactly when all three went
    through. *)
Theorem ensure_schema_creates_every_table
        (W Conn Cur : Type) (api : DBAPI W Conn Cur) (rows : RowAPI W Conn Cur)
        (conn : Conn) (s : state W Conn Cur) (w1 w2 : W) (k : Cur) :
  cursor conn (world s) = (w1, inr k) ->
  execute k users_table_sql None w1 = (w2, inr tt) ->
  exists s' r t_role rest,
    ensure_schema conn s = (s', r)
    /\ stdout s' = stdout s
    /\ calls s'
       = calls s
           ++ (CCursor conn, None) :: (CExecute k users_table_sql None, None)
                :: t_role ++ rest
    /\ role_attempt k t_role
    /\ List.length t_role <= 5
    /\ match r with
       | inr _ => rest = oks (final_steps k conn)
       | inl e =>
           exists before c after,
             final_steps k conn = before ++ c :: after
             /\ rest = oks before ++ [(c, Some e)]
       end.
Proof.
  intros Hcur Husers.
  destruct (ensure_schema_spec conn s w1 w2 k Hcur Husers)
    as (s' & r & t_role & rest & E & [Hc Ho] & A & R).
  exists s', r, t_role, rest. rewrite app_nil_r in Ho.
  split; [exact E|]. split; [exact Ho|]. split; [exact Hc|]. split; [exact A|].
  split; [exact (role_attempt_length k t_role A) | exact R].
Qed.

Lemma ensure_schema_creates_every_table_witness :
  snd SchemaScenario.ready_schema = inr tt
  /\ exists s' r t_role rest,
      SchemaScenario.ready_schema = (s', r)
      /\ stdout s' = []
      /\ calls s'
         = (CCursor Scenario.old_conn, None)
             :: (CExecute {| Ref.cur_conn := Scenario.old_conn; Ref.cur_id := 1 |}
                   users_table_sql None, None)
             :: t_role ++ rest
      /\ role_attempt {| Ref.cur_conn := Scenario.old_conn; Ref.cur_id := 1 |} t_role
      /\ List.length t_role <= 5
      /\ match r with
         | inr _ =>
             rest = oks (final_steps {| Ref.cur_conn := Scenario.old_conn; Ref.cur_id := 1 |}
                           Scenario.old_conn)
         | inl e =>
             exists before c after,
               final_steps {| Ref.cur_conn := Scenario.old_conn; Ref.cur_id := 1 |}
                 Scenario.old_conn = before ++ c :: after
               /\ rest = oks before ++ [(c, Some e)]
         end.
Proof.
  split; [vm_compute; reflexivity|].
  apply (ensure_schema_creates_every_table _ _ _ SchemaScenario.schema_server
           SchemaScenario.tuple_rows Scenario.old_conn (Ref.start Scenario.ready)
           (fst (Ref.ref_cursor Scenario.old_conn Scenario.ready))
           (fst (SchemaScenario.schema_execute
                   {| Ref.cur_conn := Scenario.old_conn; Ref.cur_id := 1 |}
                   users_table_sql None
                   (fst (Ref.ref_cursor Scenario.old_conn Scenario.ready))))).
  - reflexivity.
  - vm_compute. reflexivity.
Defined.

(** X15.  With every driver, when the two queries of the column check and
    their [fetchone] calls go through and a database name can be read off
    the first row, the check executes exactly one [ALTER TABLE] as its
    fifth and last call: [ADD COLUMN role] when the count is missing, zero
    or [None], [MODIFY COLUMN role] otherwise; and it returns normally
    whether that statement raises or not. *)
Theorem ensure_schema_role_column
        (W Conn Cur : Type) (api : DBAPI W Conn Cur) (rows : RowAPI W Conn Cur)
        (k : Cur) (s : state W Conn Cur) (w1 w2 w3 w4 : W)
        (db_row fetched : option pyrow) (name : option pyval) :
  execute k select_database_sql None (world s) = (w1, inr tt) ->
  fetch_row k w1 = (w2, inr db_row) ->
  first_column "DATABASE()" db_row = inr name ->
  execute_params k count_role_column_sql [name] w2 = (w3, inr tt) ->
  fetch_row k w3 = (w4, inr fetched) ->
  let alter := if counted fetched then modify_role_sql else add_role_sql in
  (exists s',
      ensure_role_column k s = (s', inr tt)
      /\ world s' = fst (execute k alter None w4)
      /\ calls s'
         = calls s
             ++ oks [CExecute k select_database_sql None; CFetchone k;
                     CExecute k count_role_column_sql (Some (present [name]));
                     CFetchone k]
             ++ [(CExecute k alter None, raised (snd (execute k alter None w4)))])
  /\ counted None = false
  /\ (forall z, counted (Some (RowTuple [Some (PInt z)])) = negb (Z.eqb z 0))
  /\ (forall z, counted (Some (RowDict [("cnt", Some (PInt z))])) = negb (Z.eqb z 0)).
Proof.
  intros H1 H2 H3 H4 H5 alter. split; [|split; [|split]]; try reflexivity.
  exact (ensure_role_column_alter k s w1 w2 w3 w4 db_row fetched name H1 H2 H3 H4 H5).
Qed.

Lemma ensure_schema_role_column_witness :
  exists s',
    ensure_role_column (api := SchemaScenario.schema_server)
      (rows := SchemaScenario.tuple_rows) Scenario.old_cur (Ref.start Scenario.old_schema)
    = (s', inr tt)
    /\ calls s'
       = oks [CExecute Scenario.old_cur select_database_sql None;
              CFetchone Scenario.old_cur;
              CExecute Scenario.old_cur count_role_column_sql (Some [PStr "todolist"]);
              CFetchone Scenario.old_cur]
           ++ [(CExecute Scenario.old_cur modify_role_sql None, None)].
Proof.
  pose (w1 := fst (SchemaScenario.schema_execute Scenario.old_cur select_database_sql None
                     Scenario.old_schema)).
  pose (w2 := fst (fetch_row (RowAPI := SchemaScenario.tuple_rows) Scenario.old_cur w1)).
  pose (w3 := fst (execute_params (RowAPI := SchemaScenario.tuple_rows) Scenario.old_cur
                     count_role_column_sql [Some (PStr "todolist")] w2)).
  pose (w4 := fst (fetch_row (RowAPI := SchemaScenario.tuple_rows) Scenario.old_cur w3)).
  destruct (proj1 (ensure_schema_role_column _ _ _ SchemaScenario.schema_server
                     SchemaScenario.tuple_rows Scenario.old_cur
                     (Ref.start Scenario.old_schema) w1 w2 w3 w4
                     (Some (RowTuple [Some (PStr "todolist")]))
                     (Some (RowTuple [Some (PInt 1)])) (Some (PStr "todolist"))
                     eq_refl eq_refl eq_refl eq_refl eq_refl))
    as (s' & E & _ & Hc).
  exists s'. split; [exact E|]. rewrite Hc. reflexivity.
Defined.

(** X16.  With every driver and every environment, the startup block of
    [create_app] never raises and prints nothing: a port that does not
    parse, a failed connection and whatever [ensure_schema] raises are all
    dropped.  When it gets a connection it closes it, as its last call,
    exactly when [ensure_schema] returned normally; when [ensure_schema]
    raised, the block makes no close call and leaves the connection as it
    is. *)
Theorem startup_schema_never_raises
        (W Conn Cur : Type) (api : DBAPI W Conn Cur) (rows : RowAPI W Conn Cur)
        (env : Environ) (s : state W Conn Cur) :
  exists s',
    startup_schema env s = (s', inr tt)
    /\ stdout s' = stdout s
    /\ match connect_mysql env true s with
       | (s1, inr (Some c)) =>
           match ensure_schema c s1 with
           | (s2, inr _) =>
               world s' = fst (close c (world s2))
               /\ calls s' = calls s2 ++ [(CClose c, raised (snd (close c (world s2))))]
               /\ close_calls (calls s') = S (close_calls (calls s1))
           | (s2, inl _) => s' = s2 /\ close_calls (calls s') = close_calls (calls s1)
           end
       | (s1, _) => s' = s1
       end.
Proof. apply startup_schema_spec. Qed.

(** X17.  With every driver: a [get_db] that returns a connection leaves
    it in [g], and every later [get_db] with that [g] returns the same
    connection without a driver call; a [get_db] that returns [None]
    leaves [g] without a connection, so the next call tries again;
    [get_db] raises only when the port does not parse, before any driver
    call; and one [get_db] opens at most one connection to the database
    and prints nothing. *)
Theorem get_db_one_connection
        (W Conn Cur : Type) (api : DBAPI W Conn Cur) (env : Environ) :
  (forall (g g1 : G Conn) (s s1 : state W Conn Cur) (c : Conn),
      get_db env g s = (s1, inr (Some c, g1)) ->
      g1 = Some (Some c) /\ forall s2, get_db env g1 s2 = (s2, inr (Some c, g1)))
  /\ (forall (g g1 : G Conn) (s s1 : state W Conn Cur),
         get_db env g s = (s1, inr (None, g1)) ->
         g1 = g /\ forall c, g <> Some (Some c))
  /\ (forall (g : G Conn) (s s1 : state W Conn Cur) (e : exn),
         get_db env g s = (s1, inl e) -> s1 = s /\ mysql_config env = inl e)
  /\ (forall (g : G Conn) (s : state W Conn Cur),
         exists t,
           calls (fst (get_db env g s)) = calls s ++ t
           /\ acquired t <= 1
           /\ stdout (fst (get_db env g s)) = stdout s).
Proof.
  split; [|split; [|split]].
  - intros g g1 s s1 c H. pose proof (get_db_spec env g s) as Hs.
    destruct g as [[c0|]|].
    + rewrite Hs in H. inversion H; subst. split; [reflexivity|].
      intros s2. apply (get_db_spec env (Some (Some c)) s2).
    + destruct (connect_mysql env true s) as [s0 [e|[c0|]]];
        rewrite Hs in H; inversion H; subst.
      split; [reflexivity|]. intros s2. apply (get_db_spec env (Some (Some c)) s2).
    + destruct (connect_mysql env true s) as [s0 [e|[c0|]]];
        rewrite Hs in H; inversion H; subst.
      split; [reflexivity|]. intros s2. apply (get_db_spec env (Some (Some c)) s2).
  - intros g g1 s s1 H. pose proof (get_db_spec env g s) as Hs.
    destruct g as [[c0|]|].
    + rewrite Hs in H. discriminate.
    + destruct (connect_mysql env true s) as [s0 [e|[c0|]]];
        rewrite Hs in H; inversion H; subst. split; [reflexivity | discriminate].
    + destruct (connect_mysql env true s) as [s0 [e|[c0|]]];
        rewrite Hs in H; inversion H; subst. split; [reflexivity | discriminate].
  - intros g s s1 e H. pose proof (get_db_spec env g s) as Hs.
    assert (Hc : forall s0 e0, connect_mysql env true s = (s0, inl e0) ->
                               s0 = s /\ mysql_config env = inl e0).
    { intros s0 e0 Hr. destruct (mysql_config env) as [e1|cfg] eqn:Hcfg.
      - rewrite (connect_mysql_bad_config env e1 true s Hcfg) in Hr.
        inversion Hr; subst. now split.
      - destruct (connect_mysql_spec env cfg true s Hcfg) as (s2 & r & _ & _ & _ & E & _).
        rewrite E in Hr. discriminate. }
    destruct g as [[c0|]|].
    + rewrite Hs in H. discriminate.
    + destruct (connect_mysql env true s) as [s0 [e0|[c0|]]] eqn:E;
        rewrite Hs in H; inversion H; subst. now apply Hc.
    + destruct (connect_mysql env true s) as [s0 [e0|[c0|]]] eqn:E;
        rewrite Hs in H; inversion H; subst. now apply Hc.
  - intros g s. pose proof (get_db_spec env g s) as Hs.
    assert (Hc : exists t, calls (fst (connect_mysql env true s)) = calls s ++ t
                           /\ acquired t <= 1
                           /\ stdout (fst (connect_mysql env true s)) = stdout s).
    { destruct (main_after_connect env [] (fun p => p) s)
        as (s1 & r1 & t1 & _ & _ & E & [Hc1 Ho1] & Ha & _).
      exists t1. rewrite E. simpl. rewrite app_nil_r in Ho1.
      split; [exact Hc1|]. split; [|exact Ho1].
      rewrite Ha. destruct r1 as [e|[c|]]; lia. }
    destruct g as [[c0|]|].
    + rewrite Hs. exists []. simpl. rewrite app_nil_r. repeat split. unfold acquired.
      simpl. lia.
    + destruct (connect_mysql env true s) as [s0 [e0|[c0|]]]; rewrite Hs; exact Hc.
    + destruct (connect_mysql env true s) as [s0 [e0|[c0|]]]; rewrite Hs; exact Hc.
Qed.

(** X18.  With every driver, [close_db] never raises and prints nothing:
    with a connection in [g] it makes exactly one call, the [close] of that
    connection, and drops what the call raises; without one it does
    nothing. *)
Theorem close_db_never_raises
        (W Conn Cur : Type) (api : DBAPI W Conn Cur)
        (exception : option exn) (g : G Conn) (s : state W Conn Cur) :
  exists s',
    close_db exception g s = (s', inr tt)
    /\ stdout s' = stdout s
    /\ match g with
       | Some (Some c) =>
           world s' = fst (close c (world s))
           /\ calls s' = calls s ++ [(CClose c, raised (snd (close c (world s))))]
       | _ => s' = s
       end.
Proof. apply close_db_spec. Qed.

(** *** One request against the reference server *)

Lemma filter_absent (c : nat) (l : list nat) :
  ~ In c l -> filter (fun n => negb (Nat.eqb n c)) l = l.
Proof.
  induction l as [|n l IH]; simpl; [reflexivity|]. intros H.
  destruct (Nat.eqb_spec n c) as [->|Hne]; [tauto|]. simpl. rewrite IH; [reflexivity | tauto].
Qed.

(** X19.  Against the reference server, when the port parses and a
    connection can be had: the first [get_db] of a request opens one
    connection and keeps it in [g]; and when the request has opened or
    closed no other connection since, [close_db] at its end leaves exactly
    the connections open that were open before the request. *)
Theorem request_releases_connection
        (sem : string -> Ref.DB -> option Ref.DB) (env : Environ) (cfg : Config)
        (exception : option exn) (s : state Ref.World Ref.Conn Ref.Cur) :
  mysql_config env = inr cfg ->
  fresh_handles (world s) ->
  RefFacts.connectable (world s) = true ->
  exists s1 c,
    get_db (api := Ref.server sem) env None s = (s1, inr (Some c, Some (Some c)))
    /\ RefFacts.live c (world s1)
    /\ Ref.open_conns (world s1) = Ref.conn_id c :: Ref.open_conns (world s)
    /\ forall s2,
        Ref.open_conns (world s2) = Ref.open_conns (world s1) ->
        Ref.open_conns
          (world (fst (close_db (api := Ref.server sem) exception (Some (Some c)) s2)))
        = Ref.open_conns (world s).
Proof.
  intros Hcfg Hf Hy.
  destruct (ref_connect_mysql_conns sem env cfg s Hcfg Hf) as (s1 & r & E & _ & Ho).
  destruct (RefFacts.ref_connect_mysql sem env cfg s Hcfg) as (s1' & r' & E' & _ & _ & _ & R).
  rewrite E in E'. inversion E'; subst s1' r'; clear E'.
  destruct r as [c|]; [|congruence].
  destruct Ho as [Ho Hnew]. destruct R as [Hl _].
  exists s1, c. split; [|split; [exact Hl | split; [exact Ho|]]].
  - pose proof (get_db_spec (api := Ref.server sem) env None s) as Hs.
    cbv beta iota in Hs. rewrite E in Hs. exact Hs.
  - intros s2 H2.
    destruct (close_db_spec (api := Ref.server sem) exception (Some (Some c)) s2)
      as (s3 & E3 & _ & Hw & _).
    rewrite E3. simpl. rewrite Hw. cbn [close Ref.server]. unfold Ref.ref_close, Ref.is_open.
    rewrite H2, Ho. simpl. rewrite Nat.eqb_refl. simpl.
    now apply filter_absent.
Qed.

Lemma request_releases_connection_witness :
  exists s1 c,
    get_db (api := Ref.server Scenario.sem) [] None (Ref.start Scenario.fresh)
    = (s1, inr (Some c, Some (Some c)))
    /\ RefFacts.live c (world s1)
    /\ Ref.open_conns (world s1) = Ref.conn_id c :: Ref.open_conns Scenario.fresh
    /\ forall s2,
        Ref.open_conns (world s2) = Ref.open_conns (world s1) ->
        Ref.open_conns
          (world (fst (close_db (api := Ref.server Scenario.sem) None (Some (Some c)) s2)))
        = Ref.open_conns Scenario.fresh.
Proof.
  apply (request_releases_connection Scenario.sem [] _ None (Ref.start Scenario.fresh)
           eq_refl).
  - constructor.
  - reflexivity.
Defined.

(** ** Mail *)

Section MailFacts.

Context {W Server Msg : Type} {smtp : SMTPAPI W Server Msg}.
Variable environ : Environ.

(** The calls of a session, in order: STARTTLS, the login when a user is
    configured, the message. *)
Definition session_steps (srv : Server) (cfg : SmtpConfig) (msg : Msg)
  : list (mail_call Server Msg) :=
  MStartTLS srv
    :: (if negb (String.eqb (smtp_user cfg) "")
        then [MLogin srv (smtp_user cfg) (smtp_password cfg)] else [])
    ++ [MSend srv msg].

Definition mail_oks (l : list (mail_call Server Msg))
  : list (mail_call Server Msg * option exn) :=
  map (fun c => (c, None)) l.

Lemma send_email_unconfigured (to_email subject body : string)
      (s : mail_state W Server Msg) :
  match smtp_config environ with
  | inl e => send_email environ to_email subject body s = (s, inl e)
  | inr cfg =>
      smtp_host cfg = "" \/ from_email cfg = "" ->
      send_email environ to_email subject body s
      = (s, inl (Exn "RuntimeError" "smtp_not_configured"))
  end.
Proof.
  unfold send_email, mail_bind, mail_lift, mail_raise.
  destruct (smtp_config environ) as [e|cfg]; [reflexivity|].
  intros [H|H]; rewrite H; simpl; [reflexivity|].
  now rewrite orb_true_r.
Qed.

Lemma send_email_session (to_email subject body : string)
      (s : mail_state W Server Msg) (cfg : SmtpConfig) (msg : Msg) (w1 : W)
      (srv : Server) :
  smtp_config environ = inr cfg ->
  smtp_host cfg <> "" -> from_email cfg <> "" ->
  build_message subject (from_email cfg) to_email body = inr msg ->
  smtp_connect (smtp_host cfg) (smtp_port cfg) (outside s) = (w1, inr srv) ->
  exists s' r t b x,
    send_email environ to_email subject body s = (s', r)
    /\ mail_calls s'
       = mail_calls s
           ++ (MConnect (smtp_host cfg) (smtp_port cfg), None) :: t ++ [(MExit srv, x)]
    /\ match b with
       | None => t = mail_oks (session_steps srv cfg msg)
       | Some e =>
           exists before c after,
             session_steps srv cfg msg = before ++ c :: after
             /\ t = mail_oks before ++ [(c, Some e)]
       end
    /\ r = match x, b with
           | Some e, _ => inl e
           | None, Some e => inl e
           | None, None => inr tt
           end.
Proof.
  intros Hcfg Hh Hf Hmsg Hconn.
  unfold send_email, mail_bind at 1, mail_lift at 1. rewrite Hcfg.
  apply String.eqb_neq in Hh, Hf. rewrite Hh, Hf. cbn [orb].
  unfold mail_bind at 1, mail_lift. rewrite Hmsg.
  unfold mail_bind at 1, mail_perform at 1. rewrite Hconn.
  unfold with_session, mail_bind, mail_perform, mail_ret, session_steps.
  cbn [outside mail_calls].
  destruct (starttls srv w1) as [w2 [e|[]]]; cbn [outside mail_calls].
  { destruct (smtp_exit srv w2) as [w3 [e'|[]]]; cbn [raised];
      eexists; eexists; exists [(MStartTLS srv, Some e)], (Some e); eexists;
      (split; [reflexivity|]); cbn [mail_calls];
      (split; [now rewrite <- !app_assoc|]);
      (split; [exists [], (MStartTLS srv),
                 ((if negb (String.eqb (smtp_user cfg) "")
                   then [MLogin srv (smtp_user cfg) (smtp_password cfg)] else [])
                    ++ [MSend srv msg]);
               split; reflexivity | reflexivity]). }
  destruct (negb (String.eqb (smtp_user cfg) "")); cbn [outside mail_calls app].
  - destruct (login srv (smtp_user cfg) (smtp_password cfg) w2) as [w3 [e|[]]];
      cbn [outside mail_calls].
    { destruct (smtp_exit srv w3) as [w4 [e'|[]]]; cbn [raised];
        eexists; eexists;
        exists [(MStartTLS srv, None);
                (MLogin srv (smtp_user cfg) (smtp_password cfg), Some e)], (Some e);
        eexists; (split; [reflexivity|]); cbn [mail_calls];
        (split; [now rewrite <- !app_assoc|]);
        (split; [exists [MStartTLS srv],
                   (MLogin srv (smtp_user cfg) (smtp_password cfg)), [MSend srv msg];
                 split; reflexivity | reflexivity]). }
    destruct (send_message srv msg w3) as [w4 [e|[]]]; cbn [outside mail_calls].
    + destruct (smtp_exit srv w4) as [w5 [e'|[]]]; cbn [raised];
        eexists; eexists;
        exists [(MStartTLS srv, None);
                (MLogin srv (smtp_user cfg) (smtp_password cfg), None);
                (MSend srv msg, Some e)], (Some e);
        eexists; (split; [reflexivity|]); cbn [mail_calls];
        (split; [now rewrite <- !app_assoc|]);
        (split; [exists [MStartTLS srv; MLogin srv (smtp_user cfg) (smtp_password cfg)],
                   (MSend srv msg), [];
                 split; reflexivity | reflexivity]).
    + destruct (smtp_exit srv w4) as [w5 [e'|[]]]; cbn [raised];
        eexists; eexists;
        exists [(MStartTLS srv, None);
                (MLogin srv (smtp_user cfg) (smtp_password cfg), None);
                (MSend srv msg, None)], None;
        eexists; (split; [reflexivity|]); cbn [mail_calls];
        (split; [now rewrite <- !app_assoc|]);
        (split; reflexivity).
  - destruct (send_message srv msg w2) as [w4 [e|[]]]; cbn [outside mail_calls].
    + destruct (smtp_exit srv w4) as [w5 [e'|[]]]; cbn [raised];
        eexists; eexists;
        exists [(MStartTLS srv, None); (MSend srv msg, Some e)], (Some e);
        eexists; (split; [reflexivity|]); cbn [mail_calls];
        (split; [now rewrite <- !app_assoc|]);
        (split; [exists [MStartTLS srv], (MSend srv msg), [];
                 split; reflexivity | reflexivity]).
    + destruct (smtp_exit srv w4) as [w5 [e'|[]]]; cbn [raised];
        eexists; eexists;
        exists [(MStartTLS srv, None); (MSend srv msg, None)], None;
        eexists; (split; [reflexivity|]); cbn [mail_calls];
        (split; [now rewrite <- !app_assoc|]);
        (split; reflexivity).
Qed.

End MailFacts.

(** *** A relay *)

Module MailScenario.

Record Letter : Type := {
  subject : string;
  sender : string;
  recipient : string;
  content : string
}.

(** A relay that may offer STARTTLS, knows its accounts, and keeps what it
    accepted. *)
Record Relay : Type := {
  offers_tls : bool;
  accounts : list (string * string);
  outbox : list Letter;
  sessions : nat
}.

Definition has_account (u p : string) (w : Relay) : bool :=
  existsb (fun a => String.eqb (fst a) u && String.eqb (snd a) p) (accounts w).

Definition relay : SMTPAPI Relay nat Letter := {|
  build_message := fun s f t b =>
    inr {| subject := s; sender := f; recipient := t; content := b |};
  smtp_connect := fun _ _ w =>
    ({| offers_tls := offers_tls w; accounts := accounts w; outbox := outbox w;
        sessions := S (sessions w) |}, inr (sessions w));
  starttls := fun _ w =>
    if offers_tls w then (w, inr tt)
    else (w, inl (Exn "SMTPNotSupportedError"
                    "STARTTLS extension not supported by server."));
  login := fun _ u p w =>
    if has_account u p w then (w, inr tt)
    else (w, inl (Exn "SMTPAuthenticationError" "Authentication failed"));
  send_message := fun _ m w =>
    ({| offers_tls := offers_tls w; accounts := accounts w; outbox := outbox w ++ [m];
        sessions := sessions w |}, inr tt);
  smtp_exit := fun _ w =>
    ({| offers_tls := offers_tls w; accounts := accounts w; outbox := outbox w;
        sessions := Nat.pred (sessions w) |}, inr tt)
|}.

Definition plain_relay : Relay :=
  {| offers_tls := false; accounts := [("todo", "secret")]; outbox := []; sessions := 0 |}.

Definition configured : Environ :=
  [("SMTP_HOST", "mail.example.com"); ("SMTP_USER", "todo");
   ("SMTP_PASSWORD", "secret"); ("FROM_EMAIL", "todo@example.com")].

Definition begin (w : Relay) : mail_state Relay nat Letter :=
  {| outside := w; mail_calls := [] |}.

End MailScenario.

(** X20.  With every mail library: when [SMTP_HOST] or [FROM_EMAIL] is
    empty or not set, [send_email] raises without a single call to the
    library, so nothing is sent: [RuntimeError("smtp_not_configured")], or
    the [ValueError] of [int] when [SMTP_PORT] is no number, which is read
    before the two are looked at. *)
Theorem send_email_unconfigured_raises
        (W Server Msg : Type) (smtp : SMTPAPI W Server Msg) (env : Environ)
        (to_email subject body : string) (s : mail_state W Server Msg) :
  environ_get env "SMTP_HOST" "" = "" \/ environ_get env "FROM_EMAIL" "" = "" ->
  send_email env to_email subject body s
  = (s, inl (match smtp_config env with
             | inl e => e
             | inr _ => Exn "RuntimeError" "smtp_not_configured"
             end)).
Proof.
  intros H. pose proof (send_email_unconfigured env to_email subject body s) as Hs.
  destruct (smtp_config env) as [e|cfg] eqn:Hcfg; [exact Hs|].
  apply Hs. unfold smtp_config in Hcfg.
  destruct (py_int (environ_get env "SMTP_PORT" "587")); [discriminate|].
  inversion Hcfg; subst cfg. exact H.
Qed.

Lemma send_email_unconfigured_raises_witness :
  send_email (smtp := MailScenario.relay) [("SMTP_HOST", "mail.example.com")]
    "ann@example.com" "Task Reminder" "Reminder"
    (MailScenario.begin MailScenario.plain_relay)
  = (MailScenario.begin MailScenario.plain_relay,
     inl (Exn "RuntimeError" "smtp_not_configured")).
Proof.
  apply (send_email_unconfigured_raises _ _ _ MailScenario.relay
           [("SMTP_HOST", "mail.example.com")]).
  right. reflexivity.
Defined.

(** X21.  With every mail library, once the settings are complete, the
    message is built and the connection to the relay is made: [send_email]
    calls STARTTLS, then the login exactly when [SMTP_USER] is not empty,
    then sends the message, stopping at the first of these calls that
    raises, so that neither the password nor the message is sent after a
    failed STARTTLS; the session's [__exit__] is the last call in every
    case; and [send_email] raises what [__exit__] raised, or else what the
    failed call raised, and returns normally otherwise. *)
Theorem send_email_in_session
        (W Server Msg : Type) (smtp : SMTPAPI W Server Msg) (env : Environ)
        (to_email subject body : string) (s : mail_state W Server Msg)
        (cfg : SmtpConfig) (msg : Msg) (w1 : W) (srv : Server) :
  smtp_config env = inr cfg ->
  smtp_host cfg <> "" -> from_email cfg <> "" ->
  build_message subject (from_email cfg) to_email body = inr msg ->
  smtp_connect (smtp_host cfg) (smtp_port cfg) (outside s) = (w1, inr srv) ->
  exists s' r t b x,
    send_email env to_email subject body s = (s', r)
    /\ mail_calls s'
       = mail_calls s
           ++ (MConnect (smtp_host cfg) (smtp_port cfg), None) :: t ++ [(MExit srv, x)]
    /\ match b with
       | None => t = mail_oks (session_steps srv cfg msg)
       | Some e =>
           exists before c after,
             session_steps srv cfg msg = before ++ c :: after
             /\ t = mail_oks before ++ [(c, Some e)]
       end
    /\ r = match x, b with
           | Some e, _ => inl e
           | None, Some e => inl e
           | None, None => inr tt
           end.
Proof. apply send_email_session. Qed.

Lemma send_email_in_session_witness :
  snd (send_email (smtp := MailScenario.relay) MailScenario.configured
         "ann@example.com" "Task Reminder" "Reminder"
         (MailScenario.begin MailScenario.plain_relay))
  = inl (Exn "SMTPNotSupportedError" "STARTTLS extension not supported by server.")
  /\ mail_calls (fst (send_email (smtp := MailScenario.relay) MailScenario.configured
                        "ann@example.com" "Task Reminder" "Reminder"
                        (MailScenario.begin MailScenario.plain_relay)))
     = [(MConnect "mail.example.com" 587, None);
        (MStartTLS 0,
         Some (Exn "SMTPNotSupportedError" "STARTTLS extension not supported by server."));
        (MExit 0, None)]
  /\ exists s' r t b x,
      send_email (smtp := MailScenario.relay) MailScenario.configured
        "ann@example.com" "Task Reminder" "Reminder"
        (MailScenario.begin MailScenario.plain_relay) = (s', r)
      /\ mail_calls s' = (MConnect "mail.example.com" 587, None) :: t ++ [(MExit 0, x)]
      /\ match b with
         | None =>
             t = mail_oks
                   (session_steps 0
                      {| smtp_host := "mail.example.com"; smtp_port := 587;
                         smtp_user := "todo"; smtp_password := "secret";
                         from_email := "todo@example.com" |}
                      {| MailScenario.subject := "Task Reminder";
                         MailScenario.sender := "todo@example.com";
                         MailScenario.recipient := "ann@example.com";
                         MailScenario.content := "Reminder" |})
         | Some e =>
             exists before c after,
               session_steps 0
                 {| smtp_host := "mail.example.com"; smtp_port := 587;
                    smtp_user := "todo"; smtp_password := "secret";
                    from_email := "todo@example.com" |}
                 {| MailScenario.subject := "Task Reminder";
                    MailScenario.sender := "todo@example.com";
                    MailScenario.recipient := "ann@example.com";
                    MailScenario.content := "Reminder" |} = before ++ c :: after
               /\ t = mail_oks before ++ [(c, Some e)]
         end
      /\ r = match x, b with
             | Some e, _ => inl e
             | None, Some e => inl e
             | None, None => inr tt
             end.
Proof.
  split; [vm_compute; reflexivity|]. split; [vm_compute; reflexivity|].
  apply (send_email_in_session _ _ _ MailScenario.relay MailScenario.configured
           "ann@example.com" "Task Reminder" "Reminder"
           (MailScenario.begin MailScenario.plain_relay)
           {| smtp_host := "mail.example.com"; smtp_port := 587;
              smtp_user := "todo"; smtp_password := "secret";
              from_email := "todo@example.com" |}
           {| MailScenario.subject := "Task Reminder";
              MailScenario.sender := "todo@example.com";
              MailScenario.recipient := "ann@example.com";
              MailScenario.content := "Reminder" |}
           {| MailScenario.offers_tls := false;
              MailScenario.accounts := [("todo", "secret")];
              MailScenario.outbox := []; MailScenario.sessions := 1 |} 0).
  - reflexivity.
  - discriminate.
  - discriminate.
  - reflexivity.
  - reflexivity.
Defined.
